(** * madseq: value model, element prototype chains and the slicing transform

    A shallow embedding of [madseq/util.py], [madseq/types.py],
    [madseq/transform.py] and [Document.transform] of [madseq/document.py].  Python objects that the program mutates
    ([Element]) live in an explicit store and are referred to by location;
    everything the program only builds and reads (numbers, strings, lists,
    [Value] objects) is a plain value.  Exceptions are results. *)

From Stdlib Require Import ZArith List String Ascii Bool Lia Arith.
Import ListNotations.
Local Open Scope string_scope.
Local Open Scope Z_scope.

Set Implicit Arguments.

(** ** Exceptions and results *)

Inductive exn : Type :=
| KeyError
| TypeError
| ValueError
| AttributeError
| AssertionError
| ZeroDivisionError
| RecursionError
| InvalidOperation
| IndexError
| ReferenceError
| Unmodelled.

Inductive result (A : Type) : Type :=
| Ok (a : A)
| Err (e : exn).
Arguments Ok {A} a.
Arguments Err {A} e.

Definition rbind {A B} (r : result A) (k : A -> result B) : result B :=
  match r with
  | Ok a => k a
  | Err e => Err e
  end.

Declare Scope res_scope.
Delimit Scope res_scope with res.
Notation "x <-? r ;; k" := (rbind r (fun x => k))
  (at level 61, r at next level, right associativity) : res_scope.

(** ** util.py: case-insensitive strings *)

Definition lower_ascii (c : ascii) : ascii :=
  let n := nat_of_ascii c in
  if andb (Nat.leb 65 n) (Nat.leb n 90) then ascii_of_nat (n + 32) else c.

Fixpoint lower (s : string) : string :=
  match s with
  | EmptyString => EmptyString
  | String c r => String (lower_ascii c) (lower r)
  end.

(** [str(x)] for an optional string: [str(None)] is the text [None]. *)
Definition str_opt (x : option string) : string :=
  match x with
  | Some s => s
  | None => "None"
  end.

(** [stri.__eq__]: [self.lower() == str(other).lower()].  When one side of
    [==] is a [stri] and the other is [None], Python still dispatches to this
    method (reflected), so both operands go through [str]. *)
Definition stri_eq (a b : option string) : bool :=
  match a, b with
  | None, None => true
  | _, _ => String.eqb (lower (str_opt a)) (lower (str_opt b))
  end.

(** A [stri] attribute compared with a plain string; an attribute that is
    [None] equals no string. *)
Definition stri_is (a : option string) (lit : string) : bool :=
  match a with
  | None => false
  | Some s => String.eqb (lower s) (lower lit)
  end.

(** Truth value of an optional string ([None] and the empty string are
    false). *)
Definition truthy_str (a : option string) : bool :=
  match a with
  | None => false
  | Some EmptyString => false
  | Some _ => true
  end.

(** ** pydicti: ordered case-insensitive dictionaries

    Modelled from the spec: [pydicti] is an external package; per the data
    model, an [odicti] is an ordered map whose keys are unique and
    case-insensitive, insertion order preserved, original casing retained.
    The tables [defs], [by_name] and [_offsets] are such dictionaries, and
    so is what [all_args] returns. *)

Section Odicti.
Variable V : Type.

Definition odicti := list (string * V).

Definition key_is (k : string) (kv : string * V) : bool :=
  String.eqb (lower (fst kv)) (lower k).

Fixpoint od_get (d : odicti) (k : string) : option V :=
  match d with
  | [] => None
  | kv :: r => if key_is k kv then Some (snd kv) else od_get r k
  end.

Definition od_mem (d : odicti) (k : string) : bool :=
  match od_get d k with Some _ => true | None => false end.

(** [d[k] = v]: overwrite in place, or append. *)
Fixpoint od_set (d : odicti) (k : string) (v : V) : odicti :=
  match d with
  | [] => [(k, v)]
  | kv :: r => if key_is k kv then (fst kv, v) :: r else kv :: od_set r k v
  end.

(** [d.update(other)]. *)
Definition od_update (d other : odicti) : odicti :=
  fold_left (fun acc kv => od_set acc (fst kv) (snd kv)) other d.
End Odicti.

(** ** The dictionary of an element: [odicti] or plain [dict]

    [Element.__init__] keeps the dictionary it is given.  The parser and
    [all_args] pass an [odicti]; the template rule and [Sequence.detect]
    pass a literal [dict] ([{}], [{'refer': 'entry'}]), whose keys are
    compared as they are written.  The class of the dictionary decides how
    a key is folded before it is compared. *)

Inductive dict_class : Type := Odicti | Dict.

Definition fold_key (c : dict_class) (k : string) : string :=
  match c with
  | Odicti => lower k
  | Dict => k
  end.

Section Dict.
Variable V : Type.
Variable c : dict_class.

Definition dict_key_is (k : string) (kv : string * V) : bool :=
  String.eqb (fold_key c (fst kv)) (fold_key c k).

(** [d[k]]. *)
Fixpoint dict_get (d : list (string * V)) (k : string) : option V :=
  match d with
  | [] => None
  | kv :: r => if dict_key_is k kv then Some (snd kv) else dict_get r k
  end.

(** [k in d]. *)
Definition dict_mem (d : list (string * V)) (k : string) : bool :=
  match dict_get d k with Some _ => true | None => false end.

(** [d[k] = v]. *)
Fixpoint dict_set (d : list (string * V)) (k : string) (v : V) : list (string * V) :=
  match d with
  | [] => [(k, v)]
  | kv :: r => if dict_key_is k kv then (fst kv, v) :: r else kv :: dict_set r k v
  end.

(** [del d[k]]. *)
Fixpoint dict_del (d : list (string * V)) (k : string) : list (string * V) :=
  match d with
  | [] => []
  | kv :: r => if dict_key_is k kv then r else kv :: dict_del r k
  end.

(** [d.setdefault(k, v)]. *)
Definition dict_setdefault (d : list (string * V)) (k : string) (v : V)
  : list (string * V) :=
  if dict_mem d k then d else dict_set d k v.

(** [d == other]: the same keys with equal values. *)
Definition dict_eqb (veq : V -> V -> bool) (d other : list (string * V)) : bool :=
  andb (Nat.eqb (List.length d) (List.length other))
       (forallb (fun kv => match dict_get other (fst kv) with
                           | Some w => veq (snd kv) w
                           | None => false
                           end) d).
End Dict.

(** ** Python numbers: [int] and [decimal.Decimal]

    [parse_number] yields an [int] or a [Decimal]; these are the numbers of
    every parsed document.  A finite [Decimal] is a sign, a coefficient and an
    exponent.  The operations below follow the [decimal] module under its
    default context (28 significant digits, round-half-even); the exponent
    limits of that context and the special values (infinities, NaN) are not
    represented. *)

Module Decimal.

Record dec : Type := mkDec { dneg : bool; dcoef : Z; dexp : Z }.

Definition prec : Z := 28.

Fixpoint ndigits_fuel (fuel : nat) (n : Z) : Z :=
  match fuel with
  | O => 1
  | S f => if n <? 10 then 1 else 1 + ndigits_fuel f (n / 10)
  end.

(** [len(str(n))] for [n >= 0]. *)
Definition ndigits (n : Z) : Z :=
  ndigits_fuel (S (Z.to_nat (Z.log2 n))) n.

Definition signed (d : dec) : Z :=
  if dneg d then - dcoef d else dcoef d.

Definition is_zero (d : dec) : bool := dcoef d =? 0.

(** Drop the [k] low digits of [c], rounding half to even. *)
Definition round_half_even (c k : Z) : Z :=
  let p := 10 ^ k in
  let q := c / p in
  let r := c mod p in
  if 2 * r <? p then q
  else if p <? 2 * r then q + 1
  else if Z.even q then q else q + 1.

(** [Decimal._fix]: round to the context precision. *)
Definition fix_ (d : dec) : dec :=
  let n := ndigits (dcoef d) in
  if n <=? prec then d
  else
    let k := n - prec in
    let q := round_half_even (dcoef d) k in
    if ndigits q <=? prec then mkDec (dneg d) q (dexp d + k)
    else mkDec (dneg d) (q / 10) (dexp d + k + 1).

(** [Decimal(n)] for an [int]: exact. *)
Definition of_int (z : Z) : dec := mkDec (z <? 0) (Z.abs z) 0.

Definition neg (d : dec) : dec := mkDec (negb (dneg d)) (dcoef d) (dexp d).

Definition add (a b : dec) : dec :=
  let e := Z.min (dexp a) (dexp b) in
  let s := signed a * 10 ^ (dexp a - e) + signed b * 10 ^ (dexp b - e) in
  let sg := if s =? 0 then andb (andb (is_zero a) (is_zero b))
                                (andb (dneg a) (dneg b))
            else s <? 0 in
  fix_ (mkDec sg (Z.abs s) e).

Definition sub (a b : dec) : dec := add a (neg b).

Definition mul (a b : dec) : dec :=
  fix_ (mkDec (xorb (dneg a) (dneg b)) (dcoef a * dcoef b) (dexp a + dexp b)).

Fixpoint strip_zeros (fuel : nat) (coeff e ideal : Z) : Z * Z :=
  match fuel with
  | O => (coeff, e)
  | S f => if andb (e <? ideal) (coeff mod 10 =? 0)
           then strip_zeros f (coeff / 10) (e + 1) ideal
           else (coeff, e)
  end.

(** [Decimal.__truediv__]. *)
Definition div (a b : dec) : result dec :=
  let sg := xorb (dneg a) (dneg b) in
  if is_zero b then
    if is_zero a then Err InvalidOperation else Err ZeroDivisionError
  else if is_zero a then Ok (fix_ (mkDec sg 0 (dexp a - dexp b)))
  else
    let shift := ndigits (dcoef b) - ndigits (dcoef a) + prec + 1 in
    let e := dexp a - dexp b - shift in
    let num := if 0 <=? shift then dcoef a * 10 ^ shift else dcoef a in
    let den := if 0 <=? shift then dcoef b else dcoef b * 10 ^ (- shift) in
    let coeff := num / den in
    let remainder := num mod den in
    if negb (remainder =? 0) then
      Ok (fix_ (mkDec sg (if coeff mod 5 =? 0 then coeff + 1 else coeff) e))
    else
      let '(c, e') := strip_zeros (Z.to_nat (dexp a - dexp b - e))
                                  coeff e (dexp a - dexp b) in
      Ok (fix_ (mkDec sg c e')).

(** Numeric comparison. *)
Definition cmp (a b : dec) : comparison :=
  let e := Z.min (dexp a) (dexp b) in
  (signed a * 10 ^ (dexp a - e)) ?= (signed b * 10 ^ (dexp b - e)).

Definition eqb (a b : dec) : bool :=
  match cmp a b with Eq => true | _ => false end.

(** [abs(d)]: the sign is cleared and the context applied. *)
Definition abs (d : dec) : dec := fix_ (mkDec false (dcoef d) (dexp d)).

(** [math.ceil(d)]. *)
Definition ceil (d : dec) : Z :=
  if 0 <=? dexp d then signed d * 10 ^ dexp d
  else
    let p := 10 ^ (- dexp d) in
    let q := dcoef d / p in
    let r := dcoef d mod p in
    if dneg d then - q else if r =? 0 then q else q + 1.

(** [d.normalize()]: strip trailing zeros of the coefficient. *)
Fixpoint strip_all (fuel : nat) (coeff e : Z) : Z * Z :=
  match fuel with
  | O => (coeff, e)
  | S f => if coeff mod 10 =? 0 then strip_all f (coeff / 10) (e + 1)
           else (coeff, e)
  end.

Definition normalize (d : dec) : dec :=
  let d' := fix_ d in
  if is_zero d' then mkDec (dneg d') 0 0
  else
    let '(c, e) := strip_all (Z.to_nat (ndigits (dcoef d'))) (dcoef d') (dexp d') in
    mkDec (dneg d') c e.

End Decimal.

(** ** Rendering of numbers ([str]) *)

Definition dquote : string := String (ascii_of_nat 34) EmptyString.

Definition digit_char (d : Z) : ascii := ascii_of_nat (48 + Z.to_nat d).

Fixpoint digits_fuel (fuel : nat) (n : Z) (acc : string) : string :=
  match fuel with
  | O => acc
  | S f =>
      let acc' := String (digit_char (n mod 10)) acc in
      if n <? 10 then acc' else digits_fuel f (n / 10) acc'
  end.

Definition str_digits (n : Z) : string :=
  digits_fuel (S (Z.to_nat (Z.log2 n))) n EmptyString.

(** [str(n)] for an [int]. *)
Definition str_int (z : Z) : string :=
  if z <? 0 then "-" ++ str_digits (- z) else str_digits z.

Fixpoint zeros (n : nat) : string :=
  match n with
  | O => EmptyString
  | S k => String "0" (zeros k)
  end.

(** [Decimal.__str__]: scientific notation only where the exponent is
    positive or the number is smaller than [1E-6]. *)
Definition str_dec (d : Decimal.dec) : string :=
  let int_ := str_digits (Decimal.dcoef d) in
  let len := Z.of_nat (String.length int_) in
  let sign := if Decimal.dneg d then "-" else EmptyString in
  let leftdigits := Decimal.dexp d + len in
  let dotplace :=
    if andb (Decimal.dexp d <=? 0) (-6 <? leftdigits) then leftdigits else 1 in
  let intpart :=
    if dotplace <=? 0 then "0"
    else if len <=? dotplace then int_ ++ zeros (Z.to_nat (dotplace - len))
    else substring 0 (Z.to_nat dotplace) int_ in
  let fracpart :=
    if dotplace <=? 0 then "." ++ zeros (Z.to_nat (- dotplace)) ++ int_
    else if len <=? dotplace then EmptyString
    else "." ++ substring (Z.to_nat dotplace) (Z.to_nat (len - dotplace)) int_ in
  let e := leftdigits - dotplace in
  let exp := if e =? 0 then EmptyString
             else "E" ++ (if e <? 0 then "-" else "+") ++ str_digits (Z.abs e) in
  sign ++ intpart ++ fracpart ++ exp.

(** ** types.py: values

    An argument value is one of the Python objects the parser produces
    ([int], [Decimal], [str], [Array], [Identifier], [Composed]), a Python
    list (built by the rescalers) or [None].  [Value] objects carry their
    [value] and their assignment symbol [_assign]. *)

Local Unset Elimination Schemes.
Inductive pyval : Type :=
| VNone
| VInt (z : Z)
| VDec (d : Decimal.dec)
| VStr (s : string)
| VList (l : list pyval)
| VArray (value : list pyval) (_assign : string)
| VIdentifier (value : string) (_assign : string)
| VComposed (value : string) (_assign : string).
Local Set Elimination Schemes.

Definition join (sep : string) (l : list string) : string :=
  match l with
  | [] => EmptyString
  | x :: r => fold_left (fun acc y => acc ++ sep ++ y) r x
  end.

(** [isinstance(v, Value)] and [isinstance(v, Symbolic)]. *)
Definition is_Value (v : pyval) : bool :=
  match v with
  | VArray _ _ | VIdentifier _ _ | VComposed _ _ => true
  | _ => false
  end.

Definition is_Symbolic (v : pyval) : bool :=
  match v with
  | VIdentifier _ _ | VComposed _ _ => true
  | _ => false
  end.

(** [Value.expr] / [Value.__str__] and [str(v)] for the other values.  The
    text of a list is the interpreter's [repr] of its items; for [Value]
    items that text holds a memory address, elided here. *)
Fixpoint py_repr (v : pyval) : string :=
  match v with
  | VNone => "None"
  | VInt z => str_int z
  | VDec d => "Decimal('" ++ str_dec d ++ "')"
  | VStr s => "'" ++ s ++ "'"
  | VList l => "[" ++ join ", " (map py_repr l) ++ "]"
  | VArray _ _ | VIdentifier _ _ | VComposed _ _ => "<Value>"
  end.

Fixpoint py_str (v : pyval) : string :=
  match v with
  | VNone => "None"
  | VInt z => str_int z
  | VDec d => str_dec d
  | VStr s => s
  | VList l => "[" ++ join ", " (map py_repr l) ++ "]"
  | VArray l _ => "{" ++ join "," (map py_str l) ++ "}"
  | VIdentifier s _ => s
  | VComposed s _ => s
  end.

Fixpoint sequence_res {A} (l : list (result A)) : result (list A) :=
  match l with
  | [] => Ok []
  | r :: rest =>
      match r with
      | Err e => Err e
      | Ok a => match sequence_res rest with
                | Ok t => Ok (a :: t)
                | Err e => Err e
                end
      end
  end.

(** [format_value]. *)
Fixpoint format_value (v : pyval) : result string :=
  match v with
  | VArray _ _ | VIdentifier _ _ | VComposed _ _ => Ok (py_str v)
  | VDec d => Ok (str_dec (Decimal.normalize d))
  | VStr s => Ok (dquote ++ s ++ dquote)
  | VInt z => Ok (str_int z)
  | VList l =>
      match sequence_res (map format_value l) with
      | Ok parts => Ok ("{" ++ join "," parts ++ "}")
      | Err e => Err e
      end
  | VNone => Err TypeError
  end.

(** [Value.safe_expr] and [format_safe]: a [Composed] gets braces. *)
Definition format_safe (v : pyval) : result string :=
  match v with
  | VComposed s _ => Ok ("(" ++ s ++ ")")
  | _ => format_value v
  end.

(** ** Attribute access on values

    [getattr(v, attr, default)].  A [Value] object has the instance
    attributes [value] and [_assign] set by [Value.__init__] and the
    properties [argument], [expr] and [safe_expr]; numbers, strings, lists
    and [None] have none of the attributes the program asks for. *)

Definition py_getattr (v : pyval) (attr : string) : option pyval :=
  match v with
  | VArray l a =>
      if String.eqb attr "value" then Some (VList l)
      else if String.eqb attr "_assign" then Some (VStr a)
      else if String.eqb attr "expr" then Some (VStr (py_str v))
      else if String.eqb attr "safe_expr" then Some (VStr (py_str v))
      else if String.eqb attr "argument" then Some (VStr (a ++ py_str v))
      else None
  | VIdentifier s a =>
      if String.eqb attr "value" then Some (VStr s)
      else if String.eqb attr "_assign" then Some (VStr a)
      else if String.eqb attr "expr" then Some (VStr s)
      else if String.eqb attr "safe_expr" then Some (VStr s)
      else if String.eqb attr "argument" then Some (VStr (a ++ s))
      else None
  | VComposed s a =>
      if String.eqb attr "value" then Some (VStr s)
      else if String.eqb attr "_assign" then Some (VStr a)
      else if String.eqb attr "expr" then Some (VStr s)
      else if String.eqb attr "safe_expr" then Some (VStr ("(" ++ s ++ ")"))
      else if String.eqb attr "argument" then Some (VStr (a ++ s))
      else None
  | _ => None
  end.

Definition getattr_default (v : pyval) (attr : string) (default : pyval) : pyval :=
  match py_getattr v attr with
  | Some x => x
  | None => default
  end.

(** The assignment symbol a value carries. *)
Definition assign_of (v : pyval) : option string :=
  match v with
  | VArray _ a | VIdentifier _ a | VComposed _ a => Some a
  | _ => None
  end.

Definition is_str (v : pyval) (s : string) : bool :=
  match v with
  | VStr t => String.eqb t s
  | _ => false
  end.

(** [Composed.create(a, x, b)]. *)
Definition Composed_create (a : pyval) (x : string) (b : pyval) : result pyval :=
  let delayed := orb (is_str (getattr_default a "assign" (VStr "=")) ":=")
                     (is_str (getattr_default b "assign" (VStr "=")) ":=") in
  (sa <-? format_safe a ;;
   sb <-? format_safe b ;;
   Ok (VComposed (join " " [sa; x; sb]) (if delayed then ":=" else "=")))%res.

(** ** Equality of values ([==])

    Numbers compare by numeric value across [int] and [Decimal];
    [Value.__eq__] compares the wrapped [value] with the other operand. *)

Definition num_eqb (a b : pyval) : option bool :=
  match a, b with
  | VInt x, VInt y => Some (x =? y)
  | VInt x, VDec d => Some (Decimal.eqb (Decimal.of_int x) d)
  | VDec d, VInt y => Some (Decimal.eqb d (Decimal.of_int y))
  | VDec d, VDec d' => Some (Decimal.eqb d d')
  | _, _ => None
  end.

Fixpoint py_eqb (a b : pyval) {struct a} : bool :=
  let list_eqb :=
    fix list_eqb (l : list pyval) (m : list pyval) {struct l} : bool :=
      match l, m with
      | [], [] => true
      | x :: l', y :: m' => andb (py_eqb x y) (list_eqb l' m')
      | _, _ => false
      end in
  let str_side (s : string) (o : pyval) : bool :=
    match o with
    | VStr t | VIdentifier t _ | VComposed t _ => String.eqb s t
    | _ => false
    end in
  let list_side (l : list pyval) (o : pyval) : bool :=
    match o with
    | VList m | VArray m _ => list_eqb l m
    | _ => false
    end in
  match a with
  | VNone => match b with VNone => true | _ => false end
  | VInt _ | VDec _ =>
      match num_eqb a b with Some r => r | None => false end
  | VStr s | VIdentifier s _ | VComposed s _ => str_side s b
  | VList l | VArray l _ => list_side l b
  end.

(** ** Arithmetic

    The four operators of [Symbolic.__binop] / [__rbinop]. *)

Inductive binop : Type := Add | Sub | Mul | Div.

Definition op_symbol (o : binop) : string :=
  match o with
  | Add => "+"
  | Sub => "-"
  | Mul => "*"
  | Div => "/"
  end.

(** The interpreter's arithmetic on operands none of which is a [Symbolic],
    the constructor [Decimal(x)] and [int(ceil(abs(x)))].  The transform is
    written against this interface, as the source is against duck-typed
    numbers. *)
Class PyArith : Type := {
  arith : binop -> pyval -> pyval -> result pyval;
  to_Decimal : pyval -> result pyval;
  ceil_abs : pyval -> result Z
}.

(** [a <op> b]: a [Symbolic] operand on either side builds a [Composed]
    ([__binop] on the left, the reflected [__rbinop] on the right, both
    call [Composed.create(a, op, b)] in source order); otherwise the
    interpreter's arithmetic applies. *)
Definition py_binop `{PyArith} (o : binop) (a b : pyval) : result pyval :=
  if orb (is_Symbolic a) (is_Symbolic b)
  then Composed_create a (op_symbol o) b
  else arith o a b.

(** *** Arithmetic of [int] and [Decimal]

    An [int] operand of a [Decimal] operation is converted exactly.  True
    division of two [int]s is a [float], and [Decimal(text)] parses a
    numeral; both lie outside the number model. *)

Definition dec_binop (o : binop) (x y : Decimal.dec) : result pyval :=
  match o with
  | Add => Ok (VDec (Decimal.add x y))
  | Sub => Ok (VDec (Decimal.sub x y))
  | Mul => Ok (VDec (Decimal.mul x y))
  | Div => match Decimal.div x y with
           | Ok d => Ok (VDec d)
           | Err e => Err e
           end
  end.

Definition python_arith (o : binop) (a b : pyval) : result pyval :=
  match a, b with
  | VInt x, VInt y =>
      match o with
      | Add => Ok (VInt (x + y))
      | Sub => Ok (VInt (x - y))
      | Mul => Ok (VInt (x * y))
      | Div => if y =? 0 then Err ZeroDivisionError else Err Unmodelled
      end
  | VInt x, VDec d => dec_binop o (Decimal.of_int x) d
  | VDec d, VInt y => dec_binop o d (Decimal.of_int y)
  | VDec d, VDec d' => dec_binop o d d'
  | VStr _, _ | _, VStr _ | VList _, _ | _, VList _ => Err Unmodelled
  | _, _ => Err TypeError
  end.

Definition python_to_Decimal (v : pyval) : result pyval :=
  match v with
  | VInt z => Ok (VDec (Decimal.of_int z))
  | VDec d => Ok (VDec d)
  | VStr _ => Err Unmodelled
  | _ => Err TypeError
  end.

Definition python_ceil_abs (v : pyval) : result Z :=
  match v with
  | VInt z => Ok (Z.abs z)
  | VDec d => Ok (Decimal.ceil (Decimal.abs d))
  | _ => Err TypeError
  end.

#[export] Instance python : PyArith := {
  arith := python_arith;
  to_Decimal := python_to_Decimal;
  ceil_abs := python_ceil_abs
}.

(** ** types.py: [Element]

    Elements are mutable objects: the store is the list of all elements ever
    constructed, a location is an index into it, and [_base] holds a
    location.  Every constructor call in the program passes a dictionary
    nobody else holds ([args.copy()], [all_args], a literal), so the
    dictionary is kept inside the element: its items and its class. *)

Definition loc := nat.

(** What [_base] can hold: an element, or the [Line] object that
    [Sequence.detect] passes when a LINE names another LINE. *)
Inductive ref : Type :=
| RElement (l : loc)
| RLine (name : option string) (elems : list string).

Record Element : Type := Build_Element {
  el_name : option string;
  el_type : option string;
  el_args : list (string * pyval);
  el_base : option ref;
  el_class : dict_class
}.

(** An element over an [odicti], as [Element.parse] builds it. *)
Abbreviation mkElement name type args base :=
  (Build_Element name type args base Odicti).

Definition heap := list Element.

Inductive outcome (A : Type) : Type :=
| Ret (a : A) (h : heap)
| Raise (e : exn) (h : heap).
Arguments Ret {A} a h.
Arguments Raise {A} e h.

(** Statements: a computation on the store that returns or raises. *)
Definition M (A : Type) : Type := heap -> outcome A.

Definition ret {A} (a : A) : M A := fun h => Ret a h.

Definition raise {A} (e : exn) : M A := fun h => Raise e h.

Definition bind {A B} (m : M A) (k : A -> M B) : M B :=
  fun h => match m h with
           | Ret a h' => k a h'
           | Raise e h' => Raise e h'
           end.

Definition lift {A} (r : result A) : M A :=
  match r with
  | Ok a => ret a
  | Err e => raise e
  end.

(** An expression that only reads the store. *)
Definition reading {A} (f : heap -> result A) : M A :=
  fun h => lift (f h) h.

Declare Scope py_scope.
Delimit Scope py_scope with py.
Notation "x <- m ;; k" := (bind m (fun x => k))
  (at level 61, m at next level, right associativity) : py_scope.
Notation "m ;;; k" := (bind m (fun _ => k))
  (at level 61, right associativity) : py_scope.

Definition alloc (e : Element) : M loc :=
  fun h => Ret (List.length h) (h ++ [e])%list.

Definition deref (h : heap) (l : loc) : result Element :=
  match nth_error h l with
  | Some e => Ok e
  | None => Err ReferenceError
  end.

Fixpoint update_nth (h : heap) (l : loc) (e : Element) : heap :=
  match h, l with
  | [], _ => []
  | _ :: r, O => e :: r
  | x :: r, S n => x :: update_nth r n e
  end.

(** Apply [f] to the element at [l] in place. *)
Definition modify (l : loc) (f : Element -> Element) : M unit :=
  fun h => match nth_error h l with
           | Some e => Ret tt (update_nth h l (f e))
           | None => Raise ReferenceError h
           end.

(** *** Element methods that read the store

    The recursive ones follow [_base]; the recursion depth available is one
    more than the number of elements, which every chain without a cycle
    fits in, and a cyclic chain ends in [RecursionError]. *)

(** [Element.base_type]. *)
Fixpoint base_type_fuel (fuel : nat) (h : heap) (l : loc) : result (option string) :=
  match fuel with
  | O => Err RecursionError
  | S n =>
      match nth_error h l with
      | None => Err ReferenceError
      | Some e =>
          match el_base e with
          | Some (RElement b) => base_type_fuel n h b
          | Some (RLine _ _) => Err AttributeError
          | None => Ok (el_type e)
          end
      end
  end.

Definition base_type (h : heap) (l : loc) : result (option string) :=
  base_type_fuel (S (List.length h)) h l.

(** [Element.all_args]: a fresh dictionary, the root's arguments first. *)
Fixpoint all_args_fuel (fuel : nat) (h : heap) (l : loc) : result (odicti pyval) :=
  match fuel with
  | O => Err RecursionError
  | S n =>
      match nth_error h l with
      | None => Err ReferenceError
      | Some e =>
          match el_base e with
          | Some (RElement b) =>
              match all_args_fuel n h b with
              | Ok args => Ok (od_update args (el_args e))
              | Err x => Err x
              end
          | Some (RLine _ _) => Err AttributeError
          | None => Ok (od_update [] (el_args e))
          end
      end
  end.

Definition all_args (h : heap) (l : loc) : result (odicti pyval) :=
  all_args_fuel (S (List.length h)) h l.

(** [Element.__contains__]. *)
Fixpoint contains_fuel (fuel : nat) (h : heap) (l : loc) (key : string) : result bool :=
  match fuel with
  | O => Err RecursionError
  | S n =>
      match nth_error h l with
      | None => Err ReferenceError
      | Some e =>
          if dict_mem (el_class e) (el_args e) key then Ok true
          else match el_base e with
               | Some (RElement b) => contains_fuel n h b key
               | Some (RLine _ _) => Err TypeError
               | None => Ok false
               end
      end
  end.

Definition contains (h : heap) (l : loc) (key : string) : result bool :=
  contains_fuel (S (List.length h)) h l key.

(** [Element.__getitem__]. *)
Fixpoint getitem_fuel (fuel : nat) (h : heap) (l : loc) (key : string) : result pyval :=
  match fuel with
  | O => Err RecursionError
  | S n =>
      match nth_error h l with
      | None => Err ReferenceError
      | Some e =>
          match dict_get (el_class e) (el_args e) key with
          | Some v => Ok v
          | None =>
              match el_base e with
              | Some (RElement b) => getitem_fuel n h b key
              | Some (RLine _ _) => Err TypeError
              | None => Err KeyError
              end
          end
      end
  end.

Definition getitem (h : heap) (l : loc) (key : string) : result pyval :=
  getitem_fuel (S (List.length h)) h l key.

(** [Element.get]. *)
Definition get (h : heap) (l : loc) (key : string) (default : pyval) : result pyval :=
  match getitem h l key with
  | Err KeyError => Ok default
  | r => r
  end.

(** The class under which two dictionaries are compared by [==]: two
    plain [dict]s compare their keys exactly; when either side is an
    [odicti], a subclass of [dict], Python runs its [__eq__]. *)
Definition eq_class (c c' : dict_class) : dict_class :=
  match c, c' with
  | Dict, Dict => Dict
  | _, _ => Odicti
  end.

(** [Element.__eq__]. *)
Definition Element_eq (self other : Element) : bool :=
  andb (stri_eq (el_name self) (el_name other))
       (andb (stri_eq (el_type self) (el_type other))
             (dict_eqb (eq_class (el_class self) (el_class other)) py_eqb
                       (el_args self) (el_args other))).

(** *** Element methods that construct or mutate *)

(** [Element(name, type, args, base)]: [args] is a dictionary of the class
    [class] with the items [args]. *)
Definition new_Element (name type : option string) (class : dict_class)
           (args : list (string * pyval)) (base : option ref) : M loc :=
  alloc (Build_Element name type args base class).

(** [Element.copy]: [self.args.copy()] is a dictionary of the same class. *)
Definition copy (l : loc) : M loc :=
  (e <- reading (fun h => deref h l) ;;
   new_Element (el_name e) (el_type e) (el_class e) (el_args e) (el_base e))%py.

(** The element whose dictionary has come to hold the items [args]. *)
Abbreviation set_args e args :=
  (Build_Element (el_name e) (el_type e) args (el_base e) (el_class e)).

(** [Element.__setitem__]. *)
Definition setitem (l : loc) (key : string) (val : pyval) : M unit :=
  modify l (fun e => set_args e (dict_set (el_class e) (el_args e) key val)).

(** [Element.__delitem__]. *)
Definition delitem (l : loc) (key : string) : M unit :=
  (e <- reading (fun h => deref h l) ;;
   if dict_mem (el_class e) (el_args e) key
   then modify l (fun e => set_args e (dict_del (el_class e) (el_args e) key))
   else raise KeyError)%py.

(** [elem.name = name]. *)
Definition set_name (l : loc) (name : option string) : M unit :=
  modify l (fun e => Build_Element name (el_type e) (el_args e) (el_base e)
                                   (el_class e)).

(** [elem._base = base]. *)
Definition set_base (l : loc) (base : option ref) : M unit :=
  modify l (fun e => Build_Element (el_name e) (el_type e) (el_args e) base
                                   (el_class e)).

(** [Element.pop(key, *default)]: the key leaves the element's own
    arguments; a key only the base has is read there and stays. *)
Definition pop (l : loc) (key : string) (default : option pyval) : M pyval :=
  (e <- reading (fun h => deref h l) ;;
   match dict_get (el_class e) (el_args e) key with
   | Some v =>
       modify l (fun e => set_args e (dict_del (el_class e) (el_args e) key)) ;;;
       ret v
   | None =>
       fun h =>
         let r := match el_base e with
                  | Some (RElement b) => getitem h b key
                  | Some (RLine _ _) | None => Err TypeError
                  end in
         match r with
         | Ok v => Ret v h
         | Err KeyError | Err TypeError =>
             match default with
             | Some d => Ret d h
             | None => lift r h
             end
         | Err x => Raise x h
         end
   end)%py.

(** ** transform.py: rescaling *)

Section Transform.
Context `{PyArith}.

(** [rescale_thick(elem, ratio)]. *)
Definition rescale_thick (elem : loc) (ratio : pyval) : M loc :=
  if py_eqb ratio (VInt 1) then ret elem
  else
    (scaled <- copy elem ;;
     l <- reading (fun h => getitem h elem "L") ;;
     v <- lift (py_binop Mul l ratio) ;;
     setitem scaled "L" v ;;;
     bt <- reading (fun h => base_type h scaled) ;;
     (if stri_is bt "sbend"
      then (a <- reading (fun h => getitem h scaled "angle") ;;
            v <- lift (py_binop Mul a ratio) ;;
            setitem scaled "angle" v)
      else ret tt) ;;;
     ret scaled)%py.

(** [elem[k1] * elem[k2] * ratio]. *)
Definition strength (elem : loc) (k1 k2 : string) (ratio : pyval) : M pyval :=
  (a <- reading (fun h => getitem h elem k1) ;;
   b <- reading (fun h => getitem h elem k2) ;;
   ab <- lift (py_binop Mul a b) ;;
   lift (py_binop Mul ab ratio))%py.

(** [rescale_makethin(elem, ratio)]. *)
Definition rescale_makethin (elem : loc) (ratio : pyval) : M loc :=
  (bt <- reading (fun h => base_type h elem) ;;
   if negb (orb (stri_is bt "sbend")
                (orb (stri_is bt "quadrupole") (stri_is bt "solenoid")))
   then ret elem
   else if stri_is bt "solenoid" then
     elem <- copy elem ;;
     v <- strength elem "KS" "L" ratio ;;
     setitem elem "ksi" v ;;;
     l <- reading (fun h => getitem h elem "L") ;;
     v <- lift (py_binop Mul l ratio) ;;
     setitem elem "lrad" v ;;;
     setitem elem "L" (VInt 0) ;;;
     ret elem
   else
     e <- reading (fun h => deref h elem) ;;
     args <- reading (fun h => all_args h elem) ;;
     elem <- new_Element (el_name e) (Some "multipole") Odicti args None ;;
     (if stri_is bt "sbend" then
        a <- pop elem "angle" None ;;
        v <- lift (py_binop Mul a ratio) ;;
        setitem elem "KNL" (VList [v]) ;;;
        _ <- pop elem "HGAP" (Some VNone) ;;
        ret tt
      else if stri_is bt "quadrupole" then
        has1 <- reading (fun h => contains h elem "K1") ;;
        (if has1 : bool then
           v <- strength elem "K1" "L" ratio ;;
           setitem elem "KNL" (VList [VInt 0; v]) ;;;
           delitem elem "K1"
         else ret tt) ;;;
        has1s <- reading (fun h => contains h elem "K1S") ;;
        (if has1s : bool then
           v <- strength elem "K1S" "L" ratio ;;
           setitem elem "KSL" (VList [VInt 0; v]) ;;;
           delitem elem "K1S"
         else ret tt)
      else ret tt) ;;;
     hasL <- reading (fun h => contains h elem "L") ;;
     (if hasL : bool then
        l <- pop elem "L" None ;;
        v <- lift (py_binop Mul l ratio) ;;
        setitem elem "lrad" v
      else ret tt) ;;;
     ret elem)%py.

End Transform.

(** ** transform.py: [ElementTransform]

    A selector is one record of the slicing configuration: every key is
    optional. *)

Record selector : Type := mkSelector {
  sel_name : option string;
  sel_type : option string;
  sel_use_at : option bool;
  sel_density : option pyval;
  sel_slice : option Z;
  sel_makethin : option bool;
  sel_template : option bool;
  sel_style : option string
}.

Definition is_some {A} (o : option A) : bool :=
  match o with Some _ => true | None => false end.

(** [key in selector]. *)
Definition sel_mem (s : selector) (key : string) : bool :=
  if String.eqb key "name" then is_some (sel_name s)
  else if String.eqb key "type" then is_some (sel_type s)
  else if String.eqb key "use_at" then is_some (sel_use_at s)
  else if String.eqb key "density" then is_some (sel_density s)
  else if String.eqb key "slice" then is_some (sel_slice s)
  else if String.eqb key "makethin" then is_some (sel_makethin s)
  else if String.eqb key "template" then is_some (sel_template s)
  else if String.eqb key "style" then is_some (sel_style s)
  else false.

(** [exclusive(mapping, *keys)]: at most one of the keys is in the
    mapping. *)
Definition exclusive (mapping : selector) (keys : list string) : bool :=
  (List.length (filter (sel_mem mapping) keys) <=? 1)%nat.

(** [selector.get(key, default)]. *)
Definition get_or {A} (o : option A) (default : A) : A :=
  match o with Some a => a | None => default end.

(** The closures [ElementTransform.__init__] stores, as data. *)
Inductive matcher : Type :=
| MatchName (name : string)
| MatchType (type : string)
| MatchAll.

Inductive slice_num_rule : Type :=
| ByDensity (density : pyval)
| FixedNum (slice_num : Z).

Inductive style : Type := Uniform | Loop.

Record ElementTransform : Type := mkElementTransform {
  t_match : matcher;
  t_use_at : bool;
  t_slice_num : slice_num_rule;
  t_makethin : bool;
  t_template : bool;
  t_style : style
}.

(** [ElementTransform.__init__(selector)].  The two calls of [exclusive]
    are expression statements: their value is dropped. *)
Definition ElementTransform_init (s : selector) : result ElementTransform :=
  let _ := exclusive s ["name"; "type"] in
  let match_ :=
    if sel_mem s "name" then MatchName (get_or (sel_name s) EmptyString)
    else if sel_mem s "type" then MatchType (get_or (sel_type s) EmptyString)
    else MatchAll in
  let use_at := get_or (sel_use_at s) true in
  let _ := exclusive s ["density"; "slice"] in
  let slice_num :=
    if sel_mem s "density" then ByDensity (get_or (sel_density s) VNone)
    else FixedNum (get_or (sel_slice s) 1) in
  let makethin := get_or (sel_makethin s) false in
  let template := get_or (sel_template s) false in
  let style_ := get_or (sel_style s) "uniform" in
  if String.eqb style_ "uniform"
  then Ok (mkElementTransform match_ use_at slice_num makethin template Uniform)
  else if String.eqb style_ "loop"
  then Ok (mkElementTransform match_ use_at slice_num makethin template Loop)
  else Err ValueError.

(** ** Nodes of a document *)

Inductive node : Type :=
| NElement (l : loc)
| NText (s : string)
| NLine (name : option string) (elems : list string).

Record Sequence : Type := mkSequence {
  seq_elements : list node;
  seq_preface : list node
}.

Inductive docnode : Type :=
| DNode (n : node)
| DSequence (s : Sequence).

(** A suspended generator of [uniform_slice_distribution] or
    [uniform_slice_loop]: the arguments of the call. *)
Record generator : Type := mkGenerator {
  g_style : style;
  g_elem : loc;
  g_offset : pyval;
  g_refer : pyval;
  g_slice_num : Z;
  g_slice_len : pyval
}.

Section Slicing.
Context `{PyArith}.

(** [t.match(elem)]. *)
Definition match_elem (t : ElementTransform) (h : heap) (elem : loc) : result bool :=
  match t_match t with
  | MatchName name =>
      (e <-? deref h elem ;; Ok (stri_is (el_name e) name))%res
  | MatchType type =>
      (bt <-? base_type h elem ;; Ok (stri_is bt type))%res
  | MatchAll => Ok true
  end.

(** [t._get_position(elem, elem_len, offset, refer)]. *)
Definition get_position (t : ElementTransform) (h : heap) (elem : loc)
           (elem_len offset refer : pyval) : result pyval :=
  if t_use_at t then
    match (at_ <-? getitem h elem "at" ;;
           back <-? py_binop Mul elem_len refer ;;
           py_binop Sub at_ back)%res with
    | Err KeyError => Ok offset
    | r => r
    end
  else Ok offset.

(** [t._get_slice_num(L)]. *)
Definition get_slice_num (t : ElementTransform) (L : pyval) : result Z :=
  match t_slice_num t with
  | ByDensity density => (x <-? py_binop Mul L density ;; ceil_abs x)%res
  | FixedNum slice_num => Ok slice_num
  end.

Definition rescale (t : ElementTransform) : loc -> pyval -> M loc :=
  if t_makethin t then rescale_makethin else rescale_thick.

Definition maketempl (t : ElementTransform) (elem : loc) : list loc :=
  if t_template t then [elem] else [].

Definition stripelem (t : ElementTransform) (elem : loc) : M loc :=
  if t_template t
  then (e <- reading (fun h => deref h elem) ;;
        new_Element None (el_name e) Dict [] (Some (RElement elem)))%py
  else ret elem.

(** [ElementTransform.slice(elem, offset, refer)]: the templates, the
    generator of the slices (not yet run) and the exit position. *)
Definition slice (t : ElementTransform) (elem : loc) (offset refer : pyval)
  : M (list loc * generator * pyval) :=
  (elem_len <- reading (fun h => get h elem "L" (VInt 0)) ;;
   offset <- reading (fun h => get_position t h elem elem_len offset refer) ;;
   n <- lift (get_slice_num t elem_len) ;;
   let slice_num := if n =? 0 then 1 else n in
   len_d <- lift (to_Decimal elem_len) ;;
   slice_len <- lift (py_binop Div len_d (VInt slice_num)) ;;
   num_d <- lift (to_Decimal (VInt slice_num)) ;;
   ratio <- lift (py_binop Div (VInt 1) num_d) ;;
   scaled <- rescale t elem ratio ;;
   let templ := maketempl t scaled in
   elem <- stripelem t scaled ;;
   let elems := mkGenerator (t_style t) elem offset refer slice_num slice_len in
   exit_ <- lift (py_binop Add offset elem_len) ;;
   ret (templ, elems, exit_))%py.

(** [offset + (idx + refer) * slice_len]. *)
Definition slice_at (offset idx refer slice_len : pyval) : result pyval :=
  (a <-? py_binop Add idx refer ;;
   b <-? py_binop Mul a slice_len ;;
   py_binop Add offset b)%res.

(** The body of [uniform_slice_distribution], for [n] more indices from
    [slice_idx] on. *)
Fixpoint uniform_slices (n : nat) (slice_idx : Z) (g : generator) : M (list node) :=
  match n with
  | O => ret []
  | S k =>
      (slice <- copy (g_elem g) ;;
       at_ <- lift (slice_at (g_offset g) (VInt slice_idx) (g_refer g) (g_slice_len g)) ;;
       setitem slice "at" at_ ;;;
       s <- reading (fun h => deref h slice) ;;
       (if andb (truthy_str (el_name s)) (1 <? g_slice_num g)
        then (e <- reading (fun h => deref h (g_elem g)) ;;
              match el_name e with
              | Some name => set_name slice (Some (name ++ ".." ++ str_int slice_idx))
              | None => raise TypeError
              end)
        else ret tt) ;;;
       rest <- uniform_slices k (slice_idx + 1) g ;;
       ret (NElement slice :: rest))%py
  end.

Definition uniform_slice_distribution (g : generator) : M (list node) :=
  uniform_slices (Z.to_nat (g_slice_num g)) 0 g.

(** [uniform_slice_loop]. *)
Definition uniform_slice_loop (g : generator) : M (list node) :=
  (slice <- copy (g_elem g) ;;
   set_name slice None ;;;
   at_ <- lift (slice_at (g_offset g) (VIdentifier "i" "=") (g_refer g) (g_slice_len g)) ;;
   setitem slice "at" at_ ;;;
   ret [NText "i = 0;";
        NText ("while (i < " ++ str_int (g_slice_num g) ++ ") {");
        NElement slice;
        NText "i = i + 1;";
        NText "}"])%py.

(** Running a generator to its end, as [elements += elem] does. *)
Definition consume (g : generator) : M (list node) :=
  match g_style g with
  | Uniform => uniform_slice_distribution g
  | Loop => uniform_slice_loop g
  end.

End Slicing.

(** ** transform.py: [SequenceTransform] *)

(** [SequenceTransform._offsets]: [Decimal(1)/2] is [Decimal('0.5')]. *)
Definition one_half : pyval := VDec (Decimal.mkDec false 5 (-1)).

Definition offsets : odicti pyval :=
  [("entry", VInt 0); ("centre", one_half); ("exit", VInt 1)].

Definition offsets_getitem (key : string) : result pyval :=
  match od_get offsets key with
  | Some v => Ok v
  | None => Err KeyError
  end.

(** [SequenceTransform.__init__(slicing)]: the rules of the configuration
    followed by the catch-all rule of the empty selector. *)
Definition empty_selector : selector :=
  mkSelector None None None None None None None None.

Definition SequenceTransform_init (slicing : list selector)
  : result (list ElementTransform) :=
  (ts <-? sequence_res (map ElementTransform_init slicing) ;;
   last_ <-? ElementTransform_init empty_selector ;;
   Ok (ts ++ [last_])%list)%res.

(** [seq.head], [seq.body], [seq.tail]. *)
Definition seq_head (s : Sequence) : result node :=
  match seq_elements s with
  | x :: _ => Ok x
  | [] => Err IndexError
  end.

Definition seq_body (s : Sequence) : list node :=
  removelast (tl (seq_elements s)).

Definition seq_tail (s : Sequence) : result node :=
  match seq_elements s with
  | [] => Err IndexError
  | x :: r => Ok (last r x)
  end.

(** [defs.get(elem.type)]. *)
Definition defs_get (defs : odicti loc) (type : option string) : option ref :=
  match type with
  | Some t => option_map RElement (od_get defs t)
  | None => None
  end.

(** [self._offsets[str(head.get('refer', 'centre'))]]. *)
Definition refer_of (h : heap) (head : loc) : result pyval :=
  (r <-? get h head "refer" (VStr "centre") ;; offsets_getitem (py_str r))%res.

Section Sequences.
Context `{PyArith}.

(** The first rule that matches slices the element. *)
Fixpoint first_match (ts : list ElementTransform) (elem : loc)
         (offset refer : pyval) : M (list loc * generator * pyval) :=
  match ts with
  | [] => raise TypeError
  | t :: rest =>
      (m <- reading (fun h => match_elem t h elem) ;;
       if m : bool then slice t elem offset refer
       else first_match rest elem offset refer)%py
  end.

(** The closure [transform(elem, offset)] of [__call__]. *)
Definition transform (ts : list ElementTransform) (defs : odicti loc)
           (refer : pyval) (elem : loc) (offset : pyval)
  : M (list loc * generator * pyval) :=
  (e <- reading (fun h => deref h elem) ;;
   (if truthy_str (el_type e) then set_base elem (defs_get defs (el_type e))
    else ret tt) ;;;
   first_match ts elem offset refer)%py.

(** The loop over the body: templates, elements and position so far. *)
Fixpoint transform_body (ts : list ElementTransform) (defs : odicti loc)
         (refer : pyval) (body : list node)
         (templates : list loc) (elements : list node) (position : pyval)
  : M (list loc * list node * pyval) :=
  match body with
  | [] => ret (templates, elements, position)
  | NElement l :: rest =>
      (e <- reading (fun h => deref h l) ;;
       if truthy_str (el_type e) then
         r <- transform ts defs refer l position ;;
         let '(templ, gen, position') := r in
         elem <- consume gen ;;
         transform_body ts defs refer rest
                        (templates ++ templ)%list (elements ++ elem)%list position'
       else
         transform_body ts defs refer rest
                        templates (elements ++ [NElement l])%list position)%py
  | NText s :: rest =>
      transform_body ts defs refer rest
                     templates (elements ++ [NText s])%list position
  | NLine _ _ :: _ => raise AttributeError
  end.

(** [SequenceTransform.__call__(node, defs)]; the updated [defs] is
    returned with the node. *)
Definition SequenceTransform_call (ts : list ElementTransform)
           (nd : docnode) (defs : odicti loc) : M (docnode * odicti loc) :=
  match nd with
  | DNode (NElement l) =>
      (e <- reading (fun h => deref h l) ;;
       let defs' := od_set defs (str_opt (el_name e)) l in
       set_base l (defs_get defs' (el_type e)) ;;;
       ret (nd, defs'))%py
  | DNode _ => ret (nd, defs)
  | DSequence s =>
      (h0 <- lift (seq_head s) ;;
       match h0 with
       | NElement hd =>
           head <- copy hd ;;
           let body := seq_body s in
           tail <- lift (seq_tail s) ;;
           refer <- reading (fun h => refer_of h head) ;;
           out <- transform_body ts defs refer body [] [] (VInt 0) ;;
           let '(templates, elements, position) := out in
           setitem head "L" position ;;;
           e <- reading (fun h => deref h head) ;;
           let preface :=
             match templates with
             | [] => []
             | _ => (NText ("! Template elements for " ++ str_opt (el_name e) ++ ":")
                       :: map NElement templates ++ [NText EmptyString])%list
             end in
           ret (DSequence (mkSequence (NElement head :: elements ++ [tail])%list preface),
                defs)
       | _ => raise AttributeError
       end)%py
  end.

End Sequences.

(** ** types.py: [Sequence.detect] *)

Definition node_of_ref (r : ref) : node :=
  match r with
  | RElement l => NElement l
  | RLine name elems => NLine name elems
  end.

(** [el.name] and [el.type] of a node: a [Text] has neither, the type of a
    [Line] is the plain string [line]. *)
Definition node_name (h : heap) (n : node) : result (option string) :=
  match n with
  | NElement l => (e <-? deref h l ;; Ok (el_name e))%res
  | NText _ => Ok None
  | NLine name _ => Ok name
  end.

Definition node_type (h : heap) (n : node) : result (option string) :=
  match n with
  | NElement l => (e <-? deref h l ;; Ok (el_type e))%res
  | NText _ => Ok None
  | NLine _ _ => Ok (Some "line")
  end.

(** [dicti((str(el.name), el) for el in elements if el.name)]. *)
Fixpoint build_by_name (h : heap) (elements : list node) (acc : odicti ref)
  : result (odicti ref) :=
  match elements with
  | [] => Ok acc
  | el :: rest =>
      (name <-? node_name h el ;;
       let acc' :=
         match el with
         | NElement l => if truthy_str name then od_set acc (str_opt name) (RElement l) else acc
         | NLine n e => if truthy_str name then od_set acc (str_opt name) (RLine n e) else acc
         | NText _ => acc
         end in
       build_by_name h rest acc')%res
  end.

Definition by_name_getitem (by_name : odicti ref) (key : string) : result ref :=
  match od_get by_name key with
  | Some r => Ok r
  | None => Err KeyError
  end.

(** The members of an expanded LINE, not inline: one new element per name,
    whose base is the named node. *)
Fixpoint line_members (by_name : odicti ref) (elems : list string) : M (list node) :=
  match elems with
  | [] => ret []
  | el_name :: rest =>
      (b <- lift (by_name_getitem by_name el_name) ;;
       l <- new_Element None (Some el_name) Dict [] (Some b) ;;
       r <- line_members by_name rest ;;
       ret (NElement l :: r))%py
  end.

(** The members of an expanded LINE, inline: the named nodes themselves. *)
Definition line_members_inline (by_name : odicti ref) (elems : list string)
  : result (list node) :=
  sequence_res
    (map (fun el_name => (b <-? by_name_getitem by_name el_name ;;
                          Ok (node_of_ref b))%res) elems).

(** [elem.args.setdefault('refer', 'entry')]. *)
Definition setdefault_refer (l : loc) : M unit :=
  modify l (fun e => set_args e (dict_setdefault (el_class e) (el_args e)
                                                 "refer" (VStr "entry"))).

(** The two nested loops of [detect] draw from one iterator [it]; [seq] is
    the group being collected by the inner loop, if any.  When the iterator
    runs dry inside a group, the assertion after the inner loop fails: no
    collected element had type [endsequence]. *)
Fixpoint detect_scan (inline : bool) (by_name : odicti ref)
         (it : list node) (seq : option (list node)) : M (list docnode) :=
  match it with
  | [] =>
      match seq with
      | None => ret []
      | Some _ => raise AssertionError
      end
  | elem :: rest =>
      (ty <- reading (fun h => node_type h elem) ;;
       match seq with
       | Some group =>
           if stri_is ty "endsequence"
           then (out <- detect_scan inline by_name rest None ;;
                 ret (DSequence (mkSequence (group ++ [elem])%list []) :: out))
           else detect_scan inline by_name rest (Some (group ++ [elem])%list)
       | None =>
           if stri_is ty "sequence" then
             match elem with
             | NElement l =>
                 setdefault_refer l ;;;
                 detect_scan inline by_name rest (Some [elem])
             | _ => raise AttributeError
             end
           else if stri_is ty "line" then
             name <- reading (fun h => node_name h elem) ;;
             head <- new_Element name (Some "sequence") Dict
                                 [("refer", VStr "entry")] None ;;
             elems <- (match elem with
                       | NLine _ elems => ret elems
                       | _ => raise AttributeError
                       end) ;;
             members <- (if inline then lift (line_members_inline by_name elems)
                         else line_members by_name elems) ;;
             tail <- new_Element None (Some "endsequence") Dict [] None ;;
             out <- detect_scan inline by_name rest None ;;
             ret (DSequence (mkSequence (NElement head :: members ++ [NElement tail])%list [])
                    :: out)
           else
             out <- detect_scan inline by_name rest None ;;
             ret (DNode elem :: out)
       end)%py
  end.

(** [Sequence.detect(elements, inline)], run to its end. *)
Definition detect (inline : bool) (elements : list node) : M (list docnode) :=
  (by_name <- reading (fun h => build_by_name h elements []) ;;
   detect_scan inline by_name elements None)%py.

(** ** document.py: [Document.transform]

    [Document(node_transform(node, defs) for node in self._nodes)]: the
    constructor runs the generator to its end, so the nodes are
    transformed in order, all with the one table [defs], empty at first. *)

Section Documents.
Context `{PyArith}.

Fixpoint transform_nodes (ts : list ElementTransform) (nodes : list docnode)
         (defs : odicti loc) : M (list docnode) :=
  match nodes with
  | [] => ret []
  | nd :: rest =>
      (r <- SequenceTransform_call ts nd defs ;;
       out <- transform_nodes ts rest (snd r) ;;
       ret (fst r :: out))%py
  end.

Definition Document_transform (ts : list ElementTransform) (nodes : list docnode)
  : M (list docnode) :=
  transform_nodes ts nodes [].

End Documents.

(** * Inputs and vocabulary of the properties *)

(** A non-negative decimal literal [coef]E[exp]. *)
Definition dec_lit (coef exp : Z) : pyval := VDec (Decimal.mkDec false coef exp).

(** Selectors that specify an axis twice. *)
Definition both_name_and_type : selector :=
  mkSelector (Some "q") (Some "quadrupole") None None None None None None.

Definition both_density_and_slice : selector :=
  mkSelector None None None (Some (VInt 2)) (Some 3) None None None.

(** The quadrupole of [test_quadrupole]: [K1=3, L=2.5]. *)
Definition quad_heap : heap :=
  [mkElement None (Some "QUADRUPOLE") [("K1", VInt 3); ("L", dec_lit 25 (-1))] None].

(** Define-before-use: the base of an element was constructed before it. *)
Definition wf_heap (h : heap) : Prop :=
  forall l e b, nth_error h l = Some e -> el_base e = Some (RElement b) -> (b < l)%nat.

(** The prototype chain of [test_deep_lookup]: base, mid, leaf. *)
Definition chain_heap : heap :=
  [mkElement None None [("a", VStr "a0"); ("b", VStr "b0"); ("c", VStr "c0")] None;
   mkElement None None [("a", VStr "a1"); ("d", VStr "d1")] (Some (RElement 0%nat));
   mkElement None None [("a", VStr "a2")] (Some (RElement 1%nat))].

(** Keys of a dictionary are unique up to case. *)
Definition unique_keys {V} (d : odicti V) : Prop :=
  NoDup (map (fun kv => lower (fst kv)) d).

(** Keys of a dictionary of the class [c] are unique, as that class
    compares them. *)
Definition dict_unique {V} (c : dict_class) (d : list (string * V)) : Prop :=
  NoDup (map (fun kv => fold_key c (fst kv)) d).

(** Two keys are the same to a dictionary of the class [c]. *)
Definition same_key_in (c : dict_class) (k k' : string) : bool :=
  String.eqb (fold_key c k) (fold_key c k').

(** The argument [key] an element has of its own. *)
Abbreviation own e key := (dict_get (el_class e) (el_args e) key).

(** What two dictionaries hold under one key agrees: both lack the key,
    or both hold it with equal values. *)
Definition args_agree (a b : option pyval) : Prop :=
  match a, b with
  | Some v, Some w => py_eqb v w = true
  | None, None => True
  | _, _ => False
  end.

(** The own arguments of two elements are the same map, as [==] reads
    the two dictionaries. *)
Definition same_args (x y : Element) : Prop :=
  forall key,
    args_agree (dict_get (eq_class (el_class x) (el_class y)) (el_args x) key)
               (dict_get (eq_class (el_class x) (el_class y)) (el_args y) key).

(** The element with another base. *)
Definition with_base (e : Element) (base : option ref) : Element :=
  Build_Element (el_name e) (el_type e) (el_args e) base (el_class e).

(** Two quadrupoles with the same name, type and own arguments whose bases
    give them different lengths. *)
Definition twin_heap : heap :=
  [mkElement (Some "short") (Some "quadrupole") [("L", VInt 1)] None;
   mkElement (Some "long") (Some "quadrupole") [("L", VInt 2)] None;
   mkElement (Some "q") (Some "short") [("K1", VInt 3)] (Some (RElement 0%nat));
   mkElement (Some "q") (Some "short") [("K1", VInt 3)] (Some (RElement 1%nat))].

(** The [refer] argument an element has of its own. *)
Definition own_refer (e : Element) : option pyval := own e "refer".

Definition none_or_entry (o : option pyval) : Prop :=
  o = None \/ o = Some (VStr "entry").

(** [h'] comes from [h] by detection: no element is lost, an element keeps
    the [refer] it has or gains [entry] where it had none, and an element
    constructed meanwhile has [entry] or none. *)
Definition detects (h h' : heap) : Prop :=
  (List.length h <= List.length h')%nat /\
  forall l e', nth_error h' l = Some e' ->
    match nth_error h l with
    | Some e => own_refer e' = own_refer e
                \/ (own_refer e = None /\ own_refer e' = Some (VStr "entry"))
    | None => none_or_entry (own_refer e')
    end.

(** The head of sequence [els] is an element with a [refer] of its own in
    [h']: the one it had in [h], or [entry] if it had none or is new. *)
Definition head_ok (h h' : heap) (els : list node) : Prop :=
  exists hd rest e' v,
    els = NElement hd :: rest /\ nth_error h' hd = Some e' /\ own_refer e' = Some v
    /\ match nth_error h hd with
       | Some e => own_refer e = Some v \/ (own_refer e = None /\ v = VStr "entry")
       | None => v = VStr "entry"
       end.

(** A sequence head without [refer], a drift of length 2 and the tail. *)
Definition bare_heap : heap :=
  [mkElement (Some "S") (Some "SEQUENCE") [] None;
   mkElement (Some "D") (Some "DRIFT") [("L", VInt 2)] None;
   mkElement None (Some "ENDSEQUENCE") [] None].

Definition bare_nodes : list node := [NElement 0%nat; NElement 1%nat; NElement 2%nat].

Definition bare_sequence : Sequence := mkSequence bare_nodes [].

(** The head of the group [g] is an element that has a [refer] of its own. *)
Definition has_refer (h : heap) (g : list node) : Prop :=
  exists hd rest e v,
    g = NElement hd :: rest /\ nth_error h hd = Some e /\ own_refer e = Some v.

(** The rule list of [SequenceTransform([])]: the catch-all alone. *)
Definition catch_all : ElementTransform :=
  mkElementTransform MatchAll true (FixedNum 1) false false Uniform.

(** [m] leaves the first [n] elements of the store as they are, whether it
    returns or raises, loses no element, and what it returns satisfies
    [Q]. *)
Definition keeps (n : nat) {A} (m : M A) (Q : A -> Prop) : Prop :=
  forall h, (n <= List.length h)%nat ->
    match m h with
    | Ret a h' => firstn n h' = firstn n h
                  /\ (List.length h <= List.length h')%nat /\ Q a
    | Raise _ h' => firstn n h' = firstn n h
                    /\ (List.length h <= List.length h')%nat
    end.

(** [x] is the element at [elem] or one constructed after the first [n]. *)
Definition same_or_new (n : nat) (elem x : loc) : Prop :=
  x = elem \/ (n <= x)%nat.

(** A node the slicing emits: text, or an element constructed after the
    first [n]. *)
Definition new_node (n : nat) (x : node) : Prop :=
  match x with
  | NElement l => (n <= l)%nat
  | NText _ => True
  | NLine _ _ => False
  end.

(** A drift of length 1 and a rule that emits templates. *)
Definition drift_heap : heap :=
  [mkElement (Some "D") (Some "DRIFT") [("L", VInt 1)] None].

Definition template_rule : ElementTransform :=
  mkElementTransform MatchAll true (FixedNum 1) false true Uniform.

(** What [slice] hands out: templates and a generator over elements that
    are the input or new. *)
Definition slice_post (n : nat) (elem : loc)
           (r : list loc * generator * pyval) : Prop :=
  let '(templ, g, _) := r in
  (forall x, In x templ -> same_or_new n elem x)
  /\ same_or_new n elem (g_elem g).

(** [m] maintains the invariant [I] of the store when it returns, and
    what it returns satisfies [Q]. *)
Definition holds (I : heap -> Prop) {A} (m : M A) (Q : A -> Prop) : Prop :=
  forall h, I h ->
    match m h with
    | Ret a h' => I h' /\ Q a
    | Raise _ _ => True
    end.

(** Replace the arguments of an element, as [__setitem__], [__delitem__]
    and [pop] do. *)
Definition with_args (g : list (string * pyval) -> list (string * pyval))
           (e : Element) : Element :=
  set_args e (g (el_args e)).

(** An invariant that survives the construction of elements and the
    change of an element's arguments. *)
Definition stable (I : heap -> Prop) : Prop :=
  (forall h e, I h -> I (h ++ [e])%list)
  /\ (forall h l e g, I h -> nth_error h l = Some e -> I (update_nth h l (with_args g e))).

(** The element at [l] is named [nm]. *)
Definition named (l : loc) (nm : option string) (h : heap) : Prop :=
  exists e, nth_error h l = Some e /\ el_name e = nm.

(** [n or 1]. *)
Definition or_one (n : Z) : Z := if n =? 0 then 1 else n.

(** The name and the element of slice [idx] of [slice_num], cut from the
    element [src] and placed at [at_]. *)
Definition slice_name (name : option string) (slice_num idx : Z) : option string :=
  match name with
  | Some nm => if andb (truthy_str name) (1 <? slice_num)
               then Some (nm ++ ".." ++ str_int idx) else name
  | None => None
  end.

Definition slice_cell (src : Element) (slice_num idx : Z) (at_ : pyval) : Element :=
  Build_Element (slice_name (el_name src) slice_num idx) (el_type src)
                (dict_set (el_class src) (el_args src) "at" at_) (el_base src)
                (el_class src).

(** A named quadrupole of length 1, and rules with the slice count 3: one
    that emits templates and one that does not. *)
Definition named_heap : heap :=
  [mkElement (Some "Q") (Some "QUADRUPOLE") [("L", VInt 1)] None].

Definition template_rule3 : ElementTransform :=
  mkElementTransform MatchAll true (FixedNum 3) false true Uniform.

Definition plain_rule3 : ElementTransform :=
  mkElementTransform MatchAll true (FixedNum 3) false false Uniform.

(** Bases point backwards in the first [n] elements of the store. *)
Definition wf_below (n : nat) (h : heap) : Prop :=
  (n <= List.length h)%nat
  /\ forall l e b, (l < n)%nat -> nth_error h l = Some e ->
       el_base e = Some (RElement b) -> (b < l)%nat.

(** [n] times the length [x], added up from [acc] one after the other as
    the lengths of the elements of a sequence are. *)
Fixpoint add_times `{PyArith} (n : nat) (x acc : pyval) : result pyval :=
  match n with
  | O => Ok acc
  | S k => (acc' <-? py_binop Add acc x ;; add_times k x acc')%res
  end.

(** A rule that makes thin, with the slice count 2 and no templates. *)
Definition thin_rule2 : ElementTransform :=
  mkElementTransform MatchAll true (FixedNum 2) true false Uniform.

(** [1 / Decimal(3)]. *)
Definition third : pyval := dec_lit 3333333333333333333333333333 (-28).

(** The store of the quadrupole [Q] of length 1 once the rule
    [plain_rule3] has rescaled it, and once it has cut it in three. *)
Definition named_scaled : heap :=
  [mkElement (Some "Q") (Some "QUADRUPOLE") [("L", VInt 1)] None;
   mkElement (Some "Q") (Some "QUADRUPOLE") [("L", third)] None].

Definition named_sliced : heap :=
  [mkElement (Some "Q") (Some "QUADRUPOLE") [("L", VInt 1)] None;
   mkElement (Some "Q") (Some "QUADRUPOLE") [("L", third)] None;
   mkElement (Some "Q..0") (Some "QUADRUPOLE")
             [("L", third); ("at", dec_lit 0 (-28))] None;
   mkElement (Some "Q..1") (Some "QUADRUPOLE")
             [("L", third); ("at", third)] None;
   mkElement (Some "Q..2") (Some "QUADRUPOLE")
             [("L", third); ("at", dec_lit 6666666666666666666666666666 (-28))] None].

(** The names of the emitted elements, and the sum of their lengths as
    the sequence reads them ([get('L', 0)], added up from [0]). *)
Definition node_names (h : heap) (nodes : list node) : list (option string) :=
  map (fun n => match n with
                | NElement l => match nth_error h l with
                                | Some e => el_name e
                                | None => None
                                end
                | _ => None
                end) nodes.

Fixpoint sum_lengths `{PyArith} (h : heap) (nodes : list node) (acc : pyval)
  : result pyval :=
  match nodes with
  | [] => Ok acc
  | NElement l :: rest =>
      (len <-? get h l "L" (VInt 0) ;;
       acc' <-? py_binop Add acc len ;;
       sum_lengths h rest acc')%res
  | _ :: rest => sum_lengths h rest acc
  end.

(** ** The failures of [Sequence.detect] *)

(** The type of node [n] is [lit], as [elem.type == lit] has it. *)
Definition is_type (h : heap) (n : node) (lit : string) : bool :=
  match node_type h n with
  | Ok ty => stri_is ty lit
  | Err _ => false
  end.

(** Whether the end of [nodes] lies inside a SEQUENCE..ENDSEQUENCE group,
    given whether their start does: a group is opened by an element of
    type [sequence] met outside a group and closed by the next element of
    type [endsequence]. *)
Fixpoint in_group (h : heap) (nodes : list node) (inside : bool) : bool :=
  match nodes with
  | [] => inside
  | n :: rest =>
      in_group h rest (if inside then negb (is_type h n "endsequence")
                       else is_type h n "sequence")
  end.

(** An element of type [sequence] opens a group that the input never
    closes. *)
Definition unterminated (h : heap) (nodes : list node) : Prop :=
  in_group h nodes false = true.

(** What the expansion of a node of type [line] fails with: a LINE one of
    whose members is no key of [by_name]; an [Element] of type [line],
    which has no members at all. *)
Definition line_fails (h : heap) (by_name : odicti ref) (n : node) : option exn :=
  match n with
  | NLine _ elems => if forallb (od_mem by_name) elems then None else Some KeyError
  | NElement _ => if is_type h n "line" then Some AttributeError else None
  | NText _ => None
  end.

(** A node met outside a group, after [pre], whose expansion fails with
    [e]. *)
Definition bad_line_from (h : heap) (by_name : odicti ref) (nodes : list node)
           (inside : bool) (e : exn) : Prop :=
  exists pre nd post,
    nodes = (pre ++ nd :: post)%list
    /\ in_group h pre inside = false
    /\ line_fails h by_name nd = Some e.

Definition bad_line (h : heap) (by_name : odicti ref) (nodes : list node)
           (e : exn) : Prop :=
  bad_line_from h by_name nodes false e.

(** Some LINE statement of the input, wherever it stands, references a
    name that no named node of the input carries. *)
Definition undefined_line (by_name : odicti ref) (nodes : list node) : Prop :=
  exists name elems el,
    In (NLine name elems) nodes /\ In el elems /\ od_mem by_name el = false.

(** Every element of [h] is still there in [h'], with its type. *)
Definition same_types (h h' : heap) : Prop :=
  forall l e, nth_error h l = Some e ->
    exists e', nth_error h' l = Some e' /\ el_type e' = el_type e.

(** The elements among [nodes] exist in [h]. *)
Definition valid_node (h : heap) (n : node) : Prop :=
  match n with
  | NElement l => (l < List.length h)%nat
  | _ => True
  end.

(** A sequence head, a LINE over an undefined name, and the tail. *)
Definition group_heap : heap :=
  [mkElement (Some "S") (Some "SEQUENCE") [] None;
   mkElement None (Some "ENDSEQUENCE") [] None].

Definition line_in_group : list node :=
  [NElement 0%nat; NLine (Some "L") ["NOPE"]; NElement 1%nat].

(** A head with no tail after a drift. *)
Definition open_nodes : list node := [NElement 1%nat; NElement 0%nat].

(** Whether the scan is collecting a group. *)
Definition is_open (seq : option (list node)) : bool :=
  match seq with
  | Some _ => true
  | None => false
  end.

(** What a scan of [nodes] that starts inside or outside a group comes to:
    it returns when no node met outside a group fails to expand and the
    end lies outside a group; it raises the failure of such a node, or
    [AssertionError] at an end inside a group. *)
Definition scan_outcome {A} (o : outcome A) (h : heap) (by_name : odicti ref)
           (nodes : list node) (inside : bool) : Prop :=
  match o with
  | Ret _ _ =>
      in_group h nodes inside = false
      /\ forall e, ~ bad_line_from h by_name nodes inside e
  | Raise e _ =>
      (e = AssertionError /\ in_group h nodes inside = true)
      \/ bad_line_from h by_name nodes inside e
  end.

(** ** The length of a transformed sequence *)

(** The argument [key] of the body element [l] as the transformation reads
    it: the element's own, else that of its definition [defs[type]]. *)
Definition effective (h : heap) (defs : odicti loc) (l : loc) (key : string)
  : result pyval :=
  match nth_error h l with
  | None => Err ReferenceError
  | Some e =>
      match own e key with
      | Some v => Ok v
      | None =>
          match defs_get defs (el_type e) with
          | Some (RElement d) => getitem h d key
          | Some (RLine _ _) => Err TypeError
          | None => Err KeyError
          end
      end
  end.

(** The length of a body element: its [L], or 0. *)
Definition elem_length (h : heap) (defs : odicti loc) (l : loc) : result pyval :=
  match effective h defs l "L" with
  | Err KeyError => Ok (VInt 0)
  | r => r
  end.

(** The element at [l] has a type. *)
Definition typed (h : heap) (l : loc) : bool :=
  match nth_error h l with
  | Some e => truthy_str (el_type e)
  | None => false
  end.

(** The sum of the lengths of the body elements that have a type, added
    up from [acc] in the order of the body. *)
Fixpoint body_length `{PyArith} (h : heap) (defs : odicti loc) (body : list node)
         (acc : pyval) : result pyval :=
  match body with
  | [] => Ok acc
  | NElement l :: rest =>
      if typed h l then
        (len <-? elem_length h defs l ;;
         acc' <-? py_binop Add acc len ;;
         body_length h defs rest acc')%res
      else body_length h defs rest acc
  | _ :: rest => body_length h defs rest acc
  end.

(** A body node that is an element stands at or after [m] in the store
    and, if it has a type, has no [at], neither its own nor from its
    definition. *)
Definition unplaced (h : heap) (defs : odicti loc) (m : nat) (n : node) : Prop :=
  match n with
  | NElement l =>
      (m <= l < List.length h)%nat
      /\ (typed h l = true -> effective h defs l "at" = Err KeyError)
  | _ => True
  end.

(** The definitions stand before [m] in the store. *)
Definition defs_below (defs : odicti loc) (m : nat) : Prop :=
  forall k d, od_get defs k = Some d -> (d < m)%nat.

(** The store [h'] of a transformation under way that started from [h]:
    the elements before [m] are as they were, and every element of [h]
    keeps its name, type and own arguments, in a dictionary of the same
    class. *)
Definition transforms (h : heap) (m : nat) (h' : heap) : Prop :=
  firstn m h' = firstn m h
  /\ forall l e, nth_error h l = Some e ->
       exists e', nth_error h' l = Some e'
                  /\ el_name e' = el_name e /\ el_type e' = el_type e
                  /\ el_args e' = el_args e /\ el_class e' = el_class e.

(** A sequence with the entry convention whose one element, a drift of
    length 2, is placed at 10. *)
Definition placed_heap : heap :=
  [mkElement (Some "S") (Some "SEQUENCE") [("refer", VStr "entry")] None;
   mkElement (Some "D") (Some "DRIFT") [("L", VInt 2); ("at", VInt 10)] None;
   mkElement None (Some "ENDSEQUENCE") [] None].

(** The base type of the body element [l] as the rules see it: that of its
    definition [defs[type]], or its own type where it has no definition. *)
Definition effective_type (h : heap) (defs : odicti loc) (l : loc)
  : result (option string) :=
  match nth_error h l with
  | None => Err ReferenceError
  | Some e =>
      match defs_get defs (el_type e) with
      | Some (RElement d) => base_type h d
      | Some (RLine _ _) => Err AttributeError
      | None => Ok (el_type e)
      end
  end.

(** Whether the rule [t] selects the body element [l]. *)
Definition selects (t : ElementTransform) (h : heap) (defs : odicti loc) (l : loc)
  : result bool :=
  match t_match t with
  | MatchName name => (e <-? deref h l ;; Ok (stri_is (el_name e) name))%res
  | MatchType type => (bt <-? effective_type h defs l ;; Ok (stri_is bt type))%res
  | MatchAll => Ok true
  end.

(** The rule that slices the body element [l]: the first that selects it. *)
Fixpoint rule_of (ts : list ElementTransform) (h : heap) (defs : odicti loc) (l : loc)
  : result ElementTransform :=
  match ts with
  | [] => Err TypeError
  | t :: rest =>
      (b <-? selects t h defs l ;;
       if b : bool then Ok t else rule_of rest h defs l)%res
  end.

(** The entry position of the body element [l] of length [len] under the
    rule [t], the element before it ending at [position]: where its [at]
    puts it, when the rule reads [at] and the element has one. *)
Definition entry_of `{PyArith} (t : ElementTransform) (h : heap) (defs : odicti loc)
           (l : loc) (len position refer : pyval) : result pyval :=
  if t_use_at t then
    match (at_ <-? effective h defs l "at" ;;
           back <-? py_binop Mul len refer ;;
           py_binop Sub at_ back)%res with
    | Err KeyError => Ok position
    | r => r
    end
  else Ok position.

(** The exit position of the last body element that has a type, from
    [position] in the order of the body. *)
Fixpoint body_exit `{PyArith} (ts : list ElementTransform) (h : heap)
         (defs : odicti loc) (refer : pyval) (body : list node)
         (position : pyval) : result pyval :=
  match body with
  | [] => Ok position
  | NElement l :: rest =>
      if typed h l then
        (t <-? rule_of ts h defs l ;;
         len <-? elem_length h defs l ;;
         entry <-? entry_of t h defs l len position refer ;;
         exit_ <-? py_binop Add entry len ;;
         body_exit ts h defs refer rest exit_)%res
      else body_exit ts h defs refer rest position
  | _ :: rest => body_exit ts h defs refer rest position
  end.

(** A body node that is an element stands at or after [m] in the store. *)
Definition in_body (h : heap) (m : nat) (n : node) : Prop :=
  match n with
  | NElement l => (m <= l < List.length h)%nat
  | _ => True
  end.

(** The [at] of a body node plays no part: the element has none, neither
    its own nor from its definition, or the rule that slices it does not
    read it. *)
Definition at_ignored (ts : list ElementTransform) (h : heap) (defs : odicti loc)
           (n : node) : Prop :=
  match n with
  | NElement l =>
      typed h l = true ->
      effective h defs l "at" = Err KeyError
      \/ exists t, rule_of ts h defs l = Ok t /\ t_use_at t = false
  | _ => True
  end.

(** The nodes of the document over [placed_heap]. *)
Definition placed_nodes : list node := [NElement 0%nat; NElement 1%nat; NElement 2%nat].

(** The definition [QF] of length 1 and, after it, a sequence with the
    centre convention: the quadrupole [Q1] of type [QF] placed at 5 and a
    drift of length 2 with an [at] of 3. *)
Definition mixed_heap : heap :=
  [mkElement (Some "QF") (Some "QUADRUPOLE") [("L", VInt 1)] None;
   mkElement (Some "S") (Some "SEQUENCE") [("refer", VStr "centre")] None;
   mkElement (Some "Q1") (Some "QF") [("at", VInt 5)] None;
   mkElement (Some "D") (Some "DRIFT") [("L", VInt 2); ("at", VInt 3)] None;
   mkElement None (Some "ENDSEQUENCE") [] None].

Definition mixed_sequence : Sequence :=
  mkSequence [NElement 1%nat; NElement 2%nat; NElement 3%nat; NElement 4%nat] [].

(** The rule [{'type': 'drift', 'use_at': False}]. *)
Definition drift_rule : ElementTransform :=
  mkElementTransform (MatchType "drift") false (FixedNum 1) false false Uniform.

(** ** Arguments of elements *)

(** What the base of [e] has under [key]: the lookup that [__getitem__]
    and [pop] fall back to. *)
Definition inherited (h : heap) (e : Element) (key : string) : result pyval :=
  match el_base e with
  | Some (RElement b) => getitem h b key
  | Some (RLine _ _) => Err TypeError
  | None => Err KeyError
  end.

(** Two keys are the same up to case. *)
Definition same_key (k k' : string) : bool := String.eqb (lower k) (lower k').

(** Every dictionary of the store holds each key once. *)
Definition heap_unique (h : heap) : Prop :=
  forall l e, nth_error h l = Some e -> dict_unique (el_class e) (el_args e).

(** Every dictionary of the store is an [odicti], as in a parsed
    document. *)
Definition heap_odicti (h : heap) : Prop :=
  forall l e, nth_error h l = Some e -> el_class e = Odicti.

(** ** The output of [Sequence.detect] *)

(** The nodes of the output, in order: a node that was passed on, or the
    elements of a sequence. *)
Definition flatten (out : list docnode) : list node :=
  flat_map (fun d => match d with
                     | DNode n => [n]
                     | DSequence s => seq_elements s
                     end) out.

(** No node is of type [line]. *)
Definition no_lines (h : heap) (nodes : list node) : bool :=
  forallb (fun n => negb (is_type h n "line")) nodes.

(** The group being collected, if any. *)
Definition group_of (seq : option (list node)) : list node :=
  match seq with
  | Some g => g
  | None => []
  end.

(** The sequence [els] runs from an element of type [sequence] to an
    element of type [endsequence]. *)
Definition delimited (h : heap) (els : list node) : Prop :=
  exists hd body tl,
    els = (NElement hd :: body ++ [NElement tl])%list
    /\ is_type h (NElement hd) "sequence" = true
    /\ is_type h (NElement tl) "endsequence" = true.

(** A LINE over two defined names, between two drifts. *)
Definition line_heap : heap :=
  [mkElement (Some "A") (Some "DRIFT") [("L", VInt 1)] None;
   mkElement (Some "B") (Some "DRIFT") [("L", VInt 2)] None].

Definition line_nodes : list node :=
  [NElement 0%nat; NElement 1%nat; NLine (Some "L") ["A"; "B"]].

(** ** Values and rules *)

(** The value with another assignment symbol. *)
Definition with_assign (a : string) (v : pyval) : pyval :=
  match v with
  | VArray l _ => VArray l a
  | VIdentifier s _ => VIdentifier s a
  | VComposed s _ => VComposed s a
  | _ => v
  end.

(** The value a [Value] object wraps. *)
Definition value_of (v : pyval) : pyval :=
  match v with
  | VArray l _ => VList l
  | VIdentifier s _ | VComposed s _ => VStr s
  | _ => v
  end.

(** The selector names a distribution style the code does not know. *)
Definition unknown_style (s : selector) : Prop :=
  exists st, sel_style s = Some st /\ st <> "uniform" /\ st <> "loop".

(** ** Documents *)

(** What becomes of a node of a document: a node that is no sequence is
    returned as it is, a sequence gives a sequence. *)
Definition transformed (nd nd' : docnode) : Prop :=
  match nd with
  | DNode n => nd' = DNode n
  | DSequence _ => exists s', nd' = DSequence s'
  end.

(** Every element of [h] is in [h'] with its name, type and arguments. *)
Definition keeps_content (h h' : heap) : Prop := transforms h 0 h'.

(** The typed elements among [done] have their definitions as bases in
    [h']: what [defs] has under the type the element had in [h]. *)
Definition linked (h : heap) (defs : odicti loc) (done : list node) (h' : heap) : Prop :=
  forall l e0,
    In (NElement l) done -> nth_error h l = Some e0 ->
    truthy_str (el_type e0) = true ->
    exists e, nth_error h' l = Some e
              /\ el_base e = defs_get defs (el_type e0)
              /\ el_name e = el_name e0 /\ el_type e = el_type e0
              /\ el_args e = el_args e0 /\ el_class e = el_class e0.

(** The table of definitions once the nodes have been transformed, from
    the table [defs]: every node that is an element is entered under its
    name, and replaces what the table held under that name. *)
Fixpoint defs_after (h : heap) (nodes : list docnode) (defs : odicti loc)
  : odicti loc :=
  match nodes with
  | [] => defs
  | DNode (NElement l) :: rest =>
      match nth_error h l with
      | Some e => defs_after h rest (od_set defs (str_opt (el_name e)) l)
      | None => defs_after h rest defs
      end
  | _ :: rest => defs_after h rest defs
  end.

(** The places where the transformation sets a base: the element is a
    node of the document, or a body element of one of its sequences. *)
Definition touched (l : loc) (nodes : list docnode) : Prop :=
  exists nd, In nd nodes
             /\ match nd with
                | DNode n => n = NElement l
                | DSequence s => In (NElement l) (seq_body s)
                end.

(** Two definitions of the same name, and a sequence whose one element
    is of that type. *)
Definition redefined_heap : heap :=
  [mkElement (Some "QF") (Some "QUADRUPOLE") [("L", VInt 2)] None;
   mkElement (Some "qf") (Some "QUADRUPOLE") [("L", VInt 3)] None;
   mkElement (Some "S") (Some "SEQUENCE") [("refer", VStr "entry")] None;
   mkElement (Some "Q1") (Some "QF") [] None;
   mkElement None (Some "ENDSEQUENCE") [] None].

Definition redefined_document : list docnode :=
  [DNode (NElement 0%nat); DNode (NElement 1%nat);
   DSequence (mkSequence [NElement 2%nat; NElement 3%nat; NElement 4%nat] [])].

(** A definition and a sequence whose one element is of its type. *)
Definition defined_heap : heap :=
  [mkElement (Some "QF") (Some "QUADRUPOLE") [("L", VInt 2)] None;
   mkElement (Some "S") (Some "SEQUENCE") [("refer", VStr "entry")] None;
   mkElement (Some "Q1") (Some "QF") [] None;
   mkElement None (Some "ENDSEQUENCE") [] None].

Definition defined_sequence : Sequence :=
  mkSequence [NElement 1%nat; NElement 2%nat; NElement 3%nat] [].

(** ** Thin elements *)

(** The element at [s] is a multipole without a base, whose dictionary
    is an [odicti] that holds each key once. *)
Definition thin_at (s : loc) (h : heap) : Prop :=
  exists e, nth_error h s = Some e
            /\ el_base e = None
            /\ el_type e = Some "multipole"
            /\ el_class e = Odicti
            /\ unique_keys (el_args e).

(** The base types [rescale_makethin] turns into multipoles. *)
Definition thinned (bt : option string) : bool :=
  orb (stri_is bt "sbend") (stri_is bt "quadrupole").

(** A quadrupole defined with strength and length. *)
Definition quad_def_heap : heap :=
  [mkElement (Some "QF") (Some "QUADRUPOLE") [("K1", VInt 3); ("L", VInt 2)] None;
   mkElement (Some "Q1") (Some "QF") [] (Some (RElement 0%nat))].

(** ** Templates *)

(** The node is a reference to the template at [scaled]: an unnamed
    element of the type [type_] over a plain [dict] whose only argument is
    its place and whose base is the template. *)
Definition refers_to (h : heap) (scaled : loc) (type_ : option string)
           (nd : node) : Prop :=
  exists l at_,
    nd = NElement l
    /\ nth_error h l
       = Some (Build_Element None type_ [("at", at_)] (Some (RElement scaled)) Dict).

(** ** What [Sequence.detect] leaves as it is *)

(** The reference a LINE member gets: a new unnamed element of the type
    [name] over an empty plain [dict], whose base is the node of that
    name. *)
Definition member_of (by_name : odicti ref) (name : string) : Element :=
  Build_Element None (Some name) [] (od_get by_name name) Dict.

(** Every element of [h] is in [h'] with its name, type and base, and with
    its arguments but for [refer], in a dictionary of the same class. *)
Definition keeps_but_refer (h h' : heap) : Prop :=
  forall l e, nth_error h l = Some e ->
    exists e', nth_error h' l = Some e'
               /\ el_name e' = el_name e /\ el_type e' = el_type e
               /\ el_base e' = el_base e
               /\ el_class e' = el_class e
               /\ forall key, same_key_in (el_class e) "refer" key = false ->
                    own e' key = own e key.

(** * Properties *)

Local Open Scope list_scope.

(** ** Dictionaries of either class *)

Lemma dict_get_fold {V} (c : dict_class) (d : list (string * V)) (k k' : string) :
  fold_key c k = fold_key c k' -> dict_get c d k = dict_get c d k'.
Proof.
  intros Hk. induction d as [|kv d IH]; [reflexivity|].
  cbn [dict_get]. unfold dict_key_is. rewrite Hk, IH. reflexivity.
Qed.

Lemma dict_get_set {V} (c : dict_class) (d : list (string * V)) (k : string) (v : V) :
  dict_get c (dict_set c d k v) k = Some v.
Proof.
  induction d as [|kv d IH]; cbn [dict_set dict_get].
  - unfold dict_key_is. cbn [fst snd]. rewrite String.eqb_refl. reflexivity.
  - destruct (dict_key_is c k kv) eqn:E; cbn [dict_get].
    + unfold dict_key_is in *. cbn [fst snd]. rewrite E. reflexivity.
    + rewrite E. exact IH.
Qed.

Lemma dict_get_set_same {V} (c : dict_class) (d : list (string * V))
      (k k' : string) (v : V) :
  same_key_in c k k' = true -> dict_get c (dict_set c d k v) k' = Some v.
Proof.
  unfold same_key_in. intros Hk. apply String.eqb_eq in Hk.
  rewrite <- (@dict_get_fold V c _ k k' Hk). apply dict_get_set.
Qed.

Lemma dict_get_set_other {V} (c : dict_class) (d : list (string * V))
      (k k' : string) (v : V) :
  same_key_in c k k' = false -> dict_get c (dict_set c d k v) k' = dict_get c d k'.
Proof.
  unfold same_key_in. intros Hk.
  induction d as [|kv d IH]; cbn [dict_set dict_get].
  - unfold dict_key_is. cbn [fst snd]. rewrite Hk. reflexivity.
  - destruct (dict_key_is c k kv) eqn:E; cbn [dict_get].
    + unfold dict_key_is in *. cbn [fst snd]. apply String.eqb_eq in E.
      rewrite E, Hk. reflexivity.
    + destruct (dict_key_is c k' kv); [reflexivity|exact IH].
Qed.

Lemma dict_get_none_unique {V} (c : dict_class) (d : list (string * V))
      (kv : string * V) (k : string) :
  dict_unique c (kv :: d) -> dict_key_is c k kv = true -> dict_get c d k = None.
Proof.
  unfold dict_unique, dict_key_is. cbn [map]. intros Hu Hk. apply String.eqb_eq in Hk.
  inversion Hu as [|? ? Hnot _]; subst. clear Hu.
  induction d as [|x d IH]; [reflexivity|].
  cbn [dict_get]. unfold dict_key_is.
  destruct (String.eqb (fold_key c (fst x)) (fold_key c k)) eqn:E.
  - apply String.eqb_eq in E. exfalso. apply Hnot. left. congruence.
  - apply IH. intros Hin. apply Hnot. right. exact Hin.
Qed.

Lemma dict_unique_tail {V} (c : dict_class) (kv : string * V) (d : list (string * V)) :
  dict_unique c (kv :: d) -> dict_unique c d.
Proof.
  unfold dict_unique. cbn [map]. intros Hu. inversion Hu; assumption.
Qed.

Lemma dict_get_del {V} (c : dict_class) (d : list (string * V)) (k k' : string) :
  dict_unique c d ->
  dict_get c (dict_del c d k) k' = if same_key_in c k k' then None else dict_get c d k'.
Proof.
  unfold same_key_in. induction d as [|kv d IH]; intros Hu; cbn [dict_del dict_get].
  - destruct (String.eqb (fold_key c k) (fold_key c k')); reflexivity.
  - destruct (dict_key_is c k kv) eqn:E.
    + destruct (String.eqb (fold_key c k) (fold_key c k')) eqn:Hk.
      * apply (@dict_get_none_unique V c d kv k' Hu). unfold dict_key_is in *.
        apply String.eqb_eq in Hk. rewrite <- Hk. exact E.
      * unfold dict_key_is in *. apply String.eqb_eq in E. rewrite E, Hk. reflexivity.
    + cbn [dict_get]. pose proof (dict_unique_tail Hu) as Hu'.
      destruct (dict_key_is c k' kv) eqn:E'.
      * destruct (String.eqb (fold_key c k) (fold_key c k')) eqn:Hk; [|reflexivity].
        unfold dict_key_is in *. apply String.eqb_eq in Hk. rewrite Hk in E. congruence.
      * apply IH. exact Hu'.
Qed.

Lemma dict_set_keys {V} (c : dict_class) (d : list (string * V)) (k : string) (v : V)
      (x : string) :
  In x (map (fun kv => fold_key c (fst kv)) (dict_set c d k v)) ->
  x = fold_key c k \/ In x (map (fun kv => fold_key c (fst kv)) d).
Proof.
  induction d as [|kv d IH]; cbn [dict_set map]; intros Hin.
  - destruct Hin as [Hin|[]]. left. symmetry. exact Hin.
  - destruct (dict_key_is c k kv); cbn [map fst] in Hin.
    + right. exact Hin.
    + destruct Hin as [Hin|Hin]; [right; left; exact Hin|].
      destruct (IH Hin) as [Hx|Hx]; [left; exact Hx|right; right; exact Hx].
Qed.

Lemma dict_set_unique {V} (c : dict_class) (d : list (string * V)) (k : string) (v : V) :
  dict_unique c d -> dict_unique c (dict_set c d k v).
Proof.
  unfold dict_unique. induction d as [|kv d IH]; intros Hu; cbn [dict_set map].
  - constructor; [intros []|constructor].
  - inversion Hu as [|? ? Hnot Hu']; subst.
    destruct (dict_key_is c k kv) eqn:E; cbn [map fst].
    + constructor; assumption.
    + constructor; [|apply IH; exact Hu'].
      intros Hin. destruct (dict_set_keys _ _ _ _ _ Hin) as [Hx|Hx].
      * unfold dict_key_is in E. rewrite Hx, String.eqb_refl in E. discriminate.
      * exact (Hnot Hx).
Qed.

Lemma dict_del_keys {V} (c : dict_class) (d : list (string * V)) (k : string)
      (x : string) :
  In x (map (fun kv => fold_key c (fst kv)) (dict_del c d k)) ->
  In x (map (fun kv => fold_key c (fst kv)) d).
Proof.
  induction d as [|kv d IH]; cbn [dict_del map]; intros Hin; [exact Hin|].
  destruct (dict_key_is c k kv); cbn [map] in Hin.
  - right. exact Hin.
  - destruct Hin as [Hin|Hin]; [left; exact Hin|right; exact (IH Hin)].
Qed.

Lemma dict_del_unique {V} (c : dict_class) (d : list (string * V)) (k : string) :
  dict_unique c d -> dict_unique c (dict_del c d k).
Proof.
  unfold dict_unique. induction d as [|kv d IH]; intros Hu; cbn [dict_del map]; [exact Hu|].
  inversion Hu as [|? ? Hnot Hu']; subst.
  destruct (dict_key_is c k kv); [exact Hu'|].
  cbn [map]. constructor; [|apply IH; exact Hu'].
  intros Hin. exact (Hnot (dict_del_keys _ _ _ _ Hin)).
Qed.

Lemma dict_get_In {V} (c : dict_class) (d : list (string * V)) (kv : string * V) :
  dict_unique c d -> In kv d -> dict_get c d (fst kv) = Some (snd kv).
Proof.
  unfold dict_unique. induction d as [|x d IH]; intros Hu Hin; [destruct Hin|].
  cbn [map] in Hu. inversion Hu as [|? ? Hnot Hu']; subst.
  cbn [dict_get]. unfold dict_key_is. destruct Hin as [->|Hin].
  - rewrite String.eqb_refl. reflexivity.
  - destruct (String.eqb (fold_key c (fst x)) (fold_key c (fst kv))) eqn:E.
    + apply String.eqb_eq in E. exfalso. apply Hnot. rewrite E.
      apply (in_map (fun kv => fold_key c (fst kv)) d kv Hin).
    + apply IH; assumption.
Qed.

(** A dictionary of the class [Odicti] is the [odicti] of pydicti. *)
Lemma dict_get_odicti {V} (d : odicti V) (k : string) :
  dict_get Odicti d k = od_get d k.
Proof. reflexivity. Qed.

Lemma dict_set_odicti {V} (d : odicti V) (k : string) (v : V) :
  dict_set Odicti d k v = od_set d k v.
Proof. reflexivity. Qed.

Lemma dict_mem_odicti {V} (d : odicti V) (k : string) :
  dict_mem Odicti d k = od_mem d k.
Proof. reflexivity. Qed.

(** ** Symbolic composition: the assignment symbol of a [Composed] *)

(** [Composed.create] asks each operand for an attribute named [assign];
    [Value.__init__] stores the symbol under [_assign], so the question is
    answered by the default. *)
Lemma getattr_assign_default (v : pyval) :
  getattr_default v "assign" (VStr "=") = VStr "=".
Proof.
  destruct v; reflexivity.
Qed.

Lemma Composed_create_marker (a b : pyval) (x : string) :
  match Composed_create a x b with
  | Ok r => assign_of r = Some "="
  | Err _ => True
  end.
Proof.
  unfold Composed_create.
  rewrite !getattr_assign_default. cbn [is_str String.eqb orb].
  destruct (format_safe a); cbn; [|exact I].
  destruct (format_safe b); cbn; [reflexivity|exact I].
Qed.

(** C2: combining the deferred identifier [x] (symbol [:=]) with the
    identifier [y] yields the [Composed] text [x + y] carrying [=], not
    [:=]; and whatever the operands, a composed value carries [=]. *)
Theorem C2_deferred_marker_lost :
  Composed_create (VIdentifier "x" ":=") "+" (VIdentifier "y" "=")
    = Ok (VComposed "x + y" "=")
  /\ forall a b x,
       match Composed_create a x b with
       | Ok r => assign_of r = Some "="
       | Err _ => True
       end.
Proof.
  split; [reflexivity|].
  intros a b x. apply Composed_create_marker.
Qed.

(** ** Selector validation *)

(** Construction can only fail on the style. *)
Lemma ElementTransform_init_total (s : selector) :
  (exists t, ElementTransform_init s = Ok t)
  \/ (ElementTransform_init s = Err ValueError
      /\ sel_style s <> None
      /\ sel_style s <> Some "uniform" /\ sel_style s <> Some "loop").
Proof.
  unfold ElementTransform_init.
  destruct (sel_style s) as [st|] eqn:Est; cbn [get_or].
  - destruct (String.eqb st "uniform") eqn:Eu; [left; eexists; reflexivity|].
    destruct (String.eqb st "loop") eqn:El; [left; eexists; reflexivity|].
    right. repeat split; try discriminate.
    + intros [= ->]. discriminate.
    + intros [= ->]. discriminate.
  - left; eexists; reflexivity.
Qed.

(** C1: a selector holding both [name] and [type], and one holding both
    [density] and [slice], each construct a usable rule: [exclusive] finds
    the double specification and its verdict is dropped. *)
Theorem C1_double_specified_selector_accepted :
  exclusive both_name_and_type ["name"; "type"] = false
  /\ ElementTransform_init both_name_and_type
     = Ok (mkElementTransform (MatchName "q") true (FixedNum 1) false false Uniform)
  /\ exclusive both_density_and_slice ["density"; "slice"] = false
  /\ ElementTransform_init both_density_and_slice
     = Ok (mkElementTransform MatchAll true (ByDensity (VInt 2)) false false Uniform).
Proof.
  repeat split; reflexivity.
Qed.

(** ** Rescale-makethin on the quadrupole of the unit test *)

(** C7: with ratio 0.5 the quadrupole [K1=3, L=2.5] becomes a multipole
    without [K1] whose [KNL] is [[0, 3.75]] (K1·L·ratio); it does not
    compare equal to [[0, 7.5]]. *)
Theorem C7_makethin_quadrupole_KNL :
  exists h',
    rescale_makethin 0%nat (dec_lit 5 (-1)) quad_heap = Ret 1%nat h'
    /\ (exists e, nth_error h' 1 = Some e /\ el_type e = Some "multipole")
    /\ get h' 1%nat "K1" VNone = Ok VNone
    /\ getitem h' 1%nat "KNL" = Ok (VList [VInt 0; dec_lit 375 (-2)])
    /\ py_eqb (VList [VInt 0; dec_lit 375 (-2)]) (VList [VInt 0; dec_lit 75 (-1)]) = false
    /\ nth_error h' 0 = nth_error quad_heap 0.
Proof.
  eexists. split; [vm_compute; reflexivity|].
  split; [eexists; split; reflexivity|].
  repeat split; vm_compute; reflexivity.
Qed.

(** ** Prototype lookup *)

Lemma getitem_fuel_enough (h : heap) (key : string) :
  wf_heap h ->
  forall n m l, (l < n)%nat -> (l < m)%nat ->
    getitem_fuel n h l key = getitem_fuel m h l key.
Proof.
  intros Hwf. induction n as [|n IH]; intros m l Hn Hm; [lia|].
  destruct m as [|m]; [lia|]. cbn [getitem_fuel].
  destruct (nth_error h l) as [e|] eqn:He; [|reflexivity].
  destruct (own e key); [reflexivity|].
  destruct (el_base e) as [[b|ln le]|] eqn:Hb; try reflexivity.
  pose proof (Hwf l e b He Hb). apply IH; lia.
Qed.

Lemma nth_error_lt {A} (h : list A) (l : nat) (e : A) :
  nth_error h l = Some e -> (l < List.length h)%nat.
Proof.
  intros He. apply nth_error_Some. rewrite He. discriminate.
Qed.

(** One step of [__getitem__]. *)
Lemma getitem_unfold (h : heap) (l : loc) (e : Element) (key : string) :
  wf_heap h -> nth_error h l = Some e ->
  getitem h l key =
  match own e key with
  | Some v => Ok v
  | None =>
      match el_base e with
      | Some (RElement b) => getitem h b key
      | Some (RLine _ _) => Err TypeError
      | None => Err KeyError
      end
  end.
Proof.
  intros Hwf He. unfold getitem.
  change (getitem_fuel (S (List.length h)) h l key)
    with (match nth_error h l with
          | None => Err ReferenceError
          | Some e =>
              match own e key with
              | Some v => Ok v
              | None =>
                  match el_base e with
                  | Some (RElement b) => getitem_fuel (List.length h) h b key
                  | Some (RLine _ _) => Err TypeError
                  | None => Err KeyError
                  end
              end
          end).
  rewrite He.
  destruct (own e key); [reflexivity|].
  destruct (el_base e) as [[b|ln le]|] eqn:Hb; try reflexivity.
  pose proof (Hwf l e b He Hb). pose proof (nth_error_lt _ _ He).
  apply getitem_fuel_enough; [assumption|lia|lia].
Qed.

(** C8: indexing an element returns its own argument when the key is among
    its own arguments and otherwise the result of indexing its base; [get]
    does the same and turns a missing key into the default.  On the chain
    base/mid/leaf of the unit test: leaf[a]=a2, leaf[b]=b0, leaf[c]=c0,
    leaf[d]=d1. *)
Theorem C8_lookup_own_then_base (h : heap) (l : loc) (e : Element)
        (key : string) (default : pyval)
        (Hwf : wf_heap h) (He : nth_error h l = Some e) :
  (forall v, own e key = Some v ->
     getitem h l key = Ok v /\ get h l key default = Ok v)
  /\ (forall b, own e key = None -> el_base e = Some (RElement b) ->
        getitem h l key = getitem h b key
        /\ get h l key default = get h b key default)
  /\ (own e key = None -> el_base e = None ->
        getitem h l key = Err KeyError /\ get h l key default = Ok default).
Proof.
  pose proof (@getitem_unfold h l e key Hwf He) as Hu.
  repeat split.
  - rewrite Hu, H. reflexivity.
  - unfold get. rewrite Hu, H. reflexivity.
  - rewrite Hu, H, H0. reflexivity.
  - unfold get. rewrite Hu, H, H0. reflexivity.
  - rewrite Hu, H, H0. reflexivity.
  - unfold get. rewrite Hu, H, H0. reflexivity.
Qed.

Lemma chain_heap_wf : wf_heap chain_heap.
Proof.
  intros l e b Hl Hb.
  destruct l as [|[|[|l]]]; cbn in Hl.
  - injection Hl as <-. discriminate Hb.
  - injection Hl as <-. injection Hb as <-. lia.
  - injection Hl as <-. injection Hb as <-. lia.
  - destruct l; discriminate Hl.
Defined.

Lemma C8_lookup_witness :
  getitem chain_heap 2%nat "a" = Ok (VStr "a2")
  /\ getitem chain_heap 2%nat "b" = getitem chain_heap 1%nat "b"
  /\ getitem chain_heap 1%nat "b" = getitem chain_heap 0%nat "b"
  /\ getitem chain_heap 0%nat "b" = Ok (VStr "b0")
  /\ getitem chain_heap 2%nat "c" = Ok (VStr "c0")
  /\ getitem chain_heap 2%nat "d" = Ok (VStr "d1")
  /\ get chain_heap 2%nat "e" VNone = Ok VNone.
Proof.
  split.
  { apply (@C8_lookup_own_then_base chain_heap 2%nat _ "a" VNone
             chain_heap_wf eq_refl). reflexivity. }
  split.
  { apply (@C8_lookup_own_then_base chain_heap 2%nat _ "b" VNone
             chain_heap_wf eq_refl); reflexivity. }
  split.
  { apply (@C8_lookup_own_then_base chain_heap 1%nat _ "b" VNone
             chain_heap_wf eq_refl); reflexivity. }
  split.
  { apply (@C8_lookup_own_then_base chain_heap 0%nat _ "b" VNone
             chain_heap_wf eq_refl). reflexivity. }
  repeat split; reflexivity.
Defined.

(** ** Element equality *)

Lemma py_eqb_refl : forall v, py_eqb v v = true.
Proof.
  fix IH 1. intros v.
  destruct v as [ | z | d | s | l | l a | s a | s a]; cbn.
  - reflexivity.
  - apply Z.eqb_refl.
  - unfold Decimal.eqb, Decimal.cmp. rewrite Z.compare_refl. reflexivity.
  - apply String.eqb_refl.
  - induction l as [|x l IHl]; [reflexivity|].
    rewrite (IH x). cbn. exact IHl.
  - induction l as [|x l IHl]; [reflexivity|].
    rewrite (IH x). cbn. exact IHl.
  - apply String.eqb_refl.
  - apply String.eqb_refl.
Qed.

Lemma stri_eq_refl (a : option string) : stri_eq a a = true.
Proof.
  destruct a; cbn; [apply String.eqb_refl|reflexivity].
Qed.

Lemma dict_get_Some_In {V} (c : dict_class) (d : list (string * V)) (k : string) (v : V) :
  dict_get c d k = Some v ->
  exists kv, In kv d /\ fold_key c (fst kv) = fold_key c k /\ snd kv = v.
Proof.
  induction d as [|x d IH]; cbn [dict_get]; [discriminate|].
  unfold dict_key_is. destruct (String.eqb (fold_key c (fst x)) (fold_key c k)) eqn:E.
  - intros [= <-]. exists x. apply String.eqb_eq in E.
    split; [left; reflexivity|]. split; [exact E|reflexivity].
  - intros Hg. destruct (IH Hg) as (kv & Hin & Hk & Hv).
    exists kv. split; [right; exact Hin|]. split; assumption.
Qed.

Lemma dict_get_keys {V} (c : dict_class) (d : list (string * V)) (k : string) :
  In (fold_key c k) (map (fun kv => fold_key c (fst kv)) d) <-> dict_get c d k <> None.
Proof.
  induction d as [|x d IH]; cbn [dict_get map In].
  - split; [intros []|intros Hn; apply Hn; reflexivity].
  - unfold dict_key_is. destruct (String.eqb (fold_key c (fst x)) (fold_key c k)) eqn:E.
    + apply String.eqb_eq in E. split; [discriminate|left; exact E].
    + apply String.eqb_neq in E. rewrite <- IH. split.
      * intros [Hx|Hin]; [contradiction|exact Hin].
      * intros Hin. right. exact Hin.
Qed.

(** What [==] on two dictionaries decides: whether they are the same
    map. *)
Lemma dict_eqb_spec (c : dict_class) (d d' : list (string * pyval)) :
  dict_unique c d -> dict_unique c d' ->
  (dict_eqb c py_eqb d d' = true
   <-> forall key, args_agree (dict_get c d key) (dict_get c d' key)).
Proof.
  intros Hu Hu'. unfold dict_eqb. rewrite andb_true_iff, Nat.eqb_eq, forallb_forall.
  split.
  - intros [Hlen Hall] key.
    assert (Hincl : incl (map (fun kv => fold_key c (fst kv)) d)
                         (map (fun kv => fold_key c (fst kv)) d')).
    { intros x Hx. apply in_map_iff in Hx. destruct Hx as (kv & <- & Hin).
      apply dict_get_keys. specialize (Hall kv Hin).
      destruct (dict_get c d' (fst kv)); [discriminate|discriminate]. }
    destruct (dict_get c d key) as [v|] eqn:Hg.
    + destruct (dict_get_Some_In _ _ _ Hg) as (kv & Hin & Hk & <-).
      specialize (Hall kv Hin). rewrite (@dict_get_fold _ c d' _ _ Hk) in Hall.
      destruct (dict_get c d' key) as [w|]; [exact Hall|discriminate].
    + destruct (dict_get c d' key) as [w|] eqn:Hg'; [|exact Logic.I].
      assert (Hin : In (fold_key c key) (map (fun kv => fold_key c (fst kv)) d')).
      { apply dict_get_keys. rewrite Hg'. discriminate. }
      assert (Hback : incl (map (fun kv => fold_key c (fst kv)) d')
                           (map (fun kv => fold_key c (fst kv)) d)).
      { apply NoDup_length_incl; [exact Hu| |exact Hincl].
        rewrite !length_map. rewrite Hlen. apply le_n. }
      apply Hback in Hin. apply dict_get_keys in Hin. rewrite Hg in Hin.
      exfalso. apply Hin. reflexivity.
  - intros Hall.
    assert (Hsub : forall a b : list (string * pyval),
               dict_unique c a ->
               (forall key, dict_get c a key <> None -> dict_get c b key <> None) ->
               incl (map (fun kv => fold_key c (fst kv)) a)
                    (map (fun kv => fold_key c (fst kv)) b)).
    { intros a b Ha Hab x Hx. apply in_map_iff in Hx. destruct Hx as (kv & <- & Hin).
      apply dict_get_keys. apply Hab.
      rewrite (@dict_get_In _ c a kv Ha Hin). discriminate. }
    split.
    + apply Nat.le_antisymm.
      * rewrite <- (length_map (fun kv => fold_key c (fst kv)) d),
                <- (length_map (fun kv => fold_key c (fst kv)) d').
        apply NoDup_incl_length; [exact Hu|]. apply (Hsub d d' Hu).
        intros key Hk. specialize (Hall key).
        destruct (dict_get c d key) as [v|]; [|contradiction Hk; reflexivity].
        destruct (dict_get c d' key) as [w|]; [discriminate|destruct Hall].
      * rewrite <- (length_map (fun kv => fold_key c (fst kv)) d),
                <- (length_map (fun kv => fold_key c (fst kv)) d').
        apply NoDup_incl_length; [exact Hu'|]. apply (Hsub d' d Hu').
        intros key Hk. specialize (Hall key).
        destruct (dict_get c d' key) as [w|]; [|contradiction Hk; reflexivity].
        destruct (dict_get c d key) as [v|]; [discriminate|destruct Hall].
    + intros kv Hin. specialize (Hall (fst kv)).
      rewrite (@dict_get_In _ c d kv Hu Hin) in Hall.
      destruct (dict_get c d' (fst kv)) as [w|]; [exact Hall|destruct Hall].
Qed.

Lemma args_agree_refl (a : option pyval) : args_agree a a.
Proof.
  destruct a as [v|]; cbn; [apply py_eqb_refl|exact Logic.I].
Qed.

Lemma dict_eqb_refl (c : dict_class) (d : list (string * pyval)) :
  dict_unique c d -> dict_eqb c py_eqb d d = true.
Proof.
  intros Hu. apply (dict_eqb_spec Hu Hu). intros key. apply args_agree_refl.
Qed.

(** C10: [==] on elements is decided by the names, the types and the own
    arguments alone.  Two elements are equal exactly when their names are
    equal, their types are equal and their own arguments are the same map;
    so a different name, a different type or one own argument that differs
    or is missing makes them unequal.  The bases play no part: replacing
    them changes nothing, and elements with the same name, type and own
    arguments are equal whatever their bases.  The twins of [twin_heap] are
    equal although their bases give them the lengths 1 and 2 and their
    merged arguments differ. *)
Theorem C10_equality_ignores_base (x y : Element)
        (Hx : dict_unique (eq_class (el_class x) (el_class y)) (el_args x))
        (Hy : dict_unique (eq_class (el_class x) (el_class y)) (el_args y)) :
  (Element_eq x y = true
   <-> stri_eq (el_name x) (el_name y) = true
       /\ stri_eq (el_type x) (el_type y) = true
       /\ same_args x y)
  /\ (forall bx by_, Element_eq (with_base x bx) (with_base y by_) = Element_eq x y)
  /\ (el_name x = el_name y -> el_type x = el_type y -> el_args x = el_args y ->
      forall bx by_, Element_eq (with_base x bx) (with_base y by_) = true)
  /\ (exists a b,
        nth_error twin_heap 2 = Some a /\ nth_error twin_heap 3 = Some b
        /\ Element_eq a b = true
        /\ getitem twin_heap 2%nat "L" = Ok (VInt 1)
        /\ getitem twin_heap 3%nat "L" = Ok (VInt 2)
        /\ all_args twin_heap 2%nat <> all_args twin_heap 3%nat).
Proof.
  assert (Hiff : Element_eq x y = true
                 <-> stri_eq (el_name x) (el_name y) = true
                     /\ stri_eq (el_type x) (el_type y) = true
                     /\ same_args x y).
  { unfold Element_eq, same_args. rewrite !andb_true_iff.
    rewrite (dict_eqb_spec Hx Hy). reflexivity. }
  split; [exact Hiff|].
  split; [intros bx by_; reflexivity|].
  split.
  - intros Hn Ht Ha bx by_.
    change (Element_eq (with_base x bx) (with_base y by_)) with (Element_eq x y).
    apply Hiff. rewrite Hn, Ht. rewrite !stri_eq_refl.
    split; [reflexivity|]. split; [reflexivity|].
    intros key. rewrite Ha. apply args_agree_refl.
  - do 2 eexists. repeat split; try reflexivity. vm_compute. discriminate.
Qed.

Lemma C10_equality_witness :
  Element_eq (mkElement (Some "q") (Some "short") [("K1", VInt 3)] (Some (RElement 0%nat)))
             (mkElement (Some "q") (Some "short") [("K1", VInt 3)] (Some (RElement 1%nat)))
  = true
  /\ (Element_eq (mkElement (Some "q") (Some "short") [("K1", VInt 3)] None)
                 (mkElement (Some "q") (Some "short") [("K1", VInt 4)] None)
      = true -> False).
Proof.
  assert (Hu : forall v : pyval, @dict_unique pyval Odicti [("K1", v)]).
  { intros v. unfold dict_unique. cbn. constructor; [intros []|constructor]. }
  split.
  - exact (proj1 (proj2 (proj2
             (@C10_equality_ignores_base
                (mkElement (Some "q") (Some "short") [("K1", VInt 3)] None)
                (mkElement (Some "q") (Some "short") [("K1", VInt 3)] None)
                (Hu _) (Hu _))))
             eq_refl eq_refl eq_refl (Some (RElement 0%nat)) (Some (RElement 1%nat))).
  - intros Heq.
    destruct (proj1 (proj1
             (@C10_equality_ignores_base
                (mkElement (Some "q") (Some "short") [("K1", VInt 3)] None)
                (mkElement (Some "q") (Some "short") [("K1", VInt 4)] None)
                (Hu _) (Hu _))) Heq) as (_ & _ & Hargs).
    specialize (Hargs "K1"). cbn in Hargs. discriminate.
Defined.

(** ** Reasoning about statements *)

Lemma bind_Ret {A B} (m : M A) (k : A -> M B) (h h' : heap) (b : B) :
  bind m k h = Ret b h' ->
  exists a h1, m h = Ret a h1 /\ k a h1 = Ret b h'.
Proof.
  unfold bind. destruct (m h) as [a h1|e h1]; [|discriminate].
  intros Hk. exists a, h1. split; [reflexivity|exact Hk].
Qed.

Lemma bind_Raise {A B} (m : M A) (k : A -> M B) (h h' : heap) (x : exn) :
  bind m k h = Raise x h' ->
  m h = Raise x h' \/ exists a h1, m h = Ret a h1 /\ k a h1 = Raise x h'.
Proof.
  unfold bind. destruct (m h) as [a h1|e h1].
  - intros Hk. right. exists a, h1. split; [reflexivity|exact Hk].
  - intros [= -> ->]. left. reflexivity.
Qed.

Lemma reading_Ret {A} (f : heap -> result A) (h h' : heap) (a : A) :
  reading f h = Ret a h' -> f h = Ok a /\ h' = h.
Proof.
  unfold reading, lift, ret, raise. destruct (f h); [|discriminate].
  intros [= -> ->]. split; reflexivity.
Qed.

Lemma reading_Raise {A} (f : heap -> result A) (h h' : heap) (x : exn) :
  @reading A f h = Raise x h' -> f h = Err x /\ h' = h.
Proof.
  unfold reading, lift, ret, raise. destruct (f h); [discriminate|].
  intros [= -> ->]. split; reflexivity.
Qed.

Lemma lift_Ret {A} (r : result A) (h h' : heap) (a : A) :
  lift r h = Ret a h' -> r = Ok a /\ h' = h.
Proof.
  unfold lift, ret, raise. destruct r; [|discriminate].
  intros [= -> ->]. split; reflexivity.
Qed.

Lemma lift_Raise {A} (r : result A) (h h' : heap) (x : exn) :
  @lift A r h = Raise x h' -> r = Err x /\ h' = h.
Proof.
  unfold lift, ret, raise. destruct r; [discriminate|].
  intros [= -> ->]. split; reflexivity.
Qed.

Lemma ret_Ret {A} (a b : A) (h h' : heap) :
  ret a h = Ret b h' -> b = a /\ h' = h.
Proof.
  unfold ret. intros [= -> ->]. split; reflexivity.
Qed.

Lemma alloc_Ret (e : Element) (h h' : heap) (l : loc) :
  alloc e h = Ret l h' -> l = List.length h /\ h' = (h ++ [e])%list.
Proof.
  unfold alloc. intros [= <- <-]. split; reflexivity.
Qed.

Lemma modify_Ret (l : loc) (f : Element -> Element) (h h' : heap) (u : unit) :
  modify l f h = Ret u h' ->
  exists e, nth_error h l = Some e /\ h' = update_nth h l (f e).
Proof.
  unfold modify. destruct u. destruct (nth_error h l) as [e|]; [|discriminate].
  intros [= <-]. exists e. split; reflexivity.
Qed.

Lemma modify_Raise (l : loc) (f : Element -> Element) (h h' : heap) (x : exn) :
  modify l f h = Raise x h' -> h' = h.
Proof.
  unfold modify. destruct (nth_error h l) as [e|]; [discriminate|].
  intros [= _ <-]. reflexivity.
Qed.

Lemma update_nth_length (h : heap) (l : loc) (e : Element) :
  List.length (update_nth h l e) = List.length h.
Proof.
  revert l. induction h as [|x h IH]; intros [|l]; cbn; try reflexivity.
  rewrite IH. reflexivity.
Qed.

Lemma nth_error_update_nth_eq (h : heap) (l : loc) (e : Element) :
  (l < List.length h)%nat -> nth_error (update_nth h l e) l = Some e.
Proof.
  revert l. induction h as [|x h IH]; intros [|l] Hl; cbn in *; try lia.
  - reflexivity.
  - apply IH. lia.
Qed.

Lemma nth_error_update_nth_neq (h : heap) (l l' : loc) (e : Element) :
  l' <> l -> nth_error (update_nth h l e) l' = nth_error h l'.
Proof.
  revert l l'. induction h as [|x h IH]; intros [|l] [|l'] Hn; cbn;
    try reflexivity; try congruence.
  apply IH. congruence.
Qed.

Lemma nth_error_alloc_old (h : heap) (e : Element) (l : loc) :
  (l < List.length h)%nat -> nth_error (h ++ [e]) l = nth_error h l.
Proof.
  intros Hl. apply nth_error_app1. exact Hl.
Qed.

Lemma nth_error_alloc_new (h : heap) (e : Element) :
  nth_error (h ++ [e]) (List.length h) = Some e.
Proof.
  rewrite nth_error_app2 by lia. rewrite Nat.sub_diag. reflexivity.
Qed.

(** Take apart a hypothesis that says a sequence of statements returned. *)
Ltac ret_inv H :=
  match type of H with
  | bind _ _ _ = Ret _ _ =>
      let a := fresh "a" in let h1 := fresh "h" in
      let H1 := fresh "Hm" in let H2 := fresh "Hk" in
      apply bind_Ret in H; destruct H as (a & h1 & H1 & H2);
      ret_inv H1; cbv beta in H2
  | reading _ _ = Ret _ _ =>
      let E := fresh "Hr" in
      apply reading_Ret in H; destruct H as [E ->]
  | lift _ _ = Ret _ _ =>
      let E := fresh "Hl" in
      apply lift_Ret in H; destruct H as [E ->]
  | ret _ _ = Ret _ _ =>
      apply ret_Ret in H; destruct H as [-> ->]
  | _ => idtac
  end.

(** ** The default of [refer] *)

Lemma copy_Ret (l s : loc) (h h' : heap) :
  copy l h = Ret s h' ->
  exists e, nth_error h l = Some e /\ s = List.length h /\ h' = h ++ [e].
Proof.
  unfold copy, new_Element. intros Hc. ret_inv Hc.
  apply alloc_Ret in Hk. destruct Hk as [-> ->].
  unfold deref in Hr. destruct (nth_error h l) as [e|]; [|discriminate].
  injection Hr as <-. exists e. destruct e. split; [reflexivity|]. split; reflexivity.
Qed.

Lemma detects_refl (h : heap) : detects h h.
Proof.
  split; [lia|]. intros l e He. rewrite He. left. reflexivity.
Qed.

Lemma detects_trans (h h1 h2 : heap) :
  detects h h1 -> detects h1 h2 -> detects h h2.
Proof.
  intros [Hl1 H1] [Hl2 H2]. split; [lia|].
  intros l e2 He2. specialize (H2 l e2 He2).
  destruct (nth_error h1 l) as [e1|] eqn:He1.
  - specialize (H1 l e1 He1).
    destruct (nth_error h l) as [e|] eqn:He.
    + destruct H2 as [H2|[H2 H2']], H1 as [H1|[H1 H1']].
      * left. congruence.
      * right. split; congruence.
      * right. split; congruence.
      * congruence.
    + unfold none_or_entry in *.
      destruct H2 as [H2|[H2 H2']], H1 as [H1|H1]; try (left; congruence);
        try (right; congruence).
  - destruct (nth_error h l) as [e|] eqn:He; [|exact H2].
    apply nth_error_lt in He. apply nth_error_None in He1. lia.
Qed.

Lemma detects_alloc (h : heap) (e : Element) :
  none_or_entry (own_refer e) -> detects h (h ++ [e]).
Proof.
  intros Hn. split; [rewrite length_app; cbn; lia|].
  intros l e' He'.
  destruct (Nat.lt_ge_cases l (List.length h)) as [Hlt|Hge].
  - rewrite nth_error_alloc_old in He' by exact Hlt. rewrite He'. left. reflexivity.
  - pose proof (proj2 (nth_error_None h l) Hge) as Hnone. rewrite Hnone.
    assert (l = List.length h) as ->.
    { apply nth_error_lt in He'. rewrite length_app in He'. cbn in He'. lia. }
    rewrite nth_error_alloc_new in He'. injection He' as <-. exact Hn.
Qed.

Lemma own_refer_setdefault (e : Element) :
  let e' := set_args e (dict_setdefault (el_class e) (el_args e) "refer" (VStr "entry")) in
  (exists v, own_refer e' = Some v)
  /\ (own_refer e' = own_refer e
      \/ (own_refer e = None /\ own_refer e' = Some (VStr "entry"))).
Proof.
  unfold own_refer, dict_setdefault, dict_mem. cbn [el_class el_args].
  destruct (own e "refer") as [v|] eqn:E.
  - split; [exists v; exact E|left; exact E].
  - rewrite dict_get_set.
    split; [eexists; reflexivity|right; split; reflexivity].
Qed.

Lemma detects_setdefault (h h' : heap) (l : loc) (u : unit) :
  setdefault_refer l h = Ret u h' ->
  detects h h' /\ exists e' v, nth_error h' l = Some e' /\ own_refer e' = Some v.
Proof.
  unfold setdefault_refer. intros Hm. apply modify_Ret in Hm.
  destruct Hm as (e & He & ->).
  pose proof (own_refer_setdefault e) as [[v Hv] Hown]. cbv zeta in Hv, Hown.
  pose proof (nth_error_lt _ _ He) as Hlt.
  split.
  - split; [rewrite update_nth_length; lia|].
    intros l' e' He'. destruct (Nat.eq_dec l' l) as [->|Hne].
    + rewrite nth_error_update_nth_eq in He' by exact Hlt.
      injection He' as <-. rewrite He. exact Hown.
    + rewrite nth_error_update_nth_neq in He' by exact Hne.
      rewrite He'. left. reflexivity.
  - eexists. exists v. split; [apply nth_error_update_nth_eq; exact Hlt|exact Hv].
Qed.

Lemma head_ok_trans (h h1 h2 : heap) (els : list node) :
  detects h h1 -> head_ok h1 h2 els -> head_ok h h2 els.
Proof.
  intros [Hl Hd] (hd & rest & e2 & v & -> & He2 & Hv & Hm).
  exists hd, rest, e2, v. repeat split; try assumption.
  destruct (nth_error h1 hd) as [e1|] eqn:He1.
  - specialize (Hd hd e1 He1).
    destruct (nth_error h hd) as [e|] eqn:He.
    + destruct Hm as [Hm|[Hm ->]], Hd as [Hd|[Hd Hd']].
      * left. congruence.
      * right. split; congruence.
      * right. split; congruence.
      * congruence.
    + unfold none_or_entry in Hd.
      destruct Hm as [Hm|[Hm ->]], Hd as [Hd|Hd]; congruence.
  - destruct (nth_error h hd) as [e|] eqn:He; [|exact Hm].
    apply nth_error_lt in He. apply nth_error_None in He1. lia.
Qed.

Lemma has_refer_detects (h h' : heap) (g : list node) :
  has_refer h g -> detects h h' -> head_ok h h' g.
Proof.
  intros (hd & rest & e & v & -> & He & Hv) [Hl Hd].
  destruct (nth_error h' hd) as [e'|] eqn:He'.
  - exists hd, rest, e', v. specialize (Hd hd e' He'). rewrite He in Hd |- *.
    repeat split; try assumption.
    + destruct Hd as [Hd|[Hd _]]; congruence.
    + left. exact Hv.
  - apply nth_error_lt in He. apply nth_error_None in He'. lia.
Qed.

Lemma has_refer_app (h : heap) (g : list node) (n : node) :
  has_refer h g -> has_refer h (g ++ [n]).
Proof.
  intros (hd & rest & e & v & -> & He & Hv).
  exists hd, (rest ++ [n]), e, v. repeat split; assumption.
Qed.

Lemma line_members_detects (by_name : odicti ref) (elems : list string) :
  forall h h' nodes,
    line_members by_name elems h = Ret nodes h' -> detects h h'.
Proof.
  induction elems as [|el_name rest IH]; intros h h' nodes Hrun; cbn [line_members] in Hrun.
  - ret_inv Hrun. apply detects_refl.
  - ret_inv Hrun. ret_inv Hk. apply alloc_Ret in Hm. destruct Hm as [-> ->].
    ret_inv Hk0. ret_inv Hk.
    eapply detects_trans; [|eapply IH; eassumption].
    apply detects_alloc. left. reflexivity.
Qed.

Lemma detect_scan_heads (inline : bool) (by_name : odicti ref) :
  forall it seq h out h',
    (forall g, seq = Some g -> has_refer h g) ->
    detect_scan inline by_name it seq h = Ret out h' ->
    detects h h'
    /\ forall s, In (DSequence s) out -> head_ok h h' (seq_elements s).
Proof.
  induction it as [|elem rest IH]; intros seq h out h' Hpre Hrun;
    cbn [detect_scan] in Hrun.
  - destruct seq; [discriminate|]. ret_inv Hrun.
    split; [apply detects_refl|intros s []].
  - ret_inv Hrun. rename a into ty. destruct seq as [g|].
    + destruct (stri_is ty "endsequence").
      * ret_inv Hk. ret_inv Hk0.
        destruct (IH None _ _ _ ltac:(discriminate) Hm) as [Hd Hh].
        split; [exact Hd|]. intros s [Hs|Hs].
        -- injection Hs as <-. cbn.
           apply has_refer_detects; [|exact Hd].
           apply has_refer_app. apply Hpre. reflexivity.
        -- apply Hh. exact Hs.
      * eapply IH; [|exact Hk]. intros g' [= <-].
        apply has_refer_app. apply Hpre. reflexivity.
    + destruct (stri_is ty "sequence").
      * destruct elem as [l| |]; try discriminate.
        ret_inv Hk. destruct a.
        apply detects_setdefault in Hm. destruct Hm as [Hd (e' & v & He' & Hv)].
        assert (Hg : forall g, Some [NElement l] = Some g -> has_refer h0 g).
        { intros g [= <-]. exists l, [], e', v. repeat split; assumption. }
        destruct (IH _ _ _ _ Hg Hk0) as [Hd' Hh].
        split; [eapply detects_trans; eassumption|].
        intros s Hs. eapply head_ok_trans; [exact Hd|]. apply Hh. exact Hs.
      * destruct (stri_is ty "line").
        -- ret_inv Hk. rename a into name.
           ret_inv Hk0. apply alloc_Ret in Hm. destruct Hm as [-> ->].
           set (head := Build_Element name (Some "sequence") [("refer", VStr "entry")]
                                      None Dict) in Hk.
           assert (Hd1 : detects h (h ++ [head])).
           { apply detects_alloc. right. reflexivity. }
           destruct elem as [l| |ln elems]; try discriminate.
           ret_inv Hk. ret_inv Hk0. rename a into members.
           assert (Hd2 : detects (h ++ [head]) h0).
           { destruct inline.
             - ret_inv Hm. apply detects_refl.
             - eapply line_members_detects. exact Hm. }
           ret_inv Hk. apply alloc_Ret in Hm0. destruct Hm0 as [-> ->].
           assert (Hd3 : detects h0 (h0 ++ [Build_Element None (Some "endsequence") [] None Dict])).
           { apply detects_alloc. left. reflexivity. }
           ret_inv Hk0.
           match goal with
           | Hret : ret _ _ = Ret _ _ |- _ => ret_inv Hret
           end.
           match goal with
           | Hrec : detect_scan _ _ _ _ _ = Ret _ _ |- _ =>
               destruct (IH None _ _ _ ltac:(discriminate) Hrec) as [Hd4 Hh]
           end.
           pose proof (detects_trans Hd2 (detects_trans Hd3 Hd4)) as Hd24.
           split; [eapply detects_trans; eassumption|].
           intros s [Hs|Hs].
           ++ injection Hs as <-. cbn [seq_elements].
              eapply head_ok_trans; [exact Hd1|].
              apply has_refer_detects; [|exact Hd24].
              exists (List.length h), (members ++ [NElement (List.length h0)]),
                head, (VStr "entry").
              repeat split. apply nth_error_alloc_new.
           ++ eapply head_ok_trans; [eapply detects_trans; [exact Hd1|]|].
              ** eapply detects_trans; [exact Hd2|exact Hd3].
              ** apply Hh. exact Hs.
        -- ret_inv Hk. ret_inv Hk0.
           destruct (IH None _ _ _ ltac:(discriminate) Hm) as [Hd Hh].
           split; [exact Hd|]. intros s [Hs|Hs]; [discriminate|]. apply Hh. exact Hs.
Qed.

Lemma catch_all_init : SequenceTransform_init [] = Ok [catch_all].
Proof. reflexivity. Qed.

Lemma refer_of_entry (h : heap) (hd : loc) (e : Element) :
  nth_error h hd = Some e -> own_refer e = Some (VStr "entry") ->
  refer_of h hd = Ok (VInt 0).
Proof.
  intros He Hv. unfold refer_of, get, getitem. cbn [getitem_fuel].
  rewrite He. unfold own_refer in Hv. rewrite Hv. reflexivity.
Qed.

Lemma transforms_refl (h : heap) (m : nat) : transforms h m h.
Proof.
  split; [reflexivity|]. intros l e He. exists e. repeat split. exact He.
Qed.

(** The call on a sequence whose head has [entry] as its own [refer]:
    the body is transformed under the multiplier 0. *)
Lemma call_with_entry `{PyArith} (ts : list ElementTransform) (defs : odicti loc)
      (s : Sequence) (hd : loc) (ehd : Element) (h h' : heap)
      (r : docnode * odicti loc) :
  seq_head s = Ok (NElement hd) ->
  nth_error h hd = Some ehd ->
  own_refer ehd = Some (VStr "entry") ->
  SequenceTransform_call ts (DSequence s) defs h = Ret r h' ->
  refer_of (h ++ [ehd]) (List.length h) = Ok (VInt 0)
  /\ exists tail templates elements position hb preface,
       transform_body ts defs (VInt 0) (seq_body s) [] [] (VInt 0) (h ++ [ehd])
       = Ret (templates, elements, position) hb
       /\ setitem (List.length h) "L" position hb = Ret tt h'
       /\ r = (DSequence (mkSequence (NElement (List.length h) :: elements ++ [tail])
                                     preface), defs).
Proof.
  intros Hhd Hehd Hown Hrun.
  assert (Hrefer0 : refer_of (h ++ [ehd]) (List.length h) = Ok (VInt 0)).
  { eapply refer_of_entry; [apply nth_error_alloc_new|exact Hown]. }
  split; [exact Hrefer0|].
  cbn [SequenceTransform_call] in Hrun. rewrite Hhd in Hrun.
  apply bind_Ret in Hrun. destruct Hrun as (hn & hx & Hh & Hrun).
  apply lift_Ret in Hh. destruct Hh as [Hh ->]. injection Hh as <-.
  apply bind_Ret in Hrun. destruct Hrun as (head & h1 & Hcopy & Hrun).
  apply copy_Ret in Hcopy. destruct Hcopy as (e0 & He0 & -> & ->).
  rewrite Hehd in He0. injection He0 as <-.
  apply bind_Ret in Hrun. destruct Hrun as (tail & hx & Htail & Hrun).
  apply lift_Ret in Htail. destruct Htail as [Htail ->].
  apply bind_Ret in Hrun. destruct Hrun as (refer & hx & Hrefer & Hrun).
  apply reading_Ret in Hrefer. destruct Hrefer as [Hrefer ->].
  rewrite Hrefer0 in Hrefer. injection Hrefer as <-.
  apply bind_Ret in Hrun.
  destruct Hrun as ([[templates elements] position] & hb & Hbody & Hrun).
  apply bind_Ret in Hrun. destruct Hrun as (u & h3 & Hset & Hrun).
  apply bind_Ret in Hrun. destruct Hrun as (e & hx & Hde & Hrun).
  apply reading_Ret in Hde. destruct Hde as [Hde ->].
  apply ret_Ret in Hrun. destruct Hrun as [Hr Hh3]. subst h3.
  destruct u.
  eexists tail, templates, elements, position, hb, _.
  split; [exact Hbody|]. split; [exact Hset|exact Hr].
Qed.

(** C6: a sequence whose head has no [refer] is transformed under the
    entry convention.  Every sequence the program transforms has passed
    [Sequence.detect], which gives a head without [refer] the argument
    [refer = entry] (the head of an expanded LINE is built with it); the
    elements keep their arguments until [SequenceTransform.__call__]
    reaches the sequence, and the call then reads the multiplier 0 from
    the head and runs the loop over the body with it: the elements of the
    sequence it returns are those the loop emits under the multiplier 0,
    and the length it gives the head is the position that loop ends
    at. *)
Theorem C6_head_without_refer_uses_entry `{PyArith}
        (inline : bool) (input : list node) (h h1 h2 : heap)
        (docs : list docnode) (s : Sequence) (hd : loc)
        (ts : list ElementTransform) (defs : odicti loc)
        (Hdet : detect inline input h = Ret docs h1)
        (Hin : In (DSequence s) docs)
        (Hhd : seq_head s = Ok (NElement hd))
        (Hno : forall e, nth_error h hd = Some e -> own_refer e = None)
        (Hkeep : keeps_content h1 h2) :
  exists ehd,
    nth_error h2 hd = Some ehd
    /\ own_refer ehd = Some (VStr "entry")
    /\ refer_of (h2 ++ [ehd]) (List.length h2) = Ok (VInt 0)
    /\ forall r h3,
         SequenceTransform_call ts (DSequence s) defs h2 = Ret r h3 ->
         exists tail templates elements position hb preface,
           transform_body ts defs (VInt 0) (seq_body s) [] [] (VInt 0) (h2 ++ [ehd])
           = Ret (templates, elements, position) hb
           /\ setitem (List.length h2) "L" position hb = Ret tt h3
           /\ r = (DSequence
                     (mkSequence (NElement (List.length h2) :: elements ++ [tail])
                                 preface), defs).
Proof.
  unfold detect in Hdet. ret_inv Hdet.
  destruct (detect_scan_heads inline _ input (seq := None) ltac:(discriminate) Hk)
    as [_ Hh].
  destruct (Hh s Hin) as (hd' & rest & e1 & v & Hs & He1 & Hv & Hm).
  unfold seq_head in Hhd. rewrite Hs in Hhd. injection Hhd as ->.
  assert (Hv' : v = VStr "entry").
  { destruct (nth_error h hd) as [e|] eqn:He; [|exact Hm].
    destruct Hm as [Hm|[_ Hm]]; [|exact Hm].
    rewrite (Hno e eq_refl) in Hm. discriminate. }
  subst v.
  destruct Hkeep as [_ Hk2]. destruct (Hk2 hd e1 He1) as (ehd & Hehd & _ & _ & Ha & Hc).
  assert (Hown : own_refer ehd = Some (VStr "entry")).
  { unfold own_refer in *. rewrite Ha, Hc. exact Hv. }
  assert (Hhead : seq_head s = Ok (NElement hd)).
  { unfold seq_head. rewrite Hs. reflexivity. }
  exists ehd. split; [exact Hehd|]. split; [exact Hown|].
  split; [eapply refer_of_entry; [apply nth_error_alloc_new|exact Hown]|].
  intros r h3 Hcall.
  exact (proj2 (@call_with_entry _ ts defs s hd ehd h2 h3 r Hhead Hehd Hown Hcall)).
Qed.

Lemma C6_head_without_refer_witness :
  exists h1 h3,
    detect false bare_nodes bare_heap = Ret [DSequence bare_sequence] h1
    /\ SequenceTransform_call [catch_all] (DSequence bare_sequence) [] h1
       = Ret (DSequence (mkSequence [NElement 3%nat; NElement 4%nat; NElement 2%nat] []),
              []) h3
    /\ getitem h3 4%nat "at" = Ok (dec_lit 0 0)
    /\ exists ehd,
         nth_error h1 0%nat = Some ehd
         /\ own_refer ehd = Some (VStr "entry")
         /\ refer_of (h1 ++ [ehd]) (List.length h1) = Ok (VInt 0).
Proof.
  eexists. eexists.
  split; [vm_compute; reflexivity|].
  split; [vm_compute; reflexivity|].
  split; [vm_compute; reflexivity|].
  assert (Hno : forall e, nth_error bare_heap 0%nat = Some e -> own_refer e = None).
  { intros e [= <-]. reflexivity. }
  destruct (@C6_head_without_refer_uses_entry python false bare_nodes bare_heap
              _ _ [DSequence bare_sequence] bare_sequence 0%nat [catch_all] []
              eq_refl (or_introl eq_refl) eq_refl Hno (transforms_refl _ 0%nat))
    as (ehd & Hehd & Hown & Hrefer & _).
  exists ehd. split; [exact Hehd|]. split; [exact Hown|exact Hrefer].
Defined.

(** [SequenceTransform.__call__] by itself reads [centre] where the head
    has no [refer]: on a sequence that has not passed [Sequence.detect] it
    uses the multiplier 1/2 and places the drift of length 2 at 1.0. *)
Lemma call_alone_falls_back_to_centre :
  getitem bare_heap 0%nat "refer" = Err KeyError
  /\ refer_of bare_heap 0%nat = Ok one_half
  /\ exists h',
       SequenceTransform_call [catch_all] (DSequence bare_sequence) [] bare_heap
       = Ret (DSequence (mkSequence [NElement 3%nat; NElement 4%nat; NElement 2%nat] []), []) h'
       /\ getitem h' 4%nat "at" = Ok (dec_lit 10 (-1)).
Proof.
  repeat split; try reflexivity.
  eexists. split; [vm_compute; reflexivity|reflexivity].
Qed.

(** ** Slicing does not touch the elements that exist *)

Lemma keeps_ret (n : nat) {A} (a : A) (Q : A -> Prop) :
  Q a -> keeps n (ret a) Q.
Proof.
  intros Ha h Hn. cbn. repeat split; [lia|exact Ha].
Qed.

Lemma keeps_raise (n : nat) {A} (x : exn) (Q : A -> Prop) :
  keeps n (@raise A x) Q.
Proof.
  intros h Hn. cbn. split; [reflexivity|lia].
Qed.

Lemma keeps_weaken (n : nat) {A} (m : M A) (Q Q' : A -> Prop) :
  keeps n m Q -> (forall a, Q a -> Q' a) -> keeps n m Q'.
Proof.
  intros Hm HQ h Hn. specialize (Hm h Hn).
  destruct (m h) as [a h'|x h']; [|exact Hm].
  destruct Hm as (H1 & H2 & H3). repeat split; auto.
Qed.

Lemma keeps_bind (n : nat) {A B} (m : M A) (k : A -> M B)
      (Q : A -> Prop) (R : B -> Prop) :
  keeps n m Q -> (forall a, Q a -> keeps n (k a) R) -> keeps n (bind m k) R.
Proof.
  intros Hm Hk h Hn. unfold bind. specialize (Hm h Hn).
  destruct (m h) as [a h1|x h1]; [|exact Hm].
  destruct Hm as (H1 & H2 & H3).
  specialize (Hk a H3 h1 ltac:(lia)).
  destruct (k a h1) as [b h2|x h2].
  - destruct Hk as (K1 & K2 & K3). repeat split; [congruence|lia|exact K3].
  - destruct Hk as (K1 & K2). split; [congruence|lia].
Qed.

Lemma keeps_lift (n : nat) {A} (r : result A) :
  keeps n (lift r) (fun _ => True).
Proof.
  destruct r; [apply keeps_ret; exact I|apply keeps_raise].
Qed.

Lemma keeps_reading (n : nat) {A} (f : heap -> result A) :
  keeps n (reading f) (fun _ => True).
Proof.
  intros h Hn. unfold reading. destruct (f h); cbn; repeat split; lia.
Qed.

Lemma keeps_bind_reading (n : nat) {A B} (f : heap -> result A)
      (k : A -> M B) (R : B -> Prop) :
  (forall a, keeps n (k a) R) -> keeps n (bind (reading f) k) R.
Proof.
  intros Hk. eapply keeps_bind; [apply keeps_reading|]. intros a _. apply Hk.
Qed.

Lemma keeps_bind_lift (n : nat) {A B} (r : result A)
      (k : A -> M B) (R : B -> Prop) :
  (forall a, keeps n (k a) R) -> keeps n (bind (lift r) k) R.
Proof.
  intros Hk. eapply keeps_bind; [apply keeps_lift|]. intros a _. apply Hk.
Qed.

Lemma firstn_app_le {A} (n : nat) (h t : list A) :
  (n <= List.length h)%nat -> firstn n (h ++ t) = firstn n h.
Proof.
  intros Hn. rewrite firstn_app.
  replace (n - List.length h)%nat with 0%nat by lia.
  cbn. apply app_nil_r.
Qed.

Lemma firstn_update_nth (n : nat) (h : heap) (l : loc) (e : Element) :
  (n <= l)%nat -> firstn n (update_nth h l e) = firstn n h.
Proof.
  revert n l. induction h as [|x h IH]; intros n l Hn; [destruct l; reflexivity|].
  destruct l as [|l].
  - assert (n = 0)%nat as -> by lia. reflexivity.
  - destruct n as [|n]; [reflexivity|]. cbn. f_equal. apply IH. lia.
Qed.

Lemma keeps_alloc (n : nat) (e : Element) :
  keeps n (alloc e) (fun l => (n <= l)%nat).
Proof.
  intros h Hn. cbn. repeat split.
  - apply firstn_app_le. exact Hn.
  - rewrite length_app. lia.
  - exact Hn.
Qed.

Lemma keeps_modify (n : nat) (l : loc) (f : Element -> Element) :
  (n <= l)%nat -> keeps n (modify l f) (fun _ => True).
Proof.
  intros Hl h Hn. unfold modify. destruct (nth_error h l) as [e|].
  - repeat split; [apply firstn_update_nth; exact Hl|rewrite update_nth_length; lia].
  - split; [reflexivity|lia].
Qed.

Lemma keeps_bind_modify (n : nat) {B} (l : loc) (f : Element -> Element)
      (k : unit -> M B) (R : B -> Prop) :
  (n <= l)%nat -> (forall u, keeps n (k u) R) -> keeps n (bind (modify l f) k) R.
Proof.
  intros Hl Hk. eapply keeps_bind; [apply keeps_modify; exact Hl|].
  intros a _. apply Hk.
Qed.

Lemma keeps_copy (n : nat) (l : loc) :
  keeps n (copy l) (fun l' => (n <= l')%nat).
Proof.
  unfold copy. apply keeps_bind_reading. intros e. apply keeps_alloc.
Qed.

Lemma keeps_delitem (n : nat) (l : loc) (key : string) :
  (n <= l)%nat -> keeps n (delitem l key) (fun _ => True).
Proof.
  intros Hl. unfold delitem. apply keeps_bind_reading. intros e.
  destruct (dict_mem (el_class e) (el_args e) key); [apply keeps_modify; exact Hl|apply keeps_raise].
Qed.

Lemma keeps_pop (n : nat) (l : loc) (key : string) (default : option pyval) :
  (n <= l)%nat -> keeps n (pop l key default) (fun _ => True).
Proof.
  intros Hl. unfold pop. apply keeps_bind_reading. intros e.
  destruct (own e key) as [v|].
  - apply keeps_bind_modify; [exact Hl|]. intros _. apply keeps_ret. exact I.
  - intros h Hn.
    destruct (match el_base e with
              | Some (RElement b) => getitem h b key
              | _ => Err TypeError
              end) as [v|x] eqn:E.
    + repeat split; lia.
    + destruct x; try (split; [reflexivity|lia]);
        destruct default; cbn; repeat split; lia.
Qed.

Lemma keeps_bind_assoc (n : nat) {A B C} (m : M A) (k : A -> M B)
      (k' : B -> M C) (R : C -> Prop) :
  keeps n (bind m (fun a => bind (k a) k')) R -> keeps n (bind (bind m k) k') R.
Proof.
  intros Hm h Hn. specialize (Hm h Hn). unfold bind in *.
  destruct (m h) as [a h1|x h1]; exact Hm.
Qed.

Lemma keeps_bind_ret (n : nat) {A B} (a : A) (k : A -> M B) (R : B -> Prop) :
  keeps n (k a) R -> keeps n (bind (ret a) k) R.
Proof.
  intros Hk h Hn. exact (Hk h Hn).
Qed.

Lemma keeps_bind_raise (n : nat) {A B} (x : exn) (k : A -> M B) (R : B -> Prop) :
  keeps n (bind (raise x) k) R.
Proof.
  intros h Hn. cbn. split; [reflexivity|lia].
Qed.

Local Opaque keeps.

Ltac keeps_step :=
  match goal with
  | |- keeps _ (bind (bind _ _) _) _ => apply keeps_bind_assoc
  | |- keeps _ (bind (reading _) _) _ => apply keeps_bind_reading; intros ?
  | |- keeps _ (bind (lift _) _) _ => apply keeps_bind_lift; intros ?
  | |- keeps _ (bind (modify _ _) _) _ =>
      apply keeps_bind_modify; [assumption|intros ?]
  | |- keeps _ (bind (pop _ _ _) _) _ =>
      eapply keeps_bind; [apply keeps_pop; assumption|intros ? _]
  | |- keeps _ (bind (delitem _ _) _) _ =>
      eapply keeps_bind; [apply keeps_delitem; assumption|intros ? _]
  | |- keeps _ (modify _ _) _ => apply keeps_modify; assumption
  | |- keeps _ (delitem _ _) _ => apply keeps_delitem; assumption
  | |- keeps _ (bind (ret _) _) _ => apply keeps_bind_ret
  | |- keeps _ (bind (raise _) _) _ => apply keeps_bind_raise
  | |- keeps _ (raise _) _ => apply keeps_raise
  | |- keeps _ (lift _) _ => apply keeps_lift
  | |- keeps _ (ret _) (fun _ => True) => apply keeps_ret; exact I
  | |- keeps _ (if ?b then _ else _) _ => destruct b
  | |- keeps _ (bind (if ?b then _ else _) _) _ => destruct b
  | |- keeps _ (match ?x with _ => _ end) _ => destruct x
  | |- keeps _ (bind (match ?x with _ => _ end) _) _ => destruct x
  end.

Section Frame.
Context `{PyArith}.

Lemma keeps_strength (n : nat) (elem : loc) (k1 k2 : string) (ratio : pyval) :
  keeps n (strength elem k1 k2 ratio) (fun _ => True).
Proof.
  unfold strength. repeat keeps_step.
Qed.

Ltac keeps_run :=
  repeat first
    [ keeps_step
    | match goal with
      | |- keeps _ (bind (strength _ _ _ _) _) _ =>
          eapply keeps_bind; [apply keeps_strength|intros ? _]
      | |- keeps _ (ret _) (same_or_new _ _) =>
          apply keeps_ret; first [left; reflexivity|right; assumption]
      end ].

Lemma keeps_rescale_thick (n : nat) (elem : loc) (ratio : pyval) :
  keeps n (rescale_thick elem ratio) (same_or_new n elem).
Proof.
  unfold rescale_thick, setitem.
  destruct (py_eqb ratio (VInt 1)); [apply keeps_ret; left; reflexivity|].
  eapply keeps_bind; [apply keeps_copy|]. intros scaled Hs. cbv beta in Hs.
  keeps_run.
Qed.

Lemma keeps_rescale_makethin (n : nat) (elem : loc) (ratio : pyval) :
  keeps n (rescale_makethin elem ratio) (same_or_new n elem).
Proof.
  unfold rescale_makethin, setitem.
  apply keeps_bind_reading. intros bt.
  destruct (negb _); [apply keeps_ret; left; reflexivity|].
  destruct (stri_is bt "solenoid").
  - eapply keeps_bind; [apply keeps_copy|]. intros e1 He1. cbv beta in He1.
    keeps_run.
  - apply keeps_bind_reading. intros e. apply keeps_bind_reading. intros args.
    eapply keeps_bind; [apply keeps_alloc|]. intros e1 He1. cbv beta in He1.
    keeps_run.
Qed.

Lemma keeps_stripelem (n : nat) (t : ElementTransform) (elem scaled : loc) :
  same_or_new n elem scaled ->
  keeps n (stripelem t scaled) (same_or_new n elem).
Proof.
  intros Hs. unfold stripelem. destruct (t_template t).
  - apply keeps_bind_reading. intros e.
    eapply keeps_weaken; [apply keeps_alloc|]. intros l Hl. right. exact Hl.
  - apply keeps_ret. exact Hs.
Qed.

Lemma keeps_slice (n : nat) (t : ElementTransform) (elem : loc)
      (offset refer : pyval) :
  keeps n (slice t elem offset refer) (slice_post n elem).
Proof.
  unfold slice. repeat keeps_step.
  eapply keeps_bind.
  { unfold rescale. destruct (t_makethin t);
      [apply keeps_rescale_makethin|apply keeps_rescale_thick]. }
  intros scaled Hs.
  eapply keeps_bind; [apply keeps_stripelem; exact Hs|].
  intros stripped Hst. apply keeps_bind_lift. intros exit_.
  apply keeps_ret. split; [|exact Hst].
  unfold maketempl. destruct (t_template t); intros x Hx; [|destruct Hx].
  destruct Hx as [<-|[]]. exact Hs.
Qed.

Lemma keeps_uniform_slices (n : nat) (g : generator) :
  forall k idx,
    keeps n (uniform_slices k idx g) (fun nodes => Forall (new_node n) nodes).
Proof.
  induction k as [|k IH]; intros idx; cbn [uniform_slices].
  - apply keeps_ret. constructor.
  - eapply keeps_bind; [apply keeps_copy|]. intros sl Hsl. cbv beta in Hsl.
    unfold setitem, set_name. repeat keeps_step;
      (eapply keeps_bind; [apply IH|]; intros rest Hrest;
       apply keeps_ret; constructor; [exact Hsl|exact Hrest]).
Qed.

Lemma keeps_consume (n : nat) (g : generator) :
  keeps n (consume g) (fun nodes => Forall (new_node n) nodes).
Proof.
  unfold consume. destruct (g_style g).
  - apply keeps_uniform_slices.
  - unfold uniform_slice_loop, setitem, set_name.
    eapply keeps_bind; [apply keeps_copy|]. intros sl Hsl. cbv beta in Hsl.
    repeat keeps_step. apply keeps_ret.
    repeat constructor. exact Hsl.
Qed.

End Frame.

Local Transparent keeps.

Lemma firstn_keeps_elem (h h' : heap) (l : loc) (e : Element) :
  firstn (List.length h) h' = h -> nth_error h l = Some e ->
  nth_error h' l = Some e.
Proof.
  intros Hf He. pose proof (nth_error_lt _ _ He) as Hlt.
  rewrite <- Hf in He. rewrite nth_error_firstn in He.
  apply Nat.ltb_lt in Hlt. rewrite Hlt in He. exact He.
Qed.

(** C9 (as the code has it): [slice], and the run of the generator it
    returns, leave every element that existed before the call unchanged --
    the input element in particular keeps its name, type, arguments and
    base -- whether they return or raise; every emitted slice is a newly
    constructed element; an emitted template is a newly constructed element
    or the input element itself. *)
Theorem C9_slice_leaves_elements_unchanged `{PyArith}
        (t : ElementTransform) (elem : loc) (offset refer : pyval) (h : heap) :
  match slice t elem offset refer h with
  | Raise _ h1 =>
      firstn (List.length h) h1 = h
      /\ forall e, nth_error h elem = Some e -> nth_error h1 elem = Some e
  | Ret (templ, g, _) h1 =>
      firstn (List.length h) h1 = h
      /\ (forall e, nth_error h elem = Some e -> nth_error h1 elem = Some e)
      /\ (forall x, In x templ -> same_or_new (List.length h) elem x)
      /\ match consume g h1 with
         | Raise _ h2 =>
             firstn (List.length h) h2 = h
             /\ forall e, nth_error h elem = Some e -> nth_error h2 elem = Some e
         | Ret nodes h2 =>
             firstn (List.length h) h2 = h
             /\ (forall e, nth_error h elem = Some e -> nth_error h2 elem = Some e)
             /\ Forall (new_node (List.length h)) nodes
         end
  end.
Proof.
  pose proof (@keeps_slice _ (List.length h) t elem offset refer h (le_n _)) as Hs.
  rewrite firstn_all in Hs.
  destruct (slice t elem offset refer h) as [[[templ g] exit_] h1|x h1].
  - destruct Hs as (Hf & Hlen & Htempl & _).
    split; [exact Hf|]. split; [intros e; apply firstn_keeps_elem; exact Hf|].
    split; [exact Htempl|].
    pose proof (@keeps_consume _ (List.length h) g h1 Hlen) as Hc.
    rewrite Hf in Hc.
    destruct (consume g h1) as [nodes h2|x h2].
    + destruct Hc as (Hf2 & _ & Hn).
      split; [exact Hf2|]. split; [intros e; apply firstn_keeps_elem; exact Hf2|exact Hn].
    + destruct Hc as (Hf2 & _).
      split; [exact Hf2|intros e; apply firstn_keeps_elem; exact Hf2].
  - destruct Hs as (Hf & _).
    split; [exact Hf|intros e; apply firstn_keeps_elem; exact Hf].
Qed.

Lemma C9_slice_witness :
  nth_error [mkElement (Some "D") (Some "DRIFT") [("L", VInt 1)] None;
             mkElement None (Some "D") [] (Some (RElement 0%nat));
             mkElement None (Some "D") [("at", dec_lit 0 0)] (Some (RElement 0%nat))]
            0 = Some (mkElement (Some "D") (Some "DRIFT") [("L", VInt 1)] None).
Proof.
  pose proof (@C9_slice_leaves_elements_unchanged python template_rule 0%nat
                (VInt 0) (VInt 0) drift_heap) as Hw.
  cbv in Hw. destruct Hw as (_ & _ & _ & _ & Hw & _).
  exact (Hw _ eq_refl).
Defined.

(** C9 as stated fails on the templates: with a rule that emits templates
    and keeps the slice count 1, the template handed out is the input
    element itself (location 0, which existed before the call), not a
    clone. *)
Lemma C9_counterexample_template_is_input :
  exists g exit_ h1,
    slice template_rule 0%nat (VInt 0) (VInt 0) drift_heap = Ret ([0%nat], g, exit_) h1
    /\ ~ (forall x, In x [0%nat] -> (List.length drift_heap <= x)%nat).
Proof.
  do 3 eexists. split; [vm_compute; reflexivity|].
  intros Hall. specialize (Hall 0%nat (or_introl eq_refl)). cbn in Hall. lia.
Qed.

(** ** Invariants maintained by the rescalers *)

Section Holds.
Variable I : heap -> Prop.
Hypothesis I_stable : stable I.

Lemma holds_ret {A} (a : A) (Q : A -> Prop) : Q a -> holds I (ret a) Q.
Proof.
  intros Ha h Hi. cbn. split; assumption.
Qed.

Lemma holds_raise {A} (x : exn) (Q : A -> Prop) : holds I (@raise A x) Q.
Proof.
  intros h Hi. exact Logic.I.
Qed.

Lemma holds_bind {A B} (m : M A) (k : A -> M B) (Q : A -> Prop) (R : B -> Prop) :
  holds I m Q -> (forall a, Q a -> holds I (k a) R) -> holds I (bind m k) R.
Proof.
  intros Hm Hk h Hi. unfold bind. specialize (Hm h Hi).
  destruct (m h) as [a h1|x h1]; [|exact Logic.I].
  destruct Hm as [Hi1 Ha]. exact (Hk a Ha h1 Hi1).
Qed.

Lemma holds_bind_assoc {A B C} (m : M A) (k : A -> M B) (k' : B -> M C)
      (R : C -> Prop) :
  holds I (bind m (fun a => bind (k a) k')) R -> holds I (bind (bind m k) k') R.
Proof.
  intros Hm h Hi. specialize (Hm h Hi). unfold bind in *.
  destruct (m h) as [a h1|x h1]; exact Hm.
Qed.

Lemma holds_bind_ret {A B} (a : A) (k : A -> M B) (R : B -> Prop) :
  holds I (k a) R -> holds I (bind (ret a) k) R.
Proof.
  intros Hk h Hi. exact (Hk h Hi).
Qed.

Lemma holds_bind_raise {A B} (x : exn) (k : A -> M B) (R : B -> Prop) :
  holds I (bind (raise x) k) R.
Proof.
  intros h Hi. exact Logic.I.
Qed.

Lemma holds_lift {A} (r : result A) : holds I (lift r) (fun _ => True).
Proof.
  destruct r; [apply holds_ret; exact Logic.I|apply holds_raise].
Qed.

Lemma holds_reading {A} (f : heap -> result A) : holds I (reading f) (fun _ => True).
Proof.
  intros h Hi. unfold reading. destruct (f h); cbn; [split; [exact Hi|]|]; exact Logic.I.
Qed.

Lemma holds_bind_reading {A B} (f : heap -> result A) (k : A -> M B) (R : B -> Prop) :
  (forall a, holds I (k a) R) -> holds I (bind (reading f) k) R.
Proof.
  intros Hk. eapply holds_bind; [apply holds_reading|]. intros a _. apply Hk.
Qed.

Lemma holds_bind_lift {A B} (r : result A) (k : A -> M B) (R : B -> Prop) :
  (forall a, holds I (k a) R) -> holds I (bind (lift r) k) R.
Proof.
  intros Hk. eapply holds_bind; [apply holds_lift|]. intros a _. apply Hk.
Qed.

Lemma holds_alloc (e : Element) : holds I (alloc e) (fun _ => True).
Proof.
  intros h Hi. cbn. split; [apply (proj1 I_stable); exact Hi|exact Logic.I].
Qed.

Lemma holds_with_args (l : loc) (g : Element -> list (string * pyval)) :
  holds I (modify l (fun e => set_args e (g e))) (fun _ => True).
Proof.
  intros h Hi. unfold modify. destruct (nth_error h l) as [e|] eqn:He; [|exact Logic.I].
  split; [|exact Logic.I].
  change (set_args e (g e)) with (with_args (fun _ => g e) e).
  apply (proj2 I_stable); assumption.
Qed.

Lemma holds_setitem (l : loc) (key : string) (val : pyval) :
  holds I (setitem l key val) (fun _ => True).
Proof.
  exact (holds_with_args l (fun e => dict_set (el_class e) (el_args e) key val)).
Qed.

Lemma holds_delitem (l : loc) (key : string) :
  holds I (delitem l key) (fun _ => True).
Proof.
  unfold delitem. apply holds_bind_reading. intros e.
  destruct (dict_mem (el_class e) (el_args e) key); [|apply holds_raise].
  exact (holds_with_args l (fun e => dict_del (el_class e) (el_args e) key)).
Qed.

Lemma holds_pop (l : loc) (key : string) (default : option pyval) :
  holds I (pop l key default) (fun _ => True).
Proof.
  unfold pop. apply holds_bind_reading. intros e.
  destruct (own e key) as [v|].
  - eapply holds_bind;
      [exact (holds_with_args l (fun e => dict_del (el_class e) (el_args e) key))|].
    intros _ _. apply holds_ret. exact Logic.I.
  - intros h Hi.
    destruct (match el_base e with
              | Some (RElement b) => getitem h b key
              | _ => Err TypeError
              end) as [v|x] eqn:E.
    + split; [exact Hi|exact Logic.I].
    + destruct x; destruct default; cbn;
        first [exact Logic.I|split; [exact Hi|exact Logic.I]].
Qed.

Lemma holds_copy (l : loc) : holds I (copy l) (fun _ => True).
Proof.
  unfold copy. apply holds_bind_reading. intros e. apply holds_alloc.
Qed.

End Holds.

Ltac holds_step St :=
  match goal with
  | |- holds _ (bind (bind _ _) _) _ => apply holds_bind_assoc
  | |- holds _ (bind (reading _) _) _ => apply holds_bind_reading; intros ?
  | |- holds _ (bind (lift _) _) _ => apply holds_bind_lift; intros ?
  | |- holds _ (bind (setitem _ _ _) _) _ =>
      eapply holds_bind; [apply (holds_setitem St)|intros ? _]
  | |- holds _ (bind (pop _ _ _) _) _ =>
      eapply holds_bind; [apply (holds_pop St)|intros ? _]
  | |- holds _ (bind (delitem _ _) _) _ =>
      eapply holds_bind; [apply (holds_delitem St)|intros ? _]
  | |- holds _ (bind (copy _) _) _ =>
      eapply holds_bind; [apply (holds_copy St)|intros ? _]
  | |- holds _ (bind (new_Element _ _ _ _ _) _) _ =>
      eapply holds_bind; [apply (holds_alloc St)|intros ? _]
  | |- holds _ (setitem _ _ _) _ => apply (holds_setitem St)
  | |- holds _ (delitem _ _) _ => apply (holds_delitem St)
  | |- holds _ (bind (ret _) _) _ => apply holds_bind_ret
  | |- holds _ (bind (raise _) _) _ => apply holds_bind_raise
  | |- holds _ (raise _) _ => apply holds_raise
  | |- holds _ (lift _) _ => apply holds_lift
  | |- holds _ (ret _) (fun _ => True) => apply holds_ret; exact Logic.I
  | |- holds _ (if ?b then _ else _) _ => destruct b
  | |- holds _ (bind (if ?b then _ else _) _) _ => destruct b
  | |- holds _ (match ?x with _ => _ end) _ => destruct x
  | |- holds _ (bind (match ?x with _ => _ end) _) _ => destruct x
  end.

Lemma named_stable (l : loc) (nm : option string) : stable (named l nm).
Proof.
  split.
  - intros h e (e0 & He0 & Hn). exists e0. split; [|exact Hn].
    rewrite nth_error_alloc_old; [exact He0|]. eapply nth_error_lt. exact He0.
  - intros h l' e g (e0 & He0 & Hn) He.
    destruct (Nat.eq_dec l l') as [<-|Hne].
    + exists (with_args g e). split.
      * apply nth_error_update_nth_eq. eapply nth_error_lt. exact He0.
      * cbn. congruence.
    + exists e0. split; [|exact Hn].
      rewrite nth_error_update_nth_neq by exact Hne. exact He0.
Qed.

Section Names.
Context `{PyArith}.
Variable I : heap -> Prop.
Hypothesis I_stable : stable I.

Lemma holds_strength (elem : loc) (k1 k2 : string) (ratio : pyval) :
  holds I (strength elem k1 k2 ratio) (fun _ => True).
Proof.
  unfold strength. repeat holds_step I_stable.
Qed.

Ltac holds_run :=
  repeat first
    [ holds_step I_stable
    | match goal with
      | |- holds _ (bind (strength _ _ _ _) _) _ =>
          eapply holds_bind; [apply holds_strength|intros ? _]
      | |- holds _ (ret ?a) (fun r => r = ?a) => apply holds_ret; reflexivity
      end ].

(** After the copy, [rescale_thick] only sets arguments of the copy. *)
Lemma holds_thick_rest (elem scaled : loc) (ratio : pyval) :
  holds I
    (l <- reading (fun h => getitem h elem "L") ;;
     v <- lift (py_binop Mul l ratio) ;;
     setitem scaled "L" v ;;;
     bt <- reading (fun h => base_type h scaled) ;;
     (if stri_is bt "sbend"
      then (a <- reading (fun h => getitem h scaled "angle") ;;
            v <- lift (py_binop Mul a ratio) ;;
            setitem scaled "angle" v)
      else ret tt) ;;;
     ret scaled)%py
    (fun r => r = scaled).
Proof.
  holds_run.
Qed.

(** After the solenoid's copy. *)
Lemma holds_solenoid_rest (elem : loc) (ratio : pyval) :
  holds I
    (v <- strength elem "KS" "L" ratio ;;
     setitem elem "ksi" v ;;;
     l <- reading (fun h => getitem h elem "L") ;;
     v <- lift (py_binop Mul l ratio) ;;
     setitem elem "lrad" v ;;;
     setitem elem "L" (VInt 0) ;;;
     ret elem)%py
    (fun r => r = elem).
Proof.
  holds_run.
Qed.

(** After the multipole is constructed. *)
Lemma holds_multipole_rest (elem : loc) (ratio : pyval) (bt : option string) :
  holds I
    ((if stri_is bt "sbend" then
        a <- pop elem "angle" None ;;
        v <- lift (py_binop Mul a ratio) ;;
        setitem elem "KNL" (VList [v]) ;;;
        _ <- pop elem "HGAP" (Some VNone) ;;
        ret tt
      else if stri_is bt "quadrupole" then
        has1 <- reading (fun h => contains h elem "K1") ;;
        (if has1 : bool then
           v <- strength elem "K1" "L" ratio ;;
           setitem elem "KNL" (VList [VInt 0; v]) ;;;
           delitem elem "K1"
         else ret tt) ;;;
        has1s <- reading (fun h => contains h elem "K1S") ;;
        (if has1s : bool then
           v <- strength elem "K1S" "L" ratio ;;
           setitem elem "KSL" (VList [VInt 0; v]) ;;;
           delitem elem "K1S"
         else ret tt)
      else ret tt) ;;;
     hasL <- reading (fun h => contains h elem "L") ;;
     (if hasL : bool then
        l <- pop elem "L" None ;;
        v <- lift (py_binop Mul l ratio) ;;
        setitem elem "lrad" v
      else ret tt) ;;;
     ret elem)%py
    (fun r => r = elem).
Proof.
  holds_run.
Qed.

End Names.

Lemma holds_Ret (I : heap -> Prop) {A} (m : M A) (Q : A -> Prop)
      (h h' : heap) (a : A) :
  holds I m Q -> I h -> m h = Ret a h' -> I h' /\ Q a.
Proof.
  intros Hm Hi Hr. specialize (Hm h Hi). rewrite Hr in Hm. exact Hm.
Qed.

Lemma named_alloc_new (h : heap) (e : Element) :
  named (List.length h) (el_name e) (h ++ [e]).
Proof.
  exists e. split; [apply nth_error_alloc_new|reflexivity].
Qed.

Section RescaleNames.
Context `{PyArith}.

(** The rescaled element carries the name of the input element. *)
Lemma rescale_named (t : ElementTransform) (elem s : loc) (ratio : pyval)
      (h h' : heap) (nm : option string) :
  named elem nm h -> rescale t elem ratio h = Ret s h' -> named s nm h'.
Proof.
  intros Hn Hr. unfold rescale in Hr. destruct (t_makethin t).
  - unfold rescale_makethin in Hr. ret_inv Hr. rename a into bt.
    destruct (negb _); [ret_inv Hk; exact Hn|].
    destruct (stri_is bt "solenoid").
    + apply bind_Ret in Hk. destruct Hk as (s1 & h1 & Hc & Hk).
      apply copy_Ret in Hc. destruct Hc as (e & He & -> & ->).
      destruct Hn as (e0 & He0 & <-).
      assert (e0 = e) as -> by congruence.
      destruct (@holds_Ret _ _ _ _ _ _ _ (holds_solenoid_rest (named_stable _ _) (List.length h) ratio)
                          (named_alloc_new h e) Hk) as [Hn' ->].
      exact Hn'.
    + destruct Hn as (e0 & He0 & <-).
      ret_inv Hk.
      match goal with
      | Hd : deref h elem = Ok ?x |- _ =>
          unfold deref in Hd; rewrite He0 in Hd; injection Hd as <-
      end.
      match goal with
      | Hb : bind (reading _) _ _ = Ret _ _ |- _ => ret_inv Hb
      end.
      match goal with
      | Hb : bind (new_Element _ _ _ ?args _) _ _ = Ret _ _ |- _ =>
          apply bind_Ret in Hb; destruct Hb as (s1 & h1 & Hc & Hb);
          apply alloc_Ret in Hc; destruct Hc as [-> ->];
          destruct (@holds_Ret _ _ _ _ _ _ _
                      (holds_multipole_rest (named_stable _ _) (List.length h) ratio bt)
                      (named_alloc_new h (mkElement (el_name e0) (Some "multipole") args None))
                      Hb) as [Hn' ->]
      end.
      exact Hn'.
  - unfold rescale_thick in Hr.
    destruct (py_eqb ratio (VInt 1)); [ret_inv Hr; exact Hn|].
    apply bind_Ret in Hr. destruct Hr as (s1 & h1 & Hc & Hk).
    apply copy_Ret in Hc. destruct Hc as (e & He & -> & ->).
    destruct Hn as (e0 & He0 & <-).
    assert (e0 = e) as -> by congruence.
    destruct (@holds_Ret _ _ _ _ _ _ _ (holds_thick_rest (named_stable _ _) elem (List.length h) ratio)
                        (named_alloc_new h e) Hk) as [Hn' ->].
    exact Hn'.
Qed.

End RescaleNames.

(** ** What [slice] computes *)

Section SliceSpec.
Context `{PyArith}.

Lemma slice_Ret (t : ElementTransform) (elem : loc) (offset refer : pyval)
      (h h1 : heap) (templ : list loc) (g : generator) (exit_ : pyval) :
  slice t elem offset refer h = Ret (templ, g, exit_) h1 ->
  exists L pos n d slice_len num_d ratio scaled hs,
    get h elem "L" (VInt 0) = Ok L
    /\ get_position t h elem L offset refer = Ok pos
    /\ get_slice_num t L = Ok n
    /\ to_Decimal L = Ok d
    /\ py_binop Div d (VInt (or_one n)) = Ok slice_len
    /\ to_Decimal (VInt (or_one n)) = Ok num_d
    /\ py_binop Div (VInt 1) num_d = Ok ratio
    /\ rescale t elem ratio h = Ret scaled hs
    /\ stripelem t scaled hs = Ret (g_elem g) h1
    /\ templ = maketempl t scaled
    /\ g = mkGenerator (t_style t) (g_elem g) pos refer (or_one n) slice_len
    /\ py_binop Add pos L = Ok exit_.
Proof.
  unfold slice. intros Hs.
  ret_inv Hs. ret_inv Hk. ret_inv Hk0. ret_inv Hk. ret_inv Hk0. ret_inv Hk.
  ret_inv Hk0.
  apply bind_Ret in Hk. destruct Hk as (scaled & hs & Hresc & Hk).
  apply bind_Ret in Hk. destruct Hk as (stripped & h2 & Hstrip & Hk).
  apply bind_Ret in Hk. destruct Hk as (ex & h3 & Hex & Hk).
  ret_inv Hex. apply ret_Ret in Hk. destruct Hk as [Hp ->].
  injection Hp as -> -> ->. cbn [g_elem].
  do 9 eexists. repeat split; try eassumption; reflexivity.
Qed.

End SliceSpec.

Lemma update_nth_app_last (h : heap) (e e' : Element) :
  update_nth (h ++ [e]) (List.length h) e' = h ++ [e'].
Proof.
  induction h as [|x h IH]; cbn; [reflexivity|]. rewrite IH. reflexivity.
Qed.

Lemma setitem_last (h h' : heap) (e : Element) (key : string) (v : pyval) (u : unit) :
  setitem (List.length h) key v (h ++ [e]) = Ret u h' ->
  h' = h ++ [set_args e (dict_set (el_class e) (el_args e) key v)].
Proof.
  unfold setitem. intros Hm. apply modify_Ret in Hm.
  destruct Hm as (e0 & He0 & ->). rewrite nth_error_alloc_new in He0.
  injection He0 as <-. apply update_nth_app_last.
Qed.

Lemma set_name_last (h h' : heap) (e : Element) (nm : option string) (u : unit) :
  set_name (List.length h) nm (h ++ [e]) = Ret u h' ->
  h' = h ++ [Build_Element nm (el_type e) (el_args e) (el_base e) (el_class e)].
Proof.
  unfold set_name. intros Hm. apply modify_Ret in Hm.
  destruct Hm as (e0 & He0 & ->). rewrite nth_error_alloc_new in He0.
  injection He0 as <-. apply update_nth_app_last.
Qed.

Section UniformSpec.
Context `{PyArith}.

(** One turn of the loop of [uniform_slice_distribution]. *)
Lemma uniform_turn (g : generator) (src : Element) (idx : Z) (h h3 : heap)
      (k : loc -> M (list node)) (nodes : list node) :
  nth_error h (g_elem g) = Some src ->
  (slice <- copy (g_elem g) ;;
   at_ <- lift (slice_at (g_offset g) (VInt idx) (g_refer g) (g_slice_len g)) ;;
   setitem slice "at" at_ ;;;
   s <- reading (fun h => deref h slice) ;;
   (if andb (truthy_str (el_name s)) (1 <? g_slice_num g)
    then (e <- reading (fun h => deref h (g_elem g)) ;;
          match el_name e with
          | Some name => set_name slice (Some (name ++ ".." ++ str_int idx)%string)
          | None => raise TypeError
          end)
    else ret tt) ;;;
   k slice)%py h = Ret nodes h3 ->
  exists at_,
    slice_at (g_offset g) (VInt idx) (g_refer g) (g_slice_len g) = Ok at_
    /\ k (List.length h)
         (h ++ [slice_cell src (g_slice_num g) idx at_]) = Ret nodes h3.
Proof.
  intros Hsrc Hrun.
  apply bind_Ret in Hrun. destruct Hrun as (sl & h1 & Hc & Hrun).
  apply copy_Ret in Hc. destruct Hc as (e & He & -> & ->).
  assert (e = src) as -> by congruence.
  ret_inv Hrun. rename a into at_. exists at_. split; [assumption|].
  apply bind_Ret in Hk. destruct Hk as (u & h2 & Hset & Hk).
  apply setitem_last in Hset. subst h2.
  ret_inv Hk.
  match goal with
  | Hd : deref _ _ = Ok ?s |- _ =>
      unfold deref in Hd; rewrite nth_error_alloc_new in Hd; injection Hd as <-
  end.
  cbn [el_name] in *.
  unfold slice_cell, slice_name.
  destruct (el_name src) as [nm|] eqn:Hnm;
    [|cbn [truthy_str andb] in Hk0].
  - destruct (andb (truthy_str (Some nm)) (1 <? g_slice_num g)) eqn:Hc.
    + apply bind_Ret in Hk0. destruct Hk0 as (u2 & h4 & Hren & Hk0).
      ret_inv Hren.
      match goal with
      | Hd : deref _ _ = Ok ?s |- _ =>
          unfold deref in Hd;
          rewrite nth_error_alloc_old in Hd by (eapply nth_error_lt; exact Hsrc);
          rewrite Hsrc in Hd; injection Hd as <-
      end.
      rewrite Hnm in *.
      match goal with
      | Hn : set_name _ _ _ = Ret _ _ |- _ => apply set_name_last in Hn; subst h4
      end.
      exact Hk0.
    + apply bind_Ret in Hk0. destruct Hk0 as (u2 & h4 & Hren & Hk0).
      ret_inv Hren. exact Hk0.
  - apply bind_Ret in Hk0. destruct Hk0 as (u2 & h4 & Hren & Hk0).
    ret_inv Hren. exact Hk0.
Qed.

Lemma uniform_slices_Ret (g : generator) (src : Element) :
  forall k idx h nodes h',
    nth_error h (g_elem g) = Some src ->
    uniform_slices k idx g h = Ret nodes h' ->
    exists cells,
      h' = h ++ cells /\ List.length cells = k
      /\ nodes = map NElement (seq (List.length h) k)
      /\ forall i, (i < k)%nat ->
           exists at_,
             slice_at (g_offset g) (VInt (idx + Z.of_nat i)) (g_refer g) (g_slice_len g)
             = Ok at_
             /\ nth_error cells i
                = Some (slice_cell src (g_slice_num g) (idx + Z.of_nat i) at_).
Proof.
  induction k as [|k IH]; intros idx h nodes h' Hsrc Hrun; cbn [uniform_slices] in Hrun.
  - ret_inv Hrun. exists []. rewrite app_nil_r. repeat split. intros i Hi. lia.
  - apply (@uniform_turn g src idx h h'
             (fun sl => (rest <- uniform_slices k (idx + 1) g ;;
                         ret (NElement sl :: rest))%py) nodes Hsrc) in Hrun.
    destruct Hrun as (at_ & Hat & Hrun).
    ret_inv Hrun. rename a into rest.
    match goal with
    | Hrec : uniform_slices _ _ _ _ = Ret _ _ |- _ =>
        apply IH in Hrec;
        [destruct Hrec as (cells & -> & Hlen & -> & Hcells)|]
    end.
    + apply ret_Ret in Hk. destruct Hk as [-> ->].
      exists (slice_cell src (g_slice_num g) idx at_ :: cells).
      rewrite <- app_assoc. cbn [app]. split; [reflexivity|].
      split; [cbn; rewrite Hlen; reflexivity|].
      split.
      * rewrite length_app. cbn [List.length seq map].
        replace (List.length h + 1)%nat with (S (List.length h)) by lia. reflexivity.
      * intros [|i] Hi.
        -- exists at_. rewrite Z.add_0_r. split; [exact Hat|reflexivity].
        -- destruct (Hcells i ltac:(lia)) as (at' & Hat' & Hc').
           exists at'.
           replace (idx + Z.of_nat (S i)) with (idx + 1 + Z.of_nat i) by lia.
           split; [exact Hat'|exact Hc'].
    + rewrite nth_error_alloc_old by (eapply nth_error_lt; exact Hsrc). exact Hsrc.
Qed.

End UniformSpec.

(** ** Lookups in a store that grows *)

(** Below [m], where two stores agree and bases point backwards, lookups
    agree whatever the depth available. *)
Lemma getitem_fuel_agree (h0 h : heap) (m : nat) (key : string) :
  wf_heap h0 -> firstn m h = firstn m h0 ->
  forall n n' l, (l < m)%nat -> (l < n)%nat -> (l < n')%nat ->
    getitem_fuel n h l key = getitem_fuel n' h0 l key.
Proof.
  intros Hwf Hf.
  assert (Hnth : forall l, (l < m)%nat -> nth_error h l = nth_error h0 l).
  { intros l Hl.
    pose proof (nth_error_firstn m h l) as H1.
    pose proof (nth_error_firstn m h0 l) as H2.
    apply Nat.ltb_lt in Hl. rewrite Hl in H1, H2.
    rewrite <- H1, <- H2, Hf. reflexivity. }
  induction n as [|n IH]; intros n' l Hm Hn Hn'; [lia|].
  destruct n' as [|n']; [lia|]. cbn [getitem_fuel].
  rewrite (Hnth l Hm).
  destruct (nth_error h0 l) as [e|] eqn:He; [|reflexivity].
  destruct (own e key); [reflexivity|].
  destruct (el_base e) as [[b|ln le]|] eqn:Hb; try reflexivity.
  pose proof (Hwf l e b He Hb). apply IH; lia.
Qed.

Lemma wf_update_args (h : heap) (l : loc) (e e' : Element) :
  wf_heap h -> nth_error h l = Some e -> el_base e' = el_base e ->
  wf_heap (update_nth h l e').
Proof.
  intros Hwf He Hb l' x b Hx Hxb.
  pose proof (nth_error_lt _ _ He) as Hlt.
  destruct (Nat.eq_dec l' l) as [->|Hne].
  - rewrite nth_error_update_nth_eq in Hx by exact Hlt. injection Hx as <-.
    rewrite Hb in Hxb. exact (Hwf l e b He Hxb).
  - rewrite nth_error_update_nth_neq in Hx by exact Hne.
    exact (Hwf l' x b Hx Hxb).
Qed.

(** A change of the element at [l] is not seen from its base. *)
Lemma inherited_update (h : heap) (l : loc) (e e' : Element) (key : string) :
  wf_heap h -> nth_error h l = Some e ->
  inherited (update_nth h l e') e key = inherited h e key.
Proof.
  intros Hwf He. unfold inherited.
  destruct (el_base e) as [[b|ln le]|] eqn:Hb; try reflexivity.
  pose proof (Hwf l e b He Hb) as Hbl.
  pose proof (nth_error_lt _ _ He) as Hlt.
  unfold getitem. rewrite update_nth_length.
  apply (@getitem_fuel_agree h (update_nth h l e') l key Hwf); try lia.
  apply firstn_update_nth. lia.
Qed.

Lemma wf_alloc (h : heap) (e : Element) :
  wf_heap h ->
  (forall b, el_base e = Some (RElement b) -> (b < List.length h)%nat) ->
  wf_heap (h ++ [e]).
Proof.
  intros Hwf Hb l x b Hx Hxb.
  destruct (Nat.lt_ge_cases l (List.length h)) as [Hlt|Hge].
  - rewrite nth_error_alloc_old in Hx by exact Hlt. exact (Hwf l x b Hx Hxb).
  - assert (l = List.length h) as ->.
    { apply nth_error_lt in Hx. rewrite length_app in Hx. cbn in Hx. lia. }
    rewrite nth_error_alloc_new in Hx. injection Hx as <-. exact (Hb b Hxb).
Qed.

(** A copy reads what the original reads, and the original what it read
    before. *)
Lemma getitem_copy (h : heap) (l : loc) (e : Element) (key : string) :
  wf_heap h -> nth_error h l = Some e ->
  wf_heap (h ++ [e])
  /\ getitem (h ++ [e]) (List.length h) key = getitem h l key
  /\ getitem (h ++ [e]) l key = getitem h l key.
Proof.
  intros Hwf He. pose proof (nth_error_lt _ _ He) as Hlt.
  assert (Hwf1 : wf_heap (h ++ [e])).
  { apply wf_alloc; [exact Hwf|]. intros b Hb. pose proof (Hwf l e b He Hb). lia. }
  assert (Hagree : forall b, (b < List.length h)%nat ->
                     getitem (h ++ [e]) b key = getitem h b key).
  { intros b Hb. unfold getitem.
    apply (@getitem_fuel_agree h (h ++ [e]) (List.length h) key Hwf); try lia.
    - apply firstn_app_le. lia.
    - rewrite length_app. cbn. lia. }
  split; [exact Hwf1|]. split; [|exact (Hagree l Hlt)].
  rewrite (@getitem_unfold _ _ e key Hwf1 (nth_error_alloc_new h e)).
  rewrite (@getitem_unfold _ _ e key Hwf He).
  destruct (own e key); [reflexivity|].
  destruct (el_base e) as [[b|ln le]|] eqn:Hb; try reflexivity.
  apply Hagree. pose proof (Hwf l e b He Hb). lia.
Qed.

Lemma same_key_in_refl (c : dict_class) (k : string) : same_key_in c k k = true.
Proof.
  unfold same_key_in. apply String.eqb_refl.
Qed.

(** Keys a dictionary takes for the same are the same up to case. *)
Lemma same_key_in_ci (c : dict_class) (k k' : string) :
  same_key k k' = false -> same_key_in c k k' = false.
Proof.
  unfold same_key, same_key_in. destruct c; cbn [fold_key]; [exact (fun E => E)|].
  intros Hk. apply String.eqb_neq. intros ->. rewrite String.eqb_refl in Hk. discriminate.
Qed.

Lemma getitem_setitem (h h' : heap) (l : loc) (key : string) (v : pyval) (u : unit) :
  wf_heap h -> setitem l key v h = Ret u h' ->
  wf_heap h'
  /\ exists e,
       nth_error h l = Some e
       /\ forall key',
            getitem h' l key'
            = if same_key_in (el_class e) key key' then Ok v else getitem h l key'.
Proof.
  intros Hwf Hset. unfold setitem in Hset. apply modify_Ret in Hset.
  destruct Hset as (e & He & ->).
  set (e' := set_args e (dict_set (el_class e) (el_args e) key v)).
  pose proof (nth_error_lt _ _ He) as Hlt.
  assert (Hwf' : wf_heap (update_nth h l e')) by (eapply wf_update_args; eauto).
  split; [exact Hwf'|]. exists e. split; [exact He|]. intros key'.
  rewrite (@getitem_unfold _ l e' key' Hwf' (nth_error_update_nth_eq h e' Hlt)).
  rewrite (@getitem_unfold _ l e key' Hwf He).
  change (el_args e') with (dict_set (el_class e) (el_args e) key v).
  change (el_base e') with (el_base e).
  change (el_class e') with (el_class e).
  destruct (same_key_in (el_class e) key key') eqn:Hk.
  - rewrite (@dict_get_set_same _ (el_class e) (el_args e) key key' v Hk). reflexivity.
  - rewrite (@dict_get_set_other _ (el_class e) (el_args e) key key' v Hk).
    destruct (own e key'); [reflexivity|].
    exact (@inherited_update h l e e' key' Hwf He).
Qed.

(** What [rescale_thick] builds at a ratio other than 1. *)
Lemma rescale_thick_Ret `{PyArith} (elem s : loc) (ratio : pyval)
      (h h' : heap)
      (Hwf : wf_heap h)
      (Hne : py_eqb ratio (VInt 1) = false)
      (Hrun : rescale_thick elem ratio h = Ret s h') :
  s = List.length h
  /\ exists L v,
       getitem h elem "L" = Ok L /\ py_binop Mul L ratio = Ok v
       /\ getitem h' s "L" = Ok v
       /\ forall key, same_key "L" key = false -> same_key "angle" key = false ->
            getitem h' s key = getitem h elem key.
Proof.
  unfold rescale_thick in Hrun. rewrite Hne in Hrun.
  apply bind_Ret in Hrun. destruct Hrun as (s0 & h1 & Hcopy & Hrun).
  apply copy_Ret in Hcopy. destruct Hcopy as (e & He & -> & ->).
  destruct (@getitem_copy h elem e "L" Hwf He) as (Hwf1 & _ & HL0).
  apply bind_Ret in Hrun. destruct Hrun as (L & hx & HL & Hrun).
  apply reading_Ret in HL. destruct HL as [HL ->]. rewrite HL0 in HL.
  apply bind_Ret in Hrun. destruct Hrun as (v & hx & Hv & Hrun).
  apply lift_Ret in Hv. destruct Hv as [Hv ->].
  apply bind_Ret in Hrun. destruct Hrun as (u & h2 & Hset & Hrun).
  destruct (@getitem_setitem _ _ _ _ _ _ Hwf1 Hset) as (Hwf2 & e2 & _ & Hget2).
  apply bind_Ret in Hrun. destruct Hrun as (bt & hx & Hbt & Hrun).
  apply reading_Ret in Hbt. destruct Hbt as [_ ->].
  apply bind_Ret in Hrun. destruct Hrun as (u' & h3 & Hangle & Hret).
  apply ret_Ret in Hret. destruct Hret as [-> ->].
  split; [reflexivity|]. exists L, v.
  split; [exact HL|]. split; [exact Hv|].
  assert (Hother : forall key, same_key "L" key = false ->
                     getitem h2 (List.length h) key = getitem h elem key).
  { intros key Hk. rewrite Hget2, (same_key_in_ci _ _ _ Hk).
    exact (proj1 (proj2 (@getitem_copy h elem e key Hwf He))). }
  destruct (stri_is bt "sbend").
  - apply bind_Ret in Hangle. destruct Hangle as (a & hx & Ha & Hangle).
    apply reading_Ret in Ha. destruct Ha as [_ ->].
    apply bind_Ret in Hangle. destruct Hangle as (va & hx & Hva & Hangle).
    apply lift_Ret in Hva. destruct Hva as [_ ->].
    destruct (@getitem_setitem _ _ _ _ _ _ Hwf2 Hangle) as (_ & e3 & _ & Hget3).
    split.
    + rewrite Hget3, (@same_key_in_ci _ "angle" "L" eq_refl).
      rewrite Hget2, same_key_in_refl. reflexivity.
    + intros key HkL Hka. rewrite Hget3, (same_key_in_ci _ _ _ Hka).
      exact (Hother key HkL).
  - apply ret_Ret in Hangle. destruct Hangle as [_ ->].
    split.
    + rewrite Hget2, same_key_in_refl. reflexivity.
    + intros key HkL _. exact (Hother key HkL).
Qed.

Lemma wf_below_stable (n : nat) : stable (wf_below n).
Proof.
  split.
  - intros h e [Hn Hw]. split; [rewrite length_app; lia|].
    intros l x b Hl Hx Hb. rewrite nth_error_alloc_old in Hx by lia.
    exact (Hw l x b Hl Hx Hb).
  - intros h l e g [Hn Hw] He. split; [rewrite update_nth_length; exact Hn|].
    intros l' x b Hl Hx Hb. destruct (Nat.eq_dec l' l) as [->|Hne].
    + rewrite nth_error_update_nth_eq in Hx by (eapply nth_error_lt; exact He).
      injection Hx as <-. exact (Hw l e b Hl He Hb).
    + rewrite nth_error_update_nth_neq in Hx by exact Hne.
      exact (Hw l' x b Hl Hx Hb).
Qed.

Lemma wf_below_all (h : heap) : wf_heap h -> wf_below (List.length h) h.
Proof.
  intros Hwf. split; [apply le_n|]. intros l e b _ He Hb. exact (Hwf l e b He Hb).
Qed.

Lemma wf_below_alloc (h : heap) (e : Element) :
  wf_heap h ->
  (forall b, el_base e = Some (RElement b) -> (b < List.length h)%nat) ->
  wf_below (S (List.length h)) (h ++ [e]).
Proof.
  intros Hwf Hb. split; [rewrite length_app; cbn; lia|].
  intros l x b _ Hx Hxb. exact (@wf_alloc h e Hwf Hb l x b Hx Hxb).
Qed.

(** Below [n], where two stores agree and the bases of the one point
    backwards, lookups agree whatever the depth available. *)
Lemma getitem_fuel_below (h0 h : heap) (n : nat) (key : string) :
  wf_below n h0 -> firstn n h = firstn n h0 ->
  forall f f' l, (l < n)%nat -> (l < f)%nat -> (l < f')%nat ->
    getitem_fuel f h l key = getitem_fuel f' h0 l key.
Proof.
  intros [_ Hwf] Hf.
  assert (Hnth : forall l, (l < n)%nat -> nth_error h l = nth_error h0 l).
  { intros l Hl.
    pose proof (nth_error_firstn n h l) as H1.
    pose proof (nth_error_firstn n h0 l) as H2.
    apply Nat.ltb_lt in Hl. rewrite Hl in H1, H2.
    rewrite <- H1, <- H2, Hf. reflexivity. }
  induction f as [|f IH]; intros f' l Hn Hlf Hlf'; [lia|].
  destruct f' as [|f']; [lia|]. cbn [getitem_fuel].
  rewrite (Hnth l Hn).
  destruct (nth_error h0 l) as [e|] eqn:He; [|reflexivity].
  destruct (own e key); [reflexivity|].
  destruct (el_base e) as [[b|ln le]|] eqn:Hb; try reflexivity.
  pose proof (Hwf l e b Hn He Hb). apply IH; lia.
Qed.

(** An element with the base and, under [key], the own argument of the
    element at [scaled] reads under [key] what that element reads. *)
Lemma getitem_like (hs h2 : heap) (n : nat) (scaled l : loc) (sc cell : Element)
      (key : string) :
  wf_below n hs -> (scaled < n)%nat -> firstn n h2 = firstn n hs ->
  nth_error hs scaled = Some sc -> nth_error h2 l = Some cell ->
  own cell key = own sc key -> el_base cell = el_base sc ->
  getitem h2 l key = getitem hs scaled key.
Proof.
  intros Hw Hs Hf Hsc Hcell Hown Hbase.
  unfold getitem. cbn [getitem_fuel]. rewrite Hsc, Hcell, Hown, Hbase.
  destruct (own sc key); [reflexivity|].
  destruct (el_base sc) as [[b|ln le]|] eqn:Hb; try reflexivity.
  pose proof (proj2 Hw scaled sc b Hs Hsc Hb) as Hlt.
  pose proof (proj1 Hw) as Hn.
  assert (Hn2 : (n <= List.length h2)%nat).
  { pose proof (f_equal (@List.length Element) Hf) as Hlen.
    rewrite !length_firstn in Hlen. lia. }
  apply (@getitem_fuel_below hs h2 n key Hw Hf); lia.
Qed.

(** An element without [key] whose base is the element at [scaled] reads
    under [key] what that element reads. *)
Lemma getitem_via (hs h2 : heap) (n : nat) (scaled l : loc) (cell : Element)
      (key : string) :
  wf_below n hs -> (scaled < n)%nat -> firstn n h2 = firstn n hs ->
  nth_error h2 l = Some cell ->
  own cell key = None -> el_base cell = Some (RElement scaled) ->
  getitem h2 l key = getitem hs scaled key.
Proof.
  intros Hw Hs Hf Hcell Hown Hbase.
  unfold getitem at 1. cbn [getitem_fuel]. rewrite Hcell, Hown, Hbase.
  pose proof (proj1 Hw) as Hn.
  assert (Hn2 : (n <= List.length h2)%nat).
  { pose proof (f_equal (@List.length Element) Hf) as Hlen.
    rewrite !length_firstn in Hlen. lia. }
  unfold getitem. apply (@getitem_fuel_below hs h2 n key Hw Hf); lia.
Qed.

Section RescaleBelow.
Context `{PyArith}.

(** The rescaled element stands where bases point backwards. *)
Lemma rescale_below (t : ElementTransform) (elem s : loc) (ratio : pyval)
      (h hs : heap) (e : Element) :
  wf_heap h -> nth_error h elem = Some e ->
  rescale t elem ratio h = Ret s hs ->
  exists n, (s < n)%nat /\ wf_below n hs.
Proof.
  intros Hwf He Hr.
  pose proof (nth_error_lt _ _ He) as Hlt.
  assert (Hsame : exists n, (elem < n)%nat /\ wf_below n h).
  { exists (List.length h). split; [exact Hlt|apply wf_below_all; exact Hwf]. }
  assert (Hcopy : wf_below (S (List.length h)) (h ++ [e])).
  { apply wf_below_alloc; [exact Hwf|]. intros b Hb.
    pose proof (Hwf elem e b He Hb). lia. }
  unfold rescale in Hr. destruct (t_makethin t).
  - unfold rescale_makethin in Hr. ret_inv Hr. rename a into bt.
    destruct (negb _); [ret_inv Hk; exact Hsame|].
    destruct (stri_is bt "solenoid").
    + apply bind_Ret in Hk. destruct Hk as (s1 & h1 & Hc & Hk).
      apply copy_Ret in Hc. destruct Hc as (e0 & He0 & -> & ->).
      assert (e0 = e) as -> by congruence.
      destruct (@holds_Ret _ _ _ _ _ _ _
                  (holds_solenoid_rest (wf_below_stable _) (List.length h) ratio)
                  Hcopy Hk) as [Hw ->].
      exists (S (List.length h)). split; [lia|exact Hw].
    + ret_inv Hk.
      match goal with
      | Hb : bind (reading _) _ _ = Ret _ _ |- _ => ret_inv Hb
      end.
      match goal with
      | Hb : bind (new_Element ?nm _ _ ?args _) _ _ = Ret _ _ |- _ =>
          apply bind_Ret in Hb; destruct Hb as (s1 & h1 & Hc & Hb);
          apply alloc_Ret in Hc; destruct Hc as [-> ->];
          assert (Hm : wf_below (S (List.length h))
                         (h ++ [Build_Element nm (Some "multipole") args None Odicti]))
            by (apply wf_below_alloc; [exact Hwf|discriminate]);
          destruct (@holds_Ret _ _ _ _ _ _ _
                      (holds_multipole_rest (wf_below_stable _) (List.length h) ratio bt)
                      Hm Hb) as [Hw ->]
      end.
      exists (S (List.length h)). split; [lia|exact Hw].
  - unfold rescale_thick in Hr.
    destruct (py_eqb ratio (VInt 1)); [ret_inv Hr; exact Hsame|].
    apply bind_Ret in Hr. destruct Hr as (s1 & h1 & Hc & Hk).
    apply copy_Ret in Hc. destruct Hc as (e0 & He0 & -> & ->).
    assert (e0 = e) as -> by congruence.
    destruct (@holds_Ret _ _ _ _ _ _ _
                (holds_thick_rest (wf_below_stable _) elem (List.length h) ratio)
                Hcopy Hk) as [Hw ->].
    exists (S (List.length h)). split; [lia|exact Hw].
Qed.

(** The length of the element [rescale_thick] returns. *)
Lemma rescale_thick_length (elem s : loc) (ratio L : pyval) (h hs : heap) :
  wf_heap h ->
  rescale_thick elem ratio h = Ret s hs ->
  get h elem "L" (VInt 0) = Ok L ->
  get hs s "L" (VInt 0)
  = if py_eqb ratio (VInt 1) then Ok L else py_binop Mul L ratio.
Proof.
  intros Hwf Hr HL. destruct (py_eqb ratio (VInt 1)) eqn:Hone.
  - unfold rescale_thick in Hr. rewrite Hone in Hr.
    apply ret_Ret in Hr. destruct Hr as [<- <-]. exact HL.
  - destruct (@rescale_thick_Ret _ elem s ratio h hs Hwf Hone Hr)
      as (_ & L' & v & HL' & Hv & Hs & _).
    unfold get in *. rewrite HL' in HL. injection HL as <-.
    rewrite Hs, Hv. reflexivity.
Qed.

(** Elements that all have the length [Ls] add up to that many times
    [Ls]. *)
Lemma sum_lengths_same (h : heap) (Ls : pyval) :
  forall k start acc,
    (forall i, (i < k)%nat -> get h (start + i)%nat "L" (VInt 0) = Ok Ls) ->
    sum_lengths h (map NElement (seq start k)) acc = add_times k Ls acc.
Proof.
  induction k as [|k IH]; intros start acc Hall; [reflexivity|].
  cbn [seq map sum_lengths add_times].
  pose proof (Hall 0%nat ltac:(lia)) as H0. rewrite Nat.add_0_r in H0.
  rewrite H0. cbn [rbind].
  destruct (py_binop Add acc Ls) as [acc'|x]; [|reflexivity]. cbn [rbind].
  apply IH. intros i Hi. replace (S start + i)%nat with (start + S i)%nat by lia.
  apply Hall. lia.
Qed.

End RescaleBelow.

(** A slice keeps what its source has under every key but [at]. *)
Lemma slice_cell_own (src : Element) (slice_num idx : Z) (at_ : pyval) (key : string) :
  same_key "at" key = false ->
  own (slice_cell src slice_num idx at_) key = own src key.
Proof.
  intros Hk. unfold slice_cell. cbn [el_class el_args].
  apply dict_get_set_other. apply same_key_in_ci. exact Hk.
Qed.

(** ** Uniform slicing *)

(** C5 (as the code has it): with a uniform rule, slicing an element of
    length [L] under the slice count [N = n or 1] emits exactly [N] new
    elements; slice [i] is a copy of the distributed element placed at
    [pos + (i + refer) * slice_len], where [pos] is the entry position and
    [slice_len = Decimal(L) / N], and it is renamed [name..i] when the
    distributed element is named and [N > 1].  The distributed element is
    the element rescaled by [1 / Decimal(N)], which carries the name of
    the input element; unless the rule emits templates: then the rescaled
    element is the template and the distributed element is an unnamed
    reference to it, of the type of that name, over an empty plain
    [dict], and the slices stay unnamed.  The exit position is [pos + L].
    Where bases point backwards, every slice has the length of the
    rescaled element, so that the lengths of the slices add up to [N]
    times that length; under a thick rule that length is [L * (1 /
    Decimal(N))], and [L] itself when the ratio equals 1. *)
Theorem C5_uniform_slicing `{PyArith}
        (t : ElementTransform) (elem : loc) (offset refer : pyval)
        (h h1 h2 : heap) (templ : list loc) (g : generator) (exit_ : pyval)
        (nodes : list node) (e : Element)
        (Hstyle : t_style t = Uniform)
        (He : nth_error h elem = Some e)
        (Hslice : slice t elem offset refer h = Ret (templ, g, exit_) h1)
        (Hrun : consume g h1 = Ret nodes h2) :
  exists L pos n slice_len ratio scaled hs sc src,
    get h elem "L" (VInt 0) = Ok L
    /\ get_position t h elem L offset refer = Ok pos
    /\ get_slice_num t L = Ok n
    /\ (exists d, to_Decimal L = Ok d
                  /\ py_binop Div d (VInt (or_one n)) = Ok slice_len)
    /\ py_binop Add pos L = Ok exit_
    /\ (exists num_d, to_Decimal (VInt (or_one n)) = Ok num_d
                      /\ py_binop Div (VInt 1) num_d = Ok ratio)
    /\ rescale t elem ratio h = Ret scaled hs
    /\ nth_error hs scaled = Some sc
    /\ el_name sc = el_name e
    /\ templ = maketempl t scaled
    /\ (if t_template t
        then g_elem g = List.length hs
             /\ h1 = hs ++ [src]
             /\ src = Build_Element None (el_name e) [] (Some (RElement scaled)) Dict
        else g_elem g = scaled /\ h1 = hs /\ src = sc)
    /\ List.length nodes = Z.to_nat (or_one n)
    /\ (forall i, (i < Z.to_nat (or_one n))%nat ->
          exists at_,
            slice_at pos (VInt (Z.of_nat i)) refer slice_len = Ok at_
            /\ nth_error nodes i = Some (NElement (List.length h1 + i)%nat)
            /\ nth_error h2 (List.length h1 + i)%nat
               = Some (slice_cell src (or_one n) (Z.of_nat i) at_))
    /\ (wf_heap h ->
        (forall i, (i < Z.to_nat (or_one n))%nat ->
           get h2 (List.length h1 + i)%nat "L" (VInt 0) = get hs scaled "L" (VInt 0))
        /\ (forall Ls, get hs scaled "L" (VInt 0) = Ok Ls ->
              sum_lengths h2 nodes (VInt 0)
              = add_times (Z.to_nat (or_one n)) Ls (VInt 0))
        /\ (t_makethin t = false ->
            get hs scaled "L" (VInt 0)
            = if py_eqb ratio (VInt 1) then Ok L else py_binop Mul L ratio)).
Proof.
  apply slice_Ret in Hslice.
  destruct Hslice as (L & pos & n & d & slice_len & num_d & ratio & scaled & hs
                      & HL & Hpos & Hn & Hd & Hlen & Hnd & Hratio & Hresc
                      & Hstrip & -> & Hg & Hexit).
  assert (Hnamed : named scaled (el_name e) hs).
  { eapply rescale_named; [|exact Hresc]. exists e. split; [exact He|reflexivity]. }
  destruct Hnamed as (sc & Hsc & Hscname).
  assert (Hsrc : exists src,
             nth_error h1 (g_elem g) = Some src
             /\ (if t_template t
                 then g_elem g = List.length hs
                      /\ h1 = hs ++ [src]
                      /\ src = Build_Element None (el_name e) []
                                             (Some (RElement scaled)) Dict
                 else g_elem g = scaled /\ h1 = hs /\ src = sc)).
  { unfold stripelem in Hstrip. destruct (t_template t).
    - ret_inv Hstrip. apply alloc_Ret in Hk. destruct Hk as [-> ->].
      match goal with
      | Hd : deref hs scaled = Ok ?x |- _ =>
          unfold deref in Hd; rewrite Hsc in Hd; injection Hd as <-
      end.
      rewrite Hscname.
      eexists. split; [apply nth_error_alloc_new|].
      split; [reflexivity|]. split; reflexivity.
    - apply ret_Ret in Hstrip. destruct Hstrip as [-> ->].
      exists sc. split; [exact Hsc|]. split; [reflexivity|]. split; reflexivity. }
  destruct Hsrc as (src & Hsrc & Hshape).
  exists L, pos, n, slice_len, ratio, scaled, hs, sc, src.
  split; [exact HL|]. split; [exact Hpos|]. split; [exact Hn|].
  split; [exists d; split; assumption|]. split; [exact Hexit|].
  split; [exists num_d; split; assumption|]. split; [exact Hresc|].
  split; [exact Hsc|]. split; [exact Hscname|]. split; [reflexivity|].
  split; [exact Hshape|].
  assert (Hgs : g_style g = Uniform) by (rewrite Hg; exact Hstyle).
  assert (Hgn : g_slice_num g = or_one n) by (rewrite Hg; reflexivity).
  assert (Hgo : g_offset g = pos) by (rewrite Hg; reflexivity).
  assert (Hgr : g_refer g = refer) by (rewrite Hg; reflexivity).
  assert (Hgl : g_slice_len g = slice_len) by (rewrite Hg; reflexivity).
  clear Hg.
  unfold consume in Hrun. rewrite Hgs in Hrun.
  unfold uniform_slice_distribution in Hrun.
  eapply uniform_slices_Ret in Hrun; [|exact Hsrc].
  rewrite Hgn, Hgo, Hgr, Hgl in Hrun.
  destruct Hrun as (cells & -> & Hcl & -> & Hcells).
  assert (Hcell : forall i, (i < Z.to_nat (or_one n))%nat ->
            exists at_,
              slice_at pos (VInt (Z.of_nat i)) refer slice_len = Ok at_
              /\ nth_error (h1 ++ cells) (List.length h1 + i)%nat
                 = Some (slice_cell src (or_one n) (Z.of_nat i) at_)).
  { intros i Hi. destruct (Hcells i Hi) as (at_ & Hat & Hc).
    exists at_. cbn [Z.add] in Hat, Hc. split; [exact Hat|].
    rewrite nth_error_app2 by lia.
    replace (List.length h1 + i - List.length h1)%nat with i by lia.
    exact Hc. }
  split; [rewrite length_map, length_seq; reflexivity|].
  split.
  { intros i Hi. destruct (Hcell i Hi) as (at_ & Hat & Hc).
    exists at_. split; [exact Hat|]. split; [|exact Hc].
    rewrite nth_error_map, nth_error_seq.
    apply Nat.ltb_lt in Hi. rewrite Hi. reflexivity. }
  intros Hwf.
  destruct (@rescale_below _ t elem scaled ratio h hs e Hwf He Hresc)
    as (m & Hsm & Hw).
  assert (Hlens : forall i, (i < Z.to_nat (or_one n))%nat ->
            get (h1 ++ cells) (List.length h1 + i)%nat "L" (VInt 0)
            = get hs scaled "L" (VInt 0)).
  { intros i Hi. destruct (Hcell i Hi) as (at_ & _ & Hc).
    assert (Hgi : getitem (h1 ++ cells) (List.length h1 + i)%nat "L"
                  = getitem hs scaled "L").
    { destruct (t_template t).
      - destruct Hshape as (_ & -> & ->).
        eapply (@getitem_via hs _ m scaled _ _ "L" Hw Hsm); [|exact Hc| |reflexivity].
        + rewrite <- app_assoc. apply firstn_app_le. exact (proj1 Hw).
        + rewrite slice_cell_own by reflexivity. reflexivity.
      - destruct Hshape as (_ & -> & ->).
        eapply (@getitem_like hs _ m scaled _ sc _ "L" Hw Hsm);
          [|exact Hsc|exact Hc| |reflexivity].
        + apply firstn_app_le. exact (proj1 Hw).
        + apply slice_cell_own. reflexivity. }
    unfold get. rewrite Hgi. reflexivity. }
  split; [exact Hlens|]. split.
  - intros Ls HLs. apply sum_lengths_same. intros i Hi.
    rewrite (Hlens i Hi). exact HLs.
  - intros Hthick. unfold rescale in Hresc. rewrite Hthick in Hresc.
    exact (@rescale_thick_length _ elem scaled ratio L h hs Hwf Hresc HL).
Qed.

Lemma named_heap_wf : wf_heap named_heap.
Proof.
  intros l e b He Hb.
  destruct l as [|l]; cbn in He;
    [injection He as <-; discriminate|destruct l; discriminate].
Qed.

(** C5 at a concrete input: the quadrupole [Q] of length 1 cut by the rule
    with slice count 3 and no templates gives the three slices [Q..0],
    [Q..1], [Q..2] at 0, 1/3 and 2/3, each of the length
    [0.3333333333333333333333333333] of the rescaled element. *)
Lemma C5_uniform_slicing_witness :
  slice plain_rule3 0%nat (VInt 0) (VInt 0) named_heap
  = Ret ([], mkGenerator Uniform 1%nat (VInt 0) (VInt 0) 3 third, VInt 1) named_scaled
  /\ consume (mkGenerator Uniform 1%nat (VInt 0) (VInt 0) 3 third) named_scaled
     = Ret [NElement 2%nat; NElement 3%nat; NElement 4%nat] named_sliced
  /\ exists n ratio scaled hs,
       get_slice_num plain_rule3 (VInt 1) = Ok n
       /\ rescale plain_rule3 0%nat ratio named_heap = Ret scaled hs
       /\ (forall i, (i < Z.to_nat (or_one n))%nat ->
             get named_sliced (2 + i)%nat "L" (VInt 0) = get hs scaled "L" (VInt 0))
       /\ (forall Ls, get hs scaled "L" (VInt 0) = Ok Ls ->
             sum_lengths named_sliced [NElement 2%nat; NElement 3%nat; NElement 4%nat]
                         (VInt 0)
             = add_times (Z.to_nat (or_one n)) Ls (VInt 0))
       /\ get hs scaled "L" (VInt 0)
          = if py_eqb ratio (VInt 1) then Ok (VInt 1) else py_binop Mul (VInt 1) ratio.
Proof.
  assert (Hs : slice plain_rule3 0%nat (VInt 0) (VInt 0) named_heap
               = Ret ([], mkGenerator Uniform 1%nat (VInt 0) (VInt 0) 3 third, VInt 1)
                     named_scaled) by (vm_compute; reflexivity).
  assert (Hr : consume (mkGenerator Uniform 1%nat (VInt 0) (VInt 0) 3 third) named_scaled
               = Ret [NElement 2%nat; NElement 3%nat; NElement 4%nat] named_sliced)
    by (vm_compute; reflexivity).
  split; [exact Hs|]. split; [exact Hr|].
  destruct (@C5_uniform_slicing python plain_rule3 0%nat (VInt 0) (VInt 0)
              named_heap named_scaled named_sliced []
              (mkGenerator Uniform 1%nat (VInt 0) (VInt 0) 3 third) (VInt 1)
              [NElement 2%nat; NElement 3%nat; NElement 4%nat]
              (mkElement (Some "Q") (Some "QUADRUPOLE") [("L", VInt 1)] None)
              eq_refl eq_refl Hs Hr)
    as (L & pos & n & slice_len & ratio & scaled & hs & sc & src
        & HL & _ & Hn & _ & _ & _ & Hresc & _ & _ & _ & _ & _ & _ & Hlens).
  injection HL as <-.
  destruct (Hlens named_heap_wf) as (Hl1 & Hl2 & Hl3).
  exists n, ratio, scaled, hs.
  split; [exact Hn|]. split; [exact Hresc|]. split; [exact Hl1|].
  split; [exact Hl2|exact (Hl3 eq_refl)].
Defined.

(** C5 as stated fails for a rule that emits templates, and in the sum of
    the slice lengths.  The named quadrupole [Q] of length 1 cut into 3
    by a rule with templates gives three slices that are unnamed
    references to the template, not [Q..0], [Q..1], [Q..2]; their lengths,
    each [0.3333333333333333333333333333], add up to
    [0.9999999999999999999999999999], which is not equal to 1.  And a
    rule that makes thin leaves a drift as long as it is: the drift of
    length 1 cut into 2 gives two slices of length 1, which add up to
    2. *)
Lemma C5_counterexample_names_and_sum :
  (exists templ g exit_ h1 nodes h2 total,
     nth_error named_heap 0
     = Some (mkElement (Some "Q") (Some "QUADRUPOLE") [("L", VInt 1)] None)
     /\ slice template_rule3 0%nat (VInt 0) (VInt 0) named_heap = Ret (templ, g, exit_) h1
     /\ consume g h1 = Ret nodes h2
     /\ List.length nodes = 3%nat
     /\ node_names h2 nodes = [None; None; None]
     /\ node_names h2 nodes <> [Some "Q..0"; Some "Q..1"; Some "Q..2"]
     /\ sum_lengths h2 nodes (VInt 0) = Ok total
     /\ total = dec_lit 9999999999999999999999999999 (-28)
     /\ py_eqb total (VInt 1) = false)
  /\ (exists templ g exit_ h1 nodes h2,
        get drift_heap 0%nat "L" (VInt 0) = Ok (VInt 1)
        /\ slice thin_rule2 0%nat (VInt 0) (VInt 0) drift_heap = Ret (templ, g, exit_) h1
        /\ consume g h1 = Ret nodes h2
        /\ List.length nodes = 2%nat
        /\ sum_lengths h2 nodes (VInt 0) = Ok (VInt 2)
        /\ py_eqb (VInt 2) (VInt 1) = false).
Proof.
  split.
  - do 7 eexists.
    split; [reflexivity|].
    split; [vm_compute; reflexivity|].
    split; [vm_compute; reflexivity|].
    split; [reflexivity|].
    split; [vm_compute; reflexivity|].
    split; [vm_compute; discriminate|].
    split; [vm_compute; reflexivity|].
    split; [reflexivity|].
    vm_compute. reflexivity.
  - do 6 eexists.
    split; [reflexivity|].
    split; [vm_compute; reflexivity|].
    split; [vm_compute; reflexivity|].
    split; [reflexivity|].
    split; [vm_compute; reflexivity|reflexivity].
Qed.

(** ** The failures of [Sequence.detect] *)

Lemma same_types_refl (h : heap) : same_types h h.
Proof.
  intros l e He. exists e. split; [exact He|reflexivity].
Qed.

Lemma same_types_trans (h h1 h2 : heap) :
  same_types h h1 -> same_types h1 h2 -> same_types h h2.
Proof.
  intros H1 H2 l e He.
  destruct (H1 l e He) as (e1 & He1 & Ht1).
  destruct (H2 l e1 He1) as (e2 & He2 & Ht2).
  exists e2. split; [exact He2|congruence].
Qed.

Lemma same_types_alloc (h : heap) (e : Element) : same_types h (h ++ [e]).
Proof.
  intros l x Hx. exists x. split; [|reflexivity].
  rewrite nth_error_alloc_old; [exact Hx|]. eapply nth_error_lt; exact Hx.
Qed.

Lemma same_types_setdefault (h : heap) (l : loc) :
  (l < List.length h)%nat ->
  exists h', setdefault_refer l h = Ret tt h' /\ same_types h h'.
Proof.
  intros Hl. unfold setdefault_refer, modify.
  destruct (nth_error h l) as [e|] eqn:He.
  - eexists. split; [reflexivity|].
    intros l' x Hx. destruct (Nat.eq_dec l' l) as [->|Hne].
    + rewrite nth_error_update_nth_eq by exact Hl.
      eexists. split; [reflexivity|]. cbn. congruence.
    + rewrite nth_error_update_nth_neq by exact Hne.
      exists x. split; [exact Hx|reflexivity].
  - apply nth_error_None in He. lia.
Qed.

Lemma node_type_same (h0 h : heap) (n : node) :
  same_types h0 h -> valid_node h0 n ->
  exists ty, node_type h n = Ok ty /\ node_type h0 n = Ok ty.
Proof.
  intros Hs Hv. destruct n as [l|s|name elems]; cbn in *.
  - destruct (nth_error h0 l) as [e|] eqn:He.
    + destruct (Hs l e He) as (e' & He' & Ht).
      unfold deref. rewrite He, He'. cbn. exists (el_type e').
      split; [reflexivity|congruence].
    + apply nth_error_None in He. lia.
  - eexists. split; reflexivity.
  - eexists. split; reflexivity.
Qed.

Lemma node_name_valid (h0 h : heap) (n : node) :
  same_types h0 h -> valid_node h0 n -> exists nm, node_name h n = Ok nm.
Proof.
  intros Hs Hv. destruct n as [l|s|name elems]; cbn in *.
  - destruct (nth_error h0 l) as [e|] eqn:He.
    + destruct (Hs l e He) as (e' & He' & _).
      unfold deref. rewrite He'. cbn. eexists. reflexivity.
    + apply nth_error_None in He. lia.
  - eexists. reflexivity.
  - eexists. reflexivity.
Qed.

(** An element of type [sequence] is not of type [line]. *)
Lemma stri_is_sequence_not_line (ty : option string) :
  stri_is ty "sequence" = true -> stri_is ty "line" = false.
Proof.
  destruct ty as [s|]; cbn; [|discriminate].
  intros Hs. apply String.eqb_eq in Hs. rewrite Hs. reflexivity.
Qed.

Lemma bind_reading_Ok {A B} (f : heap -> result A) (k : A -> M B) (h : heap) (a : A) :
  f h = Ok a -> bind (reading f) k h = k a h.
Proof.
  intros Hf. unfold bind, reading. rewrite Hf. reflexivity.
Qed.

Lemma scan_outcome_map {A B} (m : M A) (g : A -> B) (h hs : heap)
      (by_name : odicti ref) (nodes : list node) (inside : bool) :
  scan_outcome (m h) hs by_name nodes inside ->
  scan_outcome (bind m (fun x => ret (g x)) h) hs by_name nodes inside.
Proof.
  unfold bind. destruct (m h); exact (fun H => H).
Qed.

(** The first node either fails outside a group, or the failure lies in
    the rest. *)
Lemma bad_line_from_cons (h : heap) (by_name : odicti ref) (n : node)
      (rest : list node) (inside : bool) (e : exn) :
  bad_line_from h by_name (n :: rest) inside e <->
  (inside = false /\ line_fails h by_name n = Some e)
  \/ bad_line_from h by_name rest
       (if inside then negb (is_type h n "endsequence") else is_type h n "sequence") e.
Proof.
  split.
  - intros (pre & nd & post & Heq & Hin & Hf).
    destruct pre as [|p pre]; cbn in Heq; injection Heq as -> ->.
    + left. split; [exact Hin|exact Hf].
    + right. exists pre, nd, post. split; [reflexivity|]. split; [exact Hin|exact Hf].
  - intros [[-> Hf]|(pre & nd & post & -> & Hin & Hf)].
    + exists [], n, rest. split; [reflexivity|]. split; [reflexivity|exact Hf].
    + exists (n :: pre), nd, post. split; [reflexivity|]. split; [exact Hin|exact Hf].
Qed.

(** The members of a LINE expand when each is a key of [by_name], and the
    first that is none raises [KeyError]. *)
Lemma line_members_outcome (by_name : odicti ref) (elems : list string) :
  forall h,
    match line_members by_name elems h with
    | Ret _ h' => forallb (od_mem by_name) elems = true /\ same_types h h'
    | Raise e _ => forallb (od_mem by_name) elems = false /\ e = KeyError
    end.
Proof.
  induction elems as [|el rest IH]; intros h; cbn [line_members forallb].
  - cbn. split; [reflexivity|apply same_types_refl].
  - unfold bind at 1. unfold by_name_getitem, od_mem.
    destruct (od_get by_name el) as [b|]; cbn [lift ret raise andb].
    + unfold bind at 1. unfold new_Element, alloc.
      unfold bind at 1.
      specialize (IH (h ++ [Build_Element None (Some el) [] (Some b) Dict])).
      destruct (line_members by_name rest _) as [r h'|e h'].
      * cbn. destruct IH as [Hall Hs]. split; [exact Hall|].
        eapply same_types_trans; [apply same_types_alloc|exact Hs].
      * exact IH.
    + split; reflexivity.
Qed.

Lemma line_members_inline_outcome (by_name : odicti ref) (elems : list string) :
  match line_members_inline by_name elems with
  | Ok _ => forallb (od_mem by_name) elems = true
  | Err e => forallb (od_mem by_name) elems = false /\ e = KeyError
  end.
Proof.
  unfold line_members_inline.
  induction elems as [|el rest IH]; cbn [map sequence_res forallb].
  - reflexivity.
  - unfold by_name_getitem, od_mem.
    destruct (od_get by_name el) as [b|]; cbn [rbind andb].
    + destruct (sequence_res _); exact IH.
    + split; reflexivity.
Qed.

Lemma scan_outcome_cons {A} (o : outcome A) (h : heap) (by_name : odicti ref)
      (n : node) (rest : list node) (inside : bool) :
  (inside = false -> line_fails h by_name n = None) ->
  scan_outcome o h by_name rest
    (if inside then negb (is_type h n "endsequence") else is_type h n "sequence") ->
  scan_outcome o h by_name (n :: rest) inside.
Proof.
  intros Hn. destruct o as [a h'|e h']; cbn [scan_outcome in_group].
  - intros [Hin Hbad]. split; [exact Hin|].
    intros e Hb. apply bad_line_from_cons in Hb.
    destruct Hb as [[Hi Hf]|Hb]; [|exact (Hbad e Hb)].
    rewrite (Hn Hi) in Hf. discriminate.
  - intros [Hend|Hb]; [left; exact Hend|].
    right. apply bad_line_from_cons. right. exact Hb.
Qed.

Lemma scan_outcome_fail {A} (h h' : heap) (by_name : odicti ref)
      (n : node) (rest : list node) (e : exn) :
  line_fails h by_name n = Some e ->
  scan_outcome (@Raise A e h') h by_name (n :: rest) false.
Proof.
  intros Hf. right. apply bad_line_from_cons. left. split; [reflexivity|exact Hf].
Qed.

Lemma same_types_valid (h0 h : heap) (l : loc) :
  same_types h0 h -> (l < List.length h0)%nat -> (l < List.length h)%nat.
Proof.
  intros Hs Hl. destruct (nth_error h0 l) as [e|] eqn:He.
  - destruct (Hs l e He) as (e' & He' & _). eapply nth_error_lt. exact He'.
  - apply nth_error_None in He. lia.
Qed.

(** The scan of [detect], from any point of it. *)
Lemma detect_scan_outcome (inline : bool) (by_name : odicti ref) (h0 : heap) :
  forall it seq h,
    same_types h0 h -> Forall (valid_node h0) it ->
    scan_outcome (detect_scan inline by_name it seq h) h0 by_name it (is_open seq).
Proof.
  induction it as [|elem rest IH]; intros seq h Hs Hv; cbn [detect_scan].
  - destruct seq; cbn.
    + left. split; reflexivity.
    + split; [reflexivity|].
      intros e (pre & nd & post & Heq & _). destruct pre; discriminate.
  - inversion Hv as [|? ? Hve Hvr]; subst.
    destruct (node_type_same elem Hs Hve) as (ty & Hty & Hty0).
    rewrite (bind_reading_Ok (fun h => node_type h elem) _ h Hty).
    assert (Hist : forall lit, is_type h0 elem lit = stri_is ty lit).
    { intros lit. unfold is_type. rewrite Hty0. reflexivity. }
    destruct seq as [group|]; cbn [is_open].
    + apply scan_outcome_cons; [discriminate|]. rewrite Hist.
      destruct (stri_is ty "endsequence") eqn:Hend; cbn [negb].
      * apply scan_outcome_map. exact (IH None h Hs Hvr).
      * exact (IH (Some (group ++ [elem])) h Hs Hvr).
    + destruct (stri_is ty "sequence") eqn:Hseq.
      * destruct elem as [l|s|name elems]; cbn in Hty;
          [|injection Hty as <-; discriminate|injection Hty as <-; discriminate].
        apply scan_outcome_cons.
        { intros _. cbn [line_fails]. rewrite Hist.
          rewrite (stri_is_sequence_not_line _ Hseq). reflexivity. }
        rewrite Hist, Hseq.
        destruct (@same_types_setdefault h l (same_types_valid Hs Hve))
          as (h1 & Hset & Hs1).
        unfold bind at 1. rewrite Hset.
        exact (IH (Some [NElement l]) h1 (same_types_trans Hs Hs1) Hvr).
      * destruct (stri_is ty "line") eqn:Hline.
        -- destruct (node_name_valid elem Hs Hve) as (nm & Hnm).
           rewrite (bind_reading_Ok (fun h => node_name h elem) _ h Hnm).
           destruct elem as [l|s|name elems].
           ++ apply scan_outcome_fail. cbn [line_fails]. rewrite Hist, Hline. reflexivity.
           ++ cbn in Hty. injection Hty as <-. discriminate.
           ++ unfold bind at 1. unfold new_Element at 1. unfold alloc at 1.
              unfold bind at 1. unfold ret at 1.
              set (h1 := h ++ [Build_Element nm (Some "sequence") [("refer", VStr "entry")]
                                             None Dict]).
              assert (Hs1 : same_types h0 h1).
              { eapply same_types_trans; [exact Hs|apply same_types_alloc]. }
              unfold bind at 1.
              assert (Hmem :
                match (if inline then lift (line_members_inline by_name elems)
                       else line_members by_name elems) h1 with
                | Ret _ h' => forallb (od_mem by_name) elems = true /\ same_types h1 h'
                | Raise e _ => forallb (od_mem by_name) elems = false /\ e = KeyError
                end).
              { destruct inline.
                - pose proof (line_members_inline_outcome by_name elems) as Ho.
                  destruct (line_members_inline by_name elems); cbn.
                  + split; [exact Ho|apply same_types_refl].
                  + exact Ho.
                - apply line_members_outcome. }
              destruct ((if inline then lift (line_members_inline by_name elems)
                         else line_members by_name elems) h1) as [members h2|e h2].
              ** destruct Hmem as [Hall Hs2].
                 apply scan_outcome_cons.
                 { intros _. cbn [line_fails]. rewrite Hall. reflexivity. }
                 rewrite Hist, Hseq.
                 unfold bind at 1. unfold new_Element at 1. unfold alloc at 1.
                 apply scan_outcome_map.
                 apply (IH None).
                 --- eapply same_types_trans; [exact Hs1|].
                     eapply same_types_trans; [exact Hs2|apply same_types_alloc].
                 --- exact Hvr.
              ** destruct Hmem as [Hall ->].
                 apply scan_outcome_fail. cbn [line_fails]. rewrite Hall. reflexivity.
        -- apply scan_outcome_cons.
           { intros _. destruct elem as [l|s|name elems]; cbn [line_fails].
             - rewrite Hist, Hline. reflexivity.
             - reflexivity.
             - cbn in Hty. injection Hty as <-. discriminate. }
           rewrite Hist, Hseq.
           apply scan_outcome_map. exact (IH None h Hs Hvr).
Qed.

(** The name table is built only when every element among the nodes
    exists. *)
Lemma build_by_name_valid (h : heap) :
  forall nodes acc by_name,
    build_by_name h nodes acc = Ok by_name -> Forall (valid_node h) nodes.
Proof.
  induction nodes as [|n rest IH]; intros acc by_name Hb; [constructor|].
  cbn [build_by_name] in Hb.
  destruct (node_name h n) as [nm|e] eqn:Hn; cbn [rbind] in Hb; [|discriminate].
  constructor; [|eapply IH; exact Hb].
  destruct n as [l|s|name elems]; cbn; try exact Logic.I.
  cbn in Hn. unfold deref in Hn.
  destruct (nth_error h l) eqn:He; [|discriminate].
  eapply nth_error_lt. exact He.
Qed.

(** C4 (as the code has it): [Sequence.detect], run to its end over nodes
    whose elements exist, fails in exactly these cases: the end of the
    input lies inside a group, that is an element of type [sequence] met
    outside a SEQUENCE..ENDSEQUENCE group is followed by no element of
    type [endsequence]; or a node of type [line] met outside a group does
    not expand, because it is a LINE one of whose members is no name of
    the input, or an [Element], which has no members.  The first gives
    [AssertionError], the second [KeyError] or [AttributeError]; a LINE
    inside a group is carried along unresolved. *)
Theorem C4_detect_fails_outside_groups (inline : bool) (nodes : list node)
        (h : heap) (by_name : odicti ref)
        (Hnames : build_by_name h nodes [] = Ok by_name) :
  ((exists e h', detect inline nodes h = Raise e h') <->
   (unterminated h nodes \/ exists e, bad_line h by_name nodes e))
  /\ (forall e h', detect inline nodes h = Raise e h' ->
        (e = AssertionError /\ unterminated h nodes)
        \/ ((e = KeyError \/ e = AttributeError) /\ bad_line h by_name nodes e)).
Proof.
  pose proof (@detect_scan_outcome inline by_name h nodes None h
                (same_types_refl h) (@build_by_name_valid h nodes [] by_name Hnames)) as Ho.
  unfold detect. rewrite (bind_reading_Ok (fun h => build_by_name h nodes []) _ h Hnames).
  cbn [is_open] in Ho. unfold unterminated, bad_line.
  destruct (detect_scan inline by_name nodes None h) as [out h1|e1 h1];
    cbn [scan_outcome] in Ho.
  - destruct Ho as [Hin Hbad]. split.
    + split.
      * intros (e & h' & Hr). discriminate.
      * intros [Hu|[e Hb]]; [congruence|destruct (Hbad e Hb)].
    + intros e h' Hr. discriminate.
  - split.
    + split.
      * intros _. destruct Ho as [[_ Hu]|Hb]; [left; exact Hu|right; exists e1; exact Hb].
      * intros _. exists e1, h1. reflexivity.
    + intros e h' [= <- <-]. destruct Ho as [Hu|Hb]; [left; exact Hu|right].
      split; [|exact Hb].
      destruct Hb as (pre & nd & post & _ & _ & Hf).
      destruct nd as [l|s|name elems]; cbn [line_fails] in Hf.
      * destruct (is_type h (NElement l) "line"); [|discriminate].
        injection Hf as <-. right. reflexivity.
      * discriminate.
      * destruct (forallb (od_mem by_name) elems); [discriminate|].
        injection Hf as <-. left. reflexivity.
Qed.

(** C4 at concrete inputs: a head that no tail follows makes [detect]
    fail. *)
Lemma C4_detect_witness :
  exists e h', detect false open_nodes group_heap = Raise e h'.
Proof.
  apply (proj1 (@C4_detect_fails_outside_groups false open_nodes group_heap
                  [("S", RElement 0%nat)] eq_refl)).
  left. reflexivity.
Defined.

(** C4 as stated fails for a LINE inside a group: between a head and its
    tail, the LINE [L] over the name [NOPE], which no node of the input
    carries, does not make [detect] fail; the group is returned with the
    LINE in it. *)
Lemma C4_counterexample_line_inside_group :
  exists by_name h',
    build_by_name group_heap line_in_group [] = Ok by_name
    /\ undefined_line by_name line_in_group
    /\ detect false line_in_group group_heap
       = Ret [DSequence (mkSequence line_in_group [])] h'.
Proof.
  do 2 eexists. split; [reflexivity|]. split.
  - exists (Some "L"), ["NOPE"], "NOPE".
    split; [right; left; reflexivity|]. split; [left; reflexivity|reflexivity].
  - vm_compute. reflexivity.
Qed.

(** ** The length of a transformed sequence *)

Lemma transforms_length (h0 h : heap) (m : nat) :
  transforms h0 m h -> (List.length h0 <= List.length h)%nat.
Proof.
  intros [_ Hk]. destruct h0 as [|x h0] using rev_ind; [cbn; lia|].
  destruct (Hk (List.length h0) x (nth_error_alloc_new h0 x)) as (e' & He' & _).
  apply nth_error_lt in He'. rewrite length_app. cbn. lia.
Qed.

(** A store that only grew is still the store of the transformation. *)
Lemma transforms_frame (h0 h h' : heap) (m : nat) :
  (m <= List.length h0)%nat ->
  transforms h0 m h -> firstn (List.length h) h' = h -> transforms h0 m h'.
Proof.
  intros Hm Ht Hf. pose proof (transforms_length Ht) as Hlen.
  destruct Ht as [Hfirst Hk]. split.
  - rewrite <- Hfirst.
    transitivity (firstn m (firstn (List.length h) h')); [|rewrite Hf; reflexivity].
    rewrite firstn_firstn. f_equal. lia.
  - intros l e He. destruct (Hk l e He) as (e' & He' & Hn).
    exists e'. split; [|exact Hn].
    eapply firstn_keeps_elem; [exact Hf|exact He'].
Qed.

Lemma transforms_alloc (h0 h : heap) (m : nat) (e : Element) :
  (m <= List.length h0)%nat ->
  transforms h0 m h -> transforms h0 m (h ++ [e]).
Proof.
  intros Hm Ht. eapply transforms_frame; [exact Hm|exact Ht|].
  rewrite firstn_app, Nat.sub_diag, firstn_all. cbn. apply app_nil_r.
Qed.

Lemma transforms_set_base (h0 h h1 : heap) (m : nat) (l : loc)
      (b : option ref) (u : unit) :
  transforms h0 m h -> (m <= l)%nat -> set_base l b h = Ret u h1 ->
  transforms h0 m h1
  /\ List.length h1 = List.length h
  /\ exists e, nth_error h l = Some e
               /\ nth_error h1 l
                  = Some (with_base e b).
Proof.
  intros [Hfirst Hk] Hl Hset. unfold set_base in Hset.
  apply modify_Ret in Hset. destruct Hset as (e & He & ->).
  pose proof (nth_error_lt _ _ He) as Hlt.
  split; [split|split].
  - rewrite firstn_update_nth by exact Hl. exact Hfirst.
  - intros l' e0 He0. destruct (Hk l' e0 He0) as (e' & He' & Hn & Hty & Ha & Hc).
    destruct (Nat.eq_dec l' l) as [->|Hne].
    + rewrite nth_error_update_nth_eq by exact Hlt.
      eexists. split; [reflexivity|]. cbn.
      rewrite He in He'. injection He' as <-. repeat split; assumption.
    + rewrite nth_error_update_nth_neq by exact Hne.
      exists e'. repeat split; assumption.
  - apply update_nth_length.
  - exists e. split; [exact He|].
    apply nth_error_update_nth_eq. exact Hlt.
Qed.

(** What a body element whose base is its definition finds under [key]. *)
Lemma getitem_resolved (h0 h : heap) (m : nat) (defs : odicti loc)
      (l : loc) (e0 e : Element) (key : string) :
  wf_heap h0 -> defs_below defs m -> firstn m h = firstn m h0 ->
  (m <= l)%nat ->
  nth_error h0 l = Some e0 -> nth_error h l = Some e ->
  el_args e = el_args e0 -> el_class e = el_class e0 ->
  el_base e = defs_get defs (el_type e0) ->
  getitem h l key = effective h0 defs l key.
Proof.
  intros Hwf Hdefs Hf Hl He0 He Hargs Hclass Hbase.
  unfold getitem, effective. cbn [getitem_fuel].
  rewrite He, He0, Hargs, Hclass, Hbase.
  destruct (own e0 key); [reflexivity|].
  destruct (defs_get defs (el_type e0)) as [[d|ln le]|] eqn:Hd; try reflexivity.
  assert (Hdm : (d < m)%nat).
  { unfold defs_get in Hd. destruct (el_type e0) as [ty|]; [|discriminate].
    destruct (od_get defs ty) as [d'|] eqn:Hg; [|discriminate].
    cbn in Hd. injection Hd as <-. exact (Hdefs ty d' Hg). }
  pose proof (nth_error_lt _ _ He) as Hlt.
  pose proof (nth_error_lt _ _ He0) as Hlt0.
  unfold getitem. apply (@getitem_fuel_agree h0 h m key Hwf Hf); lia.
Qed.

Lemma base_type_fuel_agree (h0 h : heap) (m : nat) :
  wf_heap h0 -> firstn m h = firstn m h0 ->
  forall n n' l, (l < m)%nat -> (l < n)%nat -> (l < n')%nat ->
    base_type_fuel n h l = base_type_fuel n' h0 l.
Proof.
  intros Hwf Hf.
  assert (Hnth : forall l, (l < m)%nat -> nth_error h l = nth_error h0 l).
  { intros l Hl.
    pose proof (nth_error_firstn m h l) as H1.
    pose proof (nth_error_firstn m h0 l) as H2.
    apply Nat.ltb_lt in Hl. rewrite Hl in H1, H2.
    rewrite <- H1, <- H2, Hf. reflexivity. }
  induction n as [|n IH]; intros n' l Hm Hn Hn'; [lia|].
  destruct n' as [|n']; [lia|]. cbn [base_type_fuel].
  rewrite (Hnth l Hm).
  destruct (nth_error h0 l) as [e|] eqn:He; [|reflexivity].
  destruct (el_base e) as [[b|ln le]|] eqn:Hb; try reflexivity.
  pose proof (Hwf l e b He Hb). apply IH; lia.
Qed.

(** A rule selects a body element whose base is its definition as it
    selects it in the store the transformation started from. *)
Lemma match_resolved (h0 h : heap) (m : nat) (defs : odicti loc)
      (l : loc) (e0 e : Element) (t : ElementTransform) :
  wf_heap h0 -> defs_below defs m -> firstn m h = firstn m h0 ->
  (m <= l)%nat ->
  nth_error h0 l = Some e0 -> nth_error h l = Some e ->
  el_name e = el_name e0 -> el_type e = el_type e0 ->
  el_base e = defs_get defs (el_type e0) ->
  match_elem t h l = selects t h0 defs l.
Proof.
  intros Hwf Hdefs Hf Hl He0 He Hname Htype Hbase.
  unfold match_elem, selects. destruct (t_match t) as [name|type|]; [| |reflexivity].
  - unfold deref. rewrite He, He0. cbn [rbind]. rewrite Hname. reflexivity.
  - assert (Hbt : base_type h l = effective_type h0 defs l); [|rewrite Hbt; reflexivity].
    unfold base_type, effective_type. cbn [base_type_fuel].
    rewrite He, He0, Hbase.
    destruct (defs_get defs (el_type e0)) as [[d|ln le]|] eqn:Hd;
      [|reflexivity|rewrite Htype; reflexivity].
    assert (Hdm : (d < m)%nat).
    { unfold defs_get in Hd. destruct (el_type e0) as [ty|]; [|discriminate].
      destruct (od_get defs ty) as [d'|] eqn:Hg; [|discriminate].
      cbn in Hd. injection Hd as <-. exact (Hdefs ty d' Hg). }
    pose proof (nth_error_lt _ _ He) as Hlt.
    pose proof (nth_error_lt _ _ He0) as Hlt0.
    unfold base_type. apply (@base_type_fuel_agree h0 h m Hwf Hf); lia.
Qed.

Section HeadExit.
Context `{PyArith}.
Variable defs : odicti loc.
Variable refer : pyval.
Variable h0 : heap.
Variable m : nat.
Hypothesis Hwf : wf_heap h0.
Hypothesis Hdefs : defs_below defs m.
Hypothesis Hm : (m <= List.length h0)%nat.

(** The rule that slices is the first that selects the element. *)
Lemma first_match_rule (l : loc) (offset : pyval) (h : heap) :
  (forall t, match_elem t h l = selects t h0 defs l) ->
  forall ts r h',
    first_match ts l offset refer h = Ret r h' ->
    exists t, rule_of ts h0 defs l = Ok t /\ slice t l offset refer h = Ret r h'.
Proof.
  intros Hmatch.
  induction ts as [|t rest IH]; intros r h' Hf; cbn [first_match rule_of] in *.
  - discriminate.
  - apply bind_Ret in Hf. destruct Hf as (b & hx & Hb & Hf).
    apply reading_Ret in Hb. destruct Hb as [Hb ->].
    rewrite Hmatch in Hb. rewrite Hb. cbn [rbind].
    destruct b; [exists t; split; [reflexivity|exact Hf]|exact (IH _ _ Hf)].
Qed.

(** One turn of the loop over the body: the position moves to the exit of
    the element. *)
Lemma transform_step_exit (ts : list ElementTransform) (l : loc) (position : pyval)
      (h h1 h2 : heap) (templ : list loc) (gen : generator)
      (position' : pyval) (nodes : list node) :
  transforms h0 m h ->
  (m <= l < List.length h0)%nat ->
  typed h0 l = true ->
  transform ts defs refer l position h = Ret (templ, gen, position') h1 ->
  consume gen h1 = Ret nodes h2 ->
  transforms h0 m h2
  /\ exists t len entry,
       rule_of ts h0 defs l = Ok t
       /\ elem_length h0 defs l = Ok len
       /\ entry_of t h0 defs l len position refer = Ok entry
       /\ py_binop Add entry len = Ok position'.
Proof.
  intros Ht Hl Hty Htr Hc.
  unfold typed in Hty. destruct (nth_error h0 l) as [e0|] eqn:He0; [|discriminate].
  unfold transform in Htr.
  apply bind_Ret in Htr. destruct Htr as (e & hx & Hde & Htr).
  apply reading_Ret in Hde. destruct Hde as [Hde ->].
  pose proof Ht as [_ Hk].
  destruct (Hk l e0 He0) as (e' & He' & Hname & Hty' & Hargs & Hclass).
  unfold deref in Hde. rewrite He' in Hde. injection Hde as <-.
  rewrite Hty', Hty in Htr.
  apply bind_Ret in Htr. destruct Htr as (u & ha & Hset & Hfm).
  destruct (@transforms_set_base h0 h ha m l _ u Ht (proj1 Hl) Hset)
    as (Hta & Hlen & e1 & He1 & Hea).
  rewrite He' in He1. injection He1 as <-.
  assert (Hget : forall key, getitem ha l key = effective h0 defs l key).
  { intros key.
    apply (@getitem_resolved h0 ha m defs l e0 _ key Hwf Hdefs (proj1 Hta)
             (proj1 Hl) He0 Hea).
    - exact Hargs.
    - exact Hclass.
    - cbn. congruence. }
  assert (Hmatch : forall t, match_elem t ha l = selects t h0 defs l).
  { intros t.
    apply (@match_resolved h0 ha m defs l e0 _ t Hwf Hdefs (proj1 Hta)
             (proj1 Hl) He0 Hea).
    - exact Hname.
    - exact Hty'.
    - cbn. congruence. }
  destruct (@first_match_rule l position ha Hmatch ts _ _ Hfm) as (t & Hrule & Hslice).
  pose proof (@keeps_slice _ (List.length ha) t l position refer ha (le_n _)) as Hks.
  rewrite Hslice in Hks. rewrite firstn_all in Hks.
  destruct Hks as (Hf1 & Hlen1 & _).
  pose proof (@keeps_consume _ (List.length ha) gen h1 Hlen1) as Hkc.
  rewrite Hc in Hkc. rewrite Hf1 in Hkc. destruct Hkc as (Hf2 & _ & _).
  split; [exact (@transforms_frame h0 ha h2 m Hm Hta Hf2)|].
  apply slice_Ret in Hslice.
  destruct Hslice as (L & pos & n & d & slice_len & num_d & ratio & scaled & hs
                      & HL & Hpos & _ & _ & _ & _ & _ & _ & _ & _ & _ & Hexit).
  exists t, L, pos. split; [exact Hrule|]. split; [|split; [|exact Hexit]].
  - unfold get in HL. rewrite Hget in HL. exact HL.
  - unfold get_position in Hpos. rewrite Hget in Hpos. exact Hpos.
Qed.

(** The loop over the body ends at the exit of its last element. *)
Lemma transform_body_exit (ts : list ElementTransform) :
  forall body templates elements position h r h',
    transforms h0 m h ->
    Forall (in_body h0 m) body ->
    transform_body ts defs refer body templates elements position h = Ret r h' ->
    transforms h0 m h' /\ body_exit ts h0 defs refer body position = Ok (snd r).
Proof.
  induction body as [|nd rest IH]; intros templates elements position h r h' Ht Hb Hrun;
    cbn [transform_body body_exit] in *.
  - apply ret_Ret in Hrun. destruct Hrun as [-> ->]. split; [exact Ht|reflexivity].
  - inversion Hb as [|? ? Hnd Hrest]; subst.
    destruct nd as [l|s|name elems].
    + cbn [in_body] in Hnd.
      apply bind_Ret in Hrun. destruct Hrun as (e & hx & Hde & Hrun).
      apply reading_Ret in Hde. destruct Hde as [Hde ->].
      assert (Hty : truthy_str (el_type e) = typed h0 l).
      { unfold typed. destruct (nth_error h0 l) as [e0|] eqn:He0.
        - destruct Ht as [_ Hk]. destruct (Hk l e0 He0) as (e' & He' & _ & Hty' & _).
          unfold deref in Hde. rewrite He' in Hde. injection Hde as <-.
          rewrite Hty'. reflexivity.
        - apply nth_error_None in He0. lia. }
      rewrite Hty in Hrun. destruct (typed h0 l) eqn:Htyped.
      * apply bind_Ret in Hrun. destruct Hrun as ([[templ gen] position1] & h1 & Htr & Hrun).
        apply bind_Ret in Hrun. destruct Hrun as (nodes & h2 & Hc & Hrun).
        destruct (@transform_step_exit ts l position h h1 h2 templ gen position1 nodes
                    Ht Hnd Htyped Htr Hc)
          as (Ht2 & t & len & entry & Hrule & Hlen & Hentry & Hadd).
        rewrite Hrule. cbn [rbind]. rewrite Hlen. cbn [rbind].
        rewrite Hentry. cbn [rbind]. rewrite Hadd. cbn [rbind].
        exact (IH _ _ _ _ _ _ Ht2 Hrest Hrun).
      * exact (IH _ _ _ _ _ _ Ht Hrest Hrun).
    + exact (IH _ _ _ _ _ _ Ht Hrest Hrun).
    + discriminate.
Qed.

(** Where no [at] plays a part, the exit position is the sum of the
    lengths. *)
Lemma body_exit_sum (ts : list ElementTransform) :
  forall body position total,
    Forall (at_ignored ts h0 defs) body ->
    body_exit ts h0 defs refer body position = Ok total ->
    body_length h0 defs body position = Ok total.
Proof.
  induction body as [|nd rest IH]; intros position total Hb Hex;
    cbn [body_exit body_length] in *; [exact Hex|].
  inversion Hb as [|? ? Hnd Hrest]; subst.
  destruct nd as [l|s|name elems]; [|exact (IH _ _ Hrest Hex)..].
  cbn [at_ignored] in Hnd.
  destruct (typed h0 l) eqn:Hty; [|exact (IH _ _ Hrest Hex)].
  destruct (rule_of ts h0 defs l) as [t|x] eqn:Hrule; [|discriminate].
  cbn [rbind] in Hex.
  destruct (elem_length h0 defs l) as [len|x] eqn:Hlen; [|discriminate].
  cbn [rbind] in *.
  destruct (entry_of t h0 defs l len position refer) as [entry|x] eqn:Hentry;
    [|discriminate].
  cbn [rbind] in Hex.
  assert (entry = position) as ->.
  { unfold entry_of in Hentry.
    destruct (Hnd eq_refl) as [Hat|(t' & Ht' & Hu)].
    - rewrite Hat in Hentry. cbn [rbind] in Hentry.
      destruct (t_use_at t); injection Hentry as <-; reflexivity.
    - injection Ht' as <-. rewrite Hu in Hentry. injection Hentry as <-. reflexivity. }
  destruct (py_binop Add position len) as [exit_|x] eqn:Hadd; [|discriminate].
  cbn [rbind] in *. exact (IH _ _ Hrest Hex).
Qed.

End HeadExit.

(** C3: The length of a transformed sequence.  The [L] that
    [SequenceTransform.__call__] gives the new head is the position the
    loop over the body ends at: the exit position of the last body element
    that has a type (0 if there is none), where the entry position of an
    element is its [at] less its length times the multiplier of the
    head's [refer] when the element has an [at], its own or from its
    definition in [defs], and the first rule that selects it reads [at],
    and is the exit position of the element before it otherwise; the exit
    position is the entry position plus the length.  It is the sum of the
    lengths of the typed body elements when every one of them has no [at]
    or is sliced by a rule with [use_at] off.  The store is taken with
    bases that point backwards and the definitions before the body
    elements. *)
Theorem C3_head_length_is_exit_position `{PyArith}
        (ts : list ElementTransform) (defs defs' : odicti loc) (s : Sequence)
        (h h' : heap) (m : nat) (out : docnode)
        (Hwf : wf_heap h)
        (Hdefs : defs_below defs m)
        (Hm : (m <= List.length h)%nat)
        (Hbody : Forall (in_body h m) (seq_body s))
        (Hrun : SequenceTransform_call ts (DSequence s) defs h = Ret (out, defs') h') :
  exists hd refer head elements tail preface e total,
    seq_head s = Ok (NElement hd)
    /\ refer_of h hd = Ok refer
    /\ out = DSequence (mkSequence (NElement head :: elements ++ [tail]) preface)
    /\ nth_error h' head = Some e
    /\ own e "L" = Some total
    /\ body_exit ts h defs refer (seq_body s) (VInt 0) = Ok total
    /\ (Forall (at_ignored ts h defs) (seq_body s) ->
        body_length h defs (seq_body s) (VInt 0) = Ok total).
Proof.
  cbn [SequenceTransform_call] in Hrun.
  apply bind_Ret in Hrun. destruct Hrun as (hn & hx & Hh & Hrun).
  apply lift_Ret in Hh. destruct Hh as [Hh ->].
  destruct hn as [hd|?|? ?]; try discriminate.
  apply bind_Ret in Hrun. destruct Hrun as (head & h1 & Hcopy & Hrun).
  apply copy_Ret in Hcopy. destruct Hcopy as (ehd & Hehd & -> & ->).
  apply bind_Ret in Hrun. destruct Hrun as (tail & hx & Htail & Hrun).
  apply lift_Ret in Htail. destruct Htail as [Htail ->].
  apply bind_Ret in Hrun. destruct Hrun as (refer & hx & Hrefer & Hrun).
  apply reading_Ret in Hrefer. destruct Hrefer as [Hrefer ->].
  apply bind_Ret in Hrun.
  destruct Hrun as ([[templates elements] position] & h2 & Hbodyrun & Hrun).
  apply bind_Ret in Hrun. destruct Hrun as (u & h3 & Hset & Hrun).
  apply bind_Ret in Hrun. destruct Hrun as (e & hx & Hde & Hrun).
  apply reading_Ret in Hde. destruct Hde as [Hde ->].
  apply ret_Ret in Hrun. destruct Hrun as [Hout ->].
  injection Hout as -> ->.
  destruct (@transform_body_exit _ defs refer h m Hwf Hdefs Hm ts
              (seq_body s) [] [] (VInt 0) (h ++ [ehd]) _ h2
              (@transforms_alloc h h m ehd Hm (transforms_refl h m)) Hbody Hbodyrun)
    as (_ & Hexit).
  cbn [snd] in Hexit.
  unfold setitem in Hset. apply modify_Ret in Hset.
  destruct Hset as (e2 & He2 & ->).
  unfold deref in Hde.
  rewrite nth_error_update_nth_eq in Hde by (eapply nth_error_lt; exact He2).
  injection Hde as <-.
  exists hd, refer. eexists (List.length h), elements, tail, _, _, position.
  split; [exact Hh|].
  split.
  { destruct (@getitem_copy h hd ehd "refer" Hwf Hehd) as (_ & Hg & _).
    unfold refer_of, get in *. rewrite Hg in Hrefer. exact Hrefer. }
  split; [reflexivity|].
  split; [apply nth_error_update_nth_eq; eapply nth_error_lt; exact He2|].
  split; [cbn [el_args el_class]; apply dict_get_set|].
  split; [exact Hexit|].
  intros Hig. exact (@body_exit_sum _ defs refer h ts _ _ _ Hig Hexit).
Qed.

Lemma mixed_heap_wf : wf_heap mixed_heap.
Proof.
  intros l e b He Hb.
  destruct l as [|[|[|[|[|l]]]]]; cbn in He;
    [injection He as <-; discriminate ..|destruct l; discriminate].
Qed.

Lemma C3_head_length_witness :
  exists out defs' h' head e,
    SequenceTransform_call [drift_rule; catch_all] (DSequence mixed_sequence)
      [("QF", 0%nat)] mixed_heap = Ret (out, defs') h'
    /\ nth_error h' head = Some e
    /\ own e "L" = Some (dec_lit 75 (-1))
    /\ body_exit [drift_rule; catch_all] mixed_heap [("QF", 0%nat)] one_half
         (seq_body mixed_sequence) (VInt 0) = Ok (dec_lit 75 (-1)).
Proof.
  assert (Hrun : exists out defs' h',
             SequenceTransform_call [drift_rule; catch_all] (DSequence mixed_sequence)
               [("QF", 0%nat)] mixed_heap = Ret (out, defs') h').
  { do 3 eexists. vm_compute. reflexivity. }
  destruct Hrun as (out & defs' & h' & Hrun).
  destruct (@C3_head_length_is_exit_position python [drift_rule; catch_all]
              [("QF", 0%nat)] defs' mixed_sequence mixed_heap h' 1%nat out)
    as (hd & refer & head & elements & tail & preface & e & total
        & Hhd & Hrefer & _ & He & HL & Hexit & _).
  - exact mixed_heap_wf.
  - intros k d Hd. unfold od_get in Hd. cbn in Hd.
    match type of Hd with
    | (if ?c then _ else _) = _ => destruct c; [injection Hd as <-; lia|discriminate]
    end.
  - cbn. lia.
  - repeat constructor; cbn; lia.
  - exact Hrun.
  - injection Hhd as <-. vm_compute in Hrefer. injection Hrefer as <-.
    vm_compute in Hexit. injection Hexit as <-.
    exists out, defs', h', head, e.
    split; [exact Hrun|]. split; [exact He|]. split; [exact HL|].
    vm_compute. reflexivity.
Defined.

(** C3 as stated fails for a body element that is placed by [at].  The
    sequence that [Sequence.detect] returns for the head [S] with the
    entry convention, the drift [D] of length 2 placed at 10 and the tail
    is given by [SequenceTransform([])] a head of length 12, the exit
    position of the drift; the lengths of the body elements add up to
    2. *)
Lemma C3_counterexample_placed_element :
  exists s ts out defs' h' head elements tail preface e,
    detect false placed_nodes placed_heap = Ret [DSequence s] placed_heap
    /\ SequenceTransform_init [] = Ok ts
    /\ SequenceTransform_call ts (DSequence s) [] placed_heap = Ret (out, defs') h'
    /\ out = DSequence (mkSequence (NElement head :: elements ++ [tail]) preface)
    /\ nth_error h' head = Some e
    /\ own e "L" = Some (VInt 12)
    /\ body_length placed_heap [] (seq_body s) (VInt 0) = Ok (VInt 2)
    /\ py_eqb (VInt 12) (VInt 2) = false.
Proof.
  exists (mkSequence placed_nodes []), [catch_all].
  eexists _, _, _, 3%nat, [NElement 4%nat], (NElement 2%nat), [], _.
  split; [vm_compute; reflexivity|].
  split; [reflexivity|].
  split; [vm_compute; reflexivity|].
  split; [reflexivity|].
  split; [reflexivity|].
  split; [reflexivity|].
  split; [vm_compute; reflexivity|reflexivity].
Qed.

Section HeadLength.
Context `{PyArith}.
Variable defs : odicti loc.
Variable refer : pyval.
Variable h0 : heap.
Variable m : nat.
Hypothesis Hwf : wf_heap h0.
Hypothesis Hdefs : defs_below defs m.
Hypothesis Hm : (m <= List.length h0)%nat.

(** The rule that slices is one of the rules, and matching reads only. *)
Lemma first_match_Ret (elem : loc) (offset : pyval) :
  forall ts h r h',
    first_match ts elem offset refer h = Ret r h' ->
    exists t, slice t elem offset refer h = Ret r h'.
Proof.
  induction ts as [|t rest IH]; intros h r h' Hf; cbn [first_match] in Hf.
  - discriminate.
  - apply bind_Ret in Hf. destruct Hf as (b & hx & Hb & Hf).
    apply reading_Ret in Hb. destruct Hb as [_ ->].
    destruct b; [exists t; exact Hf|exact (IH _ _ _ Hf)].
Qed.

(** One turn of the loop over the body, for an element without [at]: the
    position advances by the length of the element. *)
Lemma transform_step (ts : list ElementTransform) (l : loc) (position : pyval)
      (h h1 h2 : heap) (templ : list loc) (gen : generator)
      (position' : pyval) (nodes : list node) :
  transforms h0 m h ->
  (m <= l < List.length h0)%nat ->
  typed h0 l = true ->
  effective h0 defs l "at" = Err KeyError ->
  transform ts defs refer l position h = Ret (templ, gen, position') h1 ->
  consume gen h1 = Ret nodes h2 ->
  transforms h0 m h2
  /\ exists len, elem_length h0 defs l = Ok len
                 /\ py_binop Add position len = Ok position'.
Proof.
  intros Ht Hl Hty Hat Htr Hc.
  unfold typed in Hty. destruct (nth_error h0 l) as [e0|] eqn:He0; [|discriminate].
  unfold transform in Htr.
  apply bind_Ret in Htr. destruct Htr as (e & hx & Hde & Htr).
  apply reading_Ret in Hde. destruct Hde as [Hde ->].
  pose proof Ht as [_ Hk]. destruct (Hk l e0 He0) as (e' & He' & _ & Hty' & _).
  unfold deref in Hde. rewrite He' in Hde. injection Hde as <-.
  rewrite Hty', Hty in Htr.
  apply bind_Ret in Htr. destruct Htr as (u & ha & Hset & Hfm).
  destruct (@transforms_set_base h0 h ha m l _ u Ht (proj1 Hl) Hset)
    as (Hta & Hlen & e1 & He1 & Hea).
  rewrite He' in He1. injection He1 as <-.
  destruct (Hk l e0 He0) as (e2 & He2 & _ & _ & Hargs & Hclass).
  rewrite He' in He2. injection He2 as <-.
  apply first_match_Ret in Hfm. destruct Hfm as (t & Hslice).
  assert (Hget : forall key, getitem ha l key = effective h0 defs l key).
  { intros key.
    apply (@getitem_resolved h0 ha m defs l e0 _ key Hwf Hdefs (proj1 Hta)
             (proj1 Hl) He0 Hea).
    - exact Hargs.
    - exact Hclass.
    - cbn. congruence. }
  pose proof (@keeps_slice _ (List.length ha) t l position refer ha (le_n _)) as Hks.
  rewrite Hslice in Hks. rewrite firstn_all in Hks.
  destruct Hks as (Hf1 & Hlen1 & _).
  pose proof (@keeps_consume _ (List.length ha) gen h1 Hlen1) as Hkc.
  rewrite Hc in Hkc. rewrite Hf1 in Hkc. destruct Hkc as (Hf2 & _ & _).
  split; [exact (@transforms_frame h0 ha h2 m Hm Hta Hf2)|].
  apply slice_Ret in Hslice.
  destruct Hslice as (L & pos & n & d & slice_len & num_d & ratio & scaled & hs
                      & HL & Hpos & _ & _ & _ & _ & _ & _ & _ & _ & _ & Hexit).
  exists L. split.
  - unfold get in HL. rewrite Hget in HL. exact HL.
  - unfold get_position in Hpos. rewrite Hget, Hat in Hpos. cbn [rbind] in Hpos.
    destruct (t_use_at t); injection Hpos as <-; exact Hexit.
Qed.

(** The loop over a body none of whose elements has an [at]: the final
    position is the sum of the lengths. *)
Lemma transform_body_length (ts : list ElementTransform) :
  forall body templates elements position h r h',
    transforms h0 m h ->
    Forall (unplaced h0 defs m) body ->
    transform_body ts defs refer body templates elements position h = Ret r h' ->
    transforms h0 m h' /\ body_length h0 defs body position = Ok (snd r).
Proof.
  induction body as [|nd rest IH]; intros templates elements position h r h' Ht Hb Hrun;
    cbn [transform_body body_length] in *.
  - apply ret_Ret in Hrun. destruct Hrun as [-> ->]. split; [exact Ht|reflexivity].
  - inversion Hb as [|? ? Hnd Hrest]; subst.
    destruct nd as [l|s|name elems].
    + destruct Hnd as [Hl Hat].
      apply bind_Ret in Hrun. destruct Hrun as (e & hx & Hde & Hrun).
      apply reading_Ret in Hde. destruct Hde as [Hde ->].
      assert (Hty : truthy_str (el_type e) = typed h0 l).
      { unfold typed. destruct (nth_error h0 l) as [e0|] eqn:He0.
        - destruct Ht as [_ Hk]. destruct (Hk l e0 He0) as (e' & He' & _ & Hty' & _).
          unfold deref in Hde. rewrite He' in Hde. injection Hde as <-.
          rewrite Hty'. reflexivity.
        - apply nth_error_None in He0. lia. }
      rewrite Hty in Hrun. destruct (typed h0 l) eqn:Htyped.
      * apply bind_Ret in Hrun. destruct Hrun as ([[templ gen] position1] & h1 & Htr & Hrun).
        apply bind_Ret in Hrun. destruct Hrun as (nodes & h2 & Hc & Hrun).
        destruct (@transform_step ts l position h h1 h2 templ gen position1 nodes
                    Ht Hl Htyped (Hat eq_refl) Htr Hc)
          as (Ht2 & len & Hlen & Hadd).
        rewrite Hlen. cbn [rbind]. rewrite Hadd. cbn [rbind].
        exact (IH _ _ _ _ _ _ Ht2 Hrest Hrun).
      * exact (IH _ _ _ _ _ _ Ht Hrest Hrun).
    + exact (IH _ _ _ _ _ _ Ht Hrest Hrun).
    + discriminate.
Qed.

End HeadLength.

(** X1: The length of a transformed sequence: when no body element that has
    a type carries an [at] argument, neither its own nor from its
    definition in [defs], the [L] that [SequenceTransform.__call__] gives
    the new head is the sum of the lengths of the body elements that have
    a type, each length being the element's [L], its own or from its
    definition, or 0 where there is none.  The store is taken with bases
    that point backwards and the definitions before the body elements. *)
Theorem head_length_without_at `{PyArith}
        (ts : list ElementTransform) (defs defs' : odicti loc) (s : Sequence)
        (h h' : heap) (m : nat) (out : docnode)
        (Hwf : wf_heap h)
        (Hdefs : defs_below defs m)
        (Hm : (m <= List.length h)%nat)
        (Hbody : Forall (unplaced h defs m) (seq_body s))
        (Hrun : SequenceTransform_call ts (DSequence s) defs h = Ret (out, defs') h') :
  exists head elements tail preface e total,
    out = DSequence (mkSequence (NElement head :: elements ++ [tail]) preface)
    /\ nth_error h' head = Some e
    /\ own e "L" = Some total
    /\ body_length h defs (seq_body s) (VInt 0) = Ok total.
Proof.
  cbn [SequenceTransform_call] in Hrun.
  apply bind_Ret in Hrun. destruct Hrun as (hn & hx & Hh & Hrun).
  apply lift_Ret in Hh. destruct Hh as [Hh ->].
  destruct hn as [hd|?|? ?]; try discriminate.
  apply bind_Ret in Hrun. destruct Hrun as (head & h1 & Hcopy & Hrun).
  apply copy_Ret in Hcopy. destruct Hcopy as (ehd & Hehd & -> & ->).
  apply bind_Ret in Hrun. destruct Hrun as (tail & hx & Htail & Hrun).
  apply lift_Ret in Htail. destruct Htail as [Htail ->].
  apply bind_Ret in Hrun. destruct Hrun as (refer & hx & Hrefer & Hrun).
  apply reading_Ret in Hrefer. destruct Hrefer as [Hrefer ->].
  apply bind_Ret in Hrun.
  destruct Hrun as ([[templates elements] position] & h2 & Hbodyrun & Hrun).
  apply bind_Ret in Hrun. destruct Hrun as (u & h3 & Hset & Hrun).
  apply bind_Ret in Hrun. destruct Hrun as (e & hx & Hde & Hrun).
  apply reading_Ret in Hde. destruct Hde as [Hde ->].
  apply ret_Ret in Hrun. destruct Hrun as [Hout ->].
  injection Hout as -> ->.
  destruct (@transform_body_length _ defs refer h m Hwf Hdefs Hm ts
              (seq_body s) [] [] (VInt 0) (h ++ [ehd]) _ h2
              (@transforms_alloc h h m ehd Hm (transforms_refl h m)) Hbody Hbodyrun)
    as (_ & Hsum).
  cbn [snd] in Hsum.
  unfold setitem in Hset. apply modify_Ret in Hset.
  destruct Hset as (e2 & He2 & ->).
  unfold deref in Hde.
  rewrite nth_error_update_nth_eq in Hde by (eapply nth_error_lt; exact He2).
  injection Hde as <-.
  eexists (List.length h), elements, tail, _, _, position.
  split; [reflexivity|].
  split; [apply nth_error_update_nth_eq; eapply nth_error_lt; exact He2|].
  split; [cbn [el_args el_class]; apply dict_get_set|exact Hsum].
Qed.

Lemma bare_heap_wf : wf_heap bare_heap.
Proof.
  intros l e b He Hb.
  destruct l as [|[|[|l]]]; cbn in He;
    [injection He as <-; discriminate ..|destruct l; discriminate].
Qed.

Lemma head_length_without_at_witness :
  exists head e total,
    nth_error (bare_heap ++ [mkElement (Some "S") (Some "SEQUENCE") [("L", VInt 2)] None;
                             mkElement (Some "D") (Some "DRIFT")
                                       [("L", VInt 2); ("at", dec_lit 10 (-1))] None])
              head = Some e
    /\ own e "L" = Some total
    /\ body_length bare_heap [] (seq_body bare_sequence) (VInt 0) = Ok total.
Proof.
  edestruct (@head_length_without_at python [catch_all] [] [] bare_sequence
               bare_heap) with (m := 1%nat)
    as (head & elements & tail & preface & e & total & _ & He & HL & Hsum).
  - exact bare_heap_wf.
  - intros k d Hd. discriminate.
  - cbn. lia.
  - repeat constructor; cbn; try lia; try (intros _; reflexivity).
  - lazy. reflexivity.
  - exists head, e, total. split; [exact He|]. split; [exact HL|exact Hsum].
Defined.

(** * Further properties of the code *)

(** ** Dictionaries *)

Lemma od_get_set_ci {V} (d : odicti V) (k k' : string) (v : V) :
  same_key k k' = true -> od_get (od_set d k v) k' = Some v.
Proof.
  unfold same_key. intros Hk. apply String.eqb_eq in Hk.
  induction d as [|kv d IH]; cbn.
  - unfold key_is. cbn. rewrite Hk, String.eqb_refl. reflexivity.
  - destruct (key_is k kv) eqn:E; cbn.
    + unfold key_is in *. cbn. rewrite <- Hk. rewrite E. reflexivity.
    + unfold key_is in *. rewrite <- Hk. rewrite E. exact IH.
Qed.

Lemma od_get_set_other {V} (d : odicti V) (k k' : string) (v : V) :
  same_key k k' = false -> od_get (od_set d k v) k' = od_get d k'.
Proof.
  unfold same_key. intros Hk.
  induction d as [|kv d IH]; cbn.
  - unfold key_is. cbn. rewrite Hk. reflexivity.
  - destruct (key_is k kv) eqn:E; cbn.
    + unfold key_is in *. cbn. apply String.eqb_eq in E.
      rewrite E, Hk. reflexivity.
    + destruct (key_is k' kv); [reflexivity|exact IH].
Qed.

Lemma od_get_none_unique {V} (d : odicti V) (kv : string * V) (k : string) :
  unique_keys (kv :: d) -> key_is k kv = true -> od_get d k = None.
Proof.
  unfold unique_keys, key_is. cbn. intros Hu Hk. apply String.eqb_eq in Hk.
  inversion Hu as [|? ? Hnot _]; subst. clear Hu.
  induction d as [|x d IH]; [reflexivity|].
  cbn. unfold key_is.
  destruct (String.eqb (lower (fst x)) (lower k)) eqn:E.
  - apply String.eqb_eq in E. exfalso. apply Hnot. left. congruence.
  - apply IH. intros Hin. apply Hnot. right. exact Hin.
Qed.

Lemma od_set_unique {V} (d : odicti V) (k : string) (v : V) :
  unique_keys d -> unique_keys (od_set d k v).
Proof.
  unfold unique_keys. induction d as [|kv d IH]; intros Hu; cbn.
  - constructor; [intros []|constructor].
  - inversion Hu as [|? ? Hnot Hu']; subst.
    destruct (key_is k kv) eqn:E; cbn.
    + constructor; assumption.
    + constructor; [|apply IH; exact Hu'].
      intros Hin. apply Hnot. clear IH Hu Hu' Hnot.
      induction d as [|x d IHd]; cbn in *.
      * destruct Hin as [Hin|[]]. unfold key_is in E.
        rewrite Hin, String.eqb_refl in E. discriminate.
      * destruct (key_is k x); cbn in Hin.
        -- destruct Hin as [Hin|Hin]; [left; exact Hin|right; exact Hin].
        -- destruct Hin as [Hin|Hin]; [left; exact Hin|right; exact (IHd Hin)].
Qed.

Lemma od_update_unique {V} (other d : odicti V) :
  unique_keys d -> unique_keys (od_update d other).
Proof.
  unfold od_update. revert d. induction other as [|kv other IH]; intros d Hu; cbn.
  - exact Hu.
  - apply IH. apply od_set_unique. exact Hu.
Qed.

(** [update] lets the keys of [other] win and keeps the rest. *)
Lemma od_get_update {V} (other d : odicti V) (k : string) :
  unique_keys other ->
  od_get (od_update d other) k
  = match od_get other k with
    | Some v => Some v
    | None => od_get d k
    end.
Proof.
  unfold od_update. revert d. induction other as [|kv other IH]; intros d Hu; cbn.
  - reflexivity.
  - assert (Hu' : unique_keys other).
    { unfold unique_keys in *. cbn in Hu. inversion Hu; assumption. }
    rewrite (IH _ Hu').
    destruct (key_is k kv) eqn:E.
    + rewrite (@od_get_none_unique V other kv k Hu E).
      apply od_get_set_ci. unfold same_key, key_is in *. exact E.
    + destruct (od_get other k); [reflexivity|].
      apply od_get_set_other. unfold same_key, key_is in *. exact E.
Qed.

(** ** Arguments of elements *)

(** [key in elem] and [elem[key]] agree: the one is true where the other
    returns, false where it raises [KeyError], and fails as it fails. *)
Lemma contains_getitem_fuel (h : heap) (key : string) :
  forall n l,
    match contains_fuel n h l key, getitem_fuel n h l key with
    | Ok true, Ok _ => True
    | Ok false, Err KeyError => True
    | Err e, Err e' => e = e' /\ e <> KeyError
    | _, _ => False
    end.
Proof.
  induction n as [|n IH]; intros l; cbn [contains_fuel getitem_fuel].
  - split; [reflexivity|discriminate].
  - destruct (nth_error h l) as [e|]; [|split; [reflexivity|discriminate]].
    unfold dict_mem. destruct (own e key); [exact Logic.I|].
    destruct (el_base e) as [[b|ln le]|].
    + apply IH.
    + split; [reflexivity|discriminate].
    + exact Logic.I.
Qed.

(** X2: [key in elem] is true exactly where [elem[key]] returns, false
    exactly where it raises [KeyError], and it fails, with the same
    exception, exactly where the lookup fails otherwise. *)
Theorem contains_iff_getitem (h : heap) (l : loc) (key : string) :
  (contains h l key = Ok true <-> exists v, getitem h l key = Ok v)
  /\ (contains h l key = Ok false <-> getitem h l key = Err KeyError)
  /\ (forall e, contains h l key = Err e <-> (getitem h l key = Err e /\ e <> KeyError)).
Proof.
  unfold contains, getitem.
  pose proof (contains_getitem_fuel h key (S (List.length h)) l) as Hc.
  destruct (contains_fuel (S (List.length h)) h l key) as [[|]|e];
    destruct (getitem_fuel (S (List.length h)) h l key) as [v|e'];
    try destruct Hc; try (destruct e'; try destruct Hc; fail).
  - split; [split; [intros _; exists v; reflexivity|reflexivity]|].
    split; [split; discriminate|].
    intros e. split; [discriminate|intros [? _]; discriminate].
  - destruct e'; try destruct Hc.
    split; [split; [discriminate|intros [v Hv]; discriminate]|].
    split; [split; reflexivity|].
    intros e. split; [discriminate|]. intros [[= <-] Hne]. congruence.
  - subst e'. split; [split; [discriminate|intros [v Hv]; discriminate]|].
    split; [split; [discriminate|intros [= ->]; congruence]|].
    intros e0. split.
    + intros [= ->]. split; [reflexivity|assumption].
    + intros [[= ->] _]. reflexivity.
Qed.

(** X3: [elem[key] = v] followed by a lookup: the key now has [v], and so
    has every key the element's dictionary takes for the same, which for
    an [odicti] is the key in any letter case and for a plain [dict] the
    key as it is written; every other key has what it had. *)
Theorem setitem_then_getitem (h h' : heap) (l : loc) (key : string) (v : pyval)
        (u : unit)
        (Hwf : wf_heap h)
        (Hset : setitem l key v h = Ret u h') :
  exists e,
    nth_error h l = Some e
    /\ forall key',
         getitem h' l key'
         = if same_key_in (el_class e) key key' then Ok v else getitem h l key'.
Proof.
  unfold setitem in Hset. apply modify_Ret in Hset.
  destruct Hset as (e & He & ->). exists e. split; [exact He|]. intros key'.
  set (e' := set_args e (dict_set (el_class e) (el_args e) key v)).
  pose proof (nth_error_lt _ _ He) as Hlt.
  assert (Hwf' : wf_heap (update_nth h l e')) by (eapply wf_update_args; eauto).
  rewrite (@getitem_unfold _ l e' key' Hwf' (nth_error_update_nth_eq h e' Hlt)).
  rewrite (@getitem_unfold _ l e key' Hwf He).
  change (el_args e') with (dict_set (el_class e) (el_args e) key v).
  change (el_base e') with (el_base e).
  change (el_class e') with (el_class e).
  destruct (same_key_in (el_class e) key key') eqn:Hk.
  - rewrite (@dict_get_set_same _ (el_class e) (el_args e) key key' v Hk). reflexivity.
  - rewrite (@dict_get_set_other _ (el_class e) (el_args e) key key' v Hk).
    destruct (own e key'); [reflexivity|].
    exact (@inherited_update h l e e' key' Hwf He).
Qed.

(** An element over an [odicti] answers to the key in another case, the
    same element over a plain [dict] does not. *)
Lemma setitem_then_getitem_witness :
  (exists h', setitem 2%nat "B" (VInt 7) chain_heap = Ret tt h'
              /\ getitem h' 2%nat "b" = Ok (VInt 7)
              /\ getitem h' 2%nat "c" = getitem chain_heap 2%nat "c")
  /\ (exists h',
        setitem 0%nat "at" (VInt 7) [Build_Element None (Some "D") [] None Dict]
        = Ret tt h'
        /\ getitem h' 0%nat "at" = Ok (VInt 7)
        /\ getitem h' 0%nat "AT" = Err KeyError).
Proof.
  split.
  - eexists. split; [reflexivity|].
    destruct (@setitem_then_getitem chain_heap _ 2%nat "B" (VInt 7) tt
                chain_heap_wf eq_refl) as (e & He & Hw).
    injection He as <-. split; [exact (Hw "b")|exact (Hw "c")].
  - eexists. split; [reflexivity|].
    assert (Hwf : wf_heap [Build_Element None (Some "D") [] None Dict]).
    { intros l e b He Hb. destruct l as [|l]; cbn in He;
        [injection He as <-; discriminate|destruct l; discriminate]. }
    destruct (@setitem_then_getitem [Build_Element None (Some "D") [] None Dict]
                _ 0%nat "at" (VInt 7) tt Hwf eq_refl) as (e & He & Hw).
    injection He as <-. split; [exact (Hw "at")|exact (Hw "AT")].
Defined.

(** X4: [del elem[key]] removes an argument of the element's own, after which
    the key has what the base has; a key that is not the element's own,
    even if the base has it, gives [KeyError] and nothing changes. *)
Theorem delitem_own_only (h : heap) (l : loc) (e : Element) (key : string)
        (Hwf : wf_heap h)
        (He : nth_error h l = Some e)
        (Hu : dict_unique (el_class e) (el_args e)) :
  match delitem l key h with
  | Ret _ h' =>
      dict_mem (el_class e) (el_args e) key = true
      /\ getitem h' l key = inherited h e key
      /\ forall key', same_key_in (el_class e) key key' = false ->
           getitem h' l key' = getitem h l key'
  | Raise x h' =>
      dict_mem (el_class e) (el_args e) key = false /\ x = KeyError /\ h' = h
  end.
Proof.
  unfold delitem. rewrite (bind_reading_Ok (fun h => deref h l) _ h (a:=e));
    [|unfold deref; rewrite He; reflexivity].
  destruct (dict_mem (el_class e) (el_args e) key) eqn:Hm.
  - unfold modify. rewrite He.
    set (e' := set_args e (dict_del (el_class e) (el_args e) key)).
    pose proof (nth_error_lt _ _ He) as Hlt.
    assert (Hwf' : wf_heap (update_nth h l e')) by (eapply wf_update_args; eauto).
    split; [reflexivity|]. split.
    + rewrite (@getitem_unfold _ l e' key Hwf' (nth_error_update_nth_eq h e' Hlt)).
      change (el_args e') with (dict_del (el_class e) (el_args e) key).
      change (el_base e') with (el_base e).
      change (el_class e') with (el_class e).
      rewrite (@dict_get_del _ (el_class e) (el_args e) key key Hu).
      unfold same_key_in. rewrite String.eqb_refl.
      exact (@inherited_update h l e e' key Hwf He).
    + intros key' Hk.
      rewrite (@getitem_unfold _ l e' key' Hwf' (nth_error_update_nth_eq h e' Hlt)).
      rewrite (@getitem_unfold _ l e key' Hwf He).
      change (el_args e') with (dict_del (el_class e) (el_args e) key).
      change (el_base e') with (el_base e).
      change (el_class e') with (el_class e).
      rewrite (@dict_get_del _ (el_class e) (el_args e) key key' Hu), Hk.
      destruct (own e key'); [reflexivity|].
      exact (@inherited_update h l e e' key' Hwf He).
  - repeat split.
Qed.

Lemma delitem_own_only_witness :
  getitem (update_nth chain_heap 1%nat
             (mkElement None None [("d", VStr "d1")] (Some (RElement 0%nat))))
          1%nat "A"
  = getitem chain_heap 0%nat "A".
Proof.
  pose proof (@delitem_own_only chain_heap 1%nat _ "A" chain_heap_wf eq_refl
                ltac:(repeat constructor; cbn; intuition discriminate)) as Hw.
  exact (proj1 (proj2 Hw)).
Defined.

(** X5: [pop] returns what a lookup returns; where the lookup raises
    [KeyError] it returns the default, and without a default it raises
    [KeyError] when the element has a base and [TypeError] when it has
    none. *)
Theorem pop_agrees_with_getitem (h : heap) (l : loc) (e : Element) (key : string)
        (default : option pyval)
        (Hwf : wf_heap h)
        (He : nth_error h l = Some e) :
  match getitem h l key with
  | Ok v => exists h', pop l key default h = Ret v h'
  | Err KeyError =>
      pop l key default h
      = match default with
        | Some d => Ret d h
        | None => Raise (match el_base e with
                         | None => TypeError
                         | Some _ => KeyError
                         end) h
        end
  | Err _ => True
  end.
Proof.
  rewrite (@getitem_unfold h l e key Hwf He).
  unfold pop. rewrite (bind_reading_Ok (fun h => deref h l) _ h (a:=e));
    [|unfold deref; rewrite He; reflexivity].
  destruct (own e key) as [v|] eqn:Hg.
  - unfold bind, modify. rewrite He. eexists. reflexivity.
  - destruct (el_base e) as [[b|ln le]|].
    + destruct (getitem h b key) as [v|x]; [eexists; reflexivity|].
      destruct x; try exact Logic.I. destruct default; reflexivity.
    + exact Logic.I.
    + destruct default; reflexivity.
Qed.

Lemma pop_agrees_with_getitem_witness :
  exists h', pop 2%nat "b" None chain_heap = Ret (VStr "b0") h'.
Proof.
  exact (@pop_agrees_with_getitem chain_heap 2%nat _ "b" None chain_heap_wf eq_refl).
Defined.

(** [all_args] merges exactly what a lookup sees: a key of the merged
    dictionary has the value [elem[key]] returns, and a key it lacks
    raises [KeyError]. *)
Lemma all_args_fuel_getitem (h : heap) (key : string) :
  heap_odicti h -> heap_unique h ->
  forall n l args,
    all_args_fuel n h l = Ok args ->
    unique_keys args
    /\ getitem_fuel n h l key
       = match od_get args key with
         | Some v => Ok v
         | None => Err KeyError
         end.
Proof.
  intros Ho Hu. induction n as [|n IH]; intros l args Ha;
    cbn [all_args_fuel getitem_fuel] in *; [discriminate|].
  destruct (nth_error h l) as [e|] eqn:He; [|discriminate].
  pose proof (Hu l e He) as Hue. rewrite (Ho l e He) in Hue |- *.
  change (dict_get Odicti (el_args e) key) with (od_get (el_args e) key).
  destruct (el_base e) as [[b|ln le]|]; [|discriminate|].
  - destruct (all_args_fuel n h b) as [argsb|x] eqn:Hb; [|discriminate].
    injection Ha as <-. destruct (IH b argsb Hb) as [Hub Hgb].
    split; [apply od_update_unique; exact Hub|].
    rewrite (@od_get_update _ (el_args e) argsb key Hue).
    destruct (od_get (el_args e) key); [reflexivity|exact Hgb].
  - injection Ha as <-.
    split; [apply od_update_unique; constructor|].
    rewrite (@od_get_update _ (el_args e) [] key Hue).
    destruct (od_get (el_args e) key); reflexivity.
Qed.

(** X6: in a store whose dictionaries are all [odicti]s, as those of a
    parsed document are, and hold each key once, [all_args] merges exactly
    what a lookup sees: [elem[key]] returns the value of the merged
    dictionary and raises [KeyError] for a key it lacks.  Over a plain
    [dict] the two part: [all_args] merges into an [odicti], which answers
    to a key in any case, and the lookup does not. *)
Theorem all_args_agrees_with_getitem (h : heap) (l : loc) (args : odicti pyval)
        (Ho : heap_odicti h)
        (Hu : heap_unique h)
        (Ha : all_args h l = Ok args) :
  (forall key,
     getitem h l key = match od_get args key with
                       | Some v => Ok v
                       | None => Err KeyError
                       end)
  /\ (all_args [Build_Element None (Some "D") [("at", VInt 7)] None Dict] 0%nat
      = Ok [("at", VInt 7)]
      /\ od_get [("at", VInt 7)] "AT" = Some (VInt 7)
      /\ getitem [Build_Element None (Some "D") [("at", VInt 7)] None Dict] 0%nat "AT"
         = Err KeyError).
Proof.
  split.
  - intros key. exact (proj2 (@all_args_fuel_getitem h key Ho Hu _ l args Ha)).
  - repeat split.
Qed.

Lemma chain_heap_unique : heap_unique chain_heap.
Proof.
  intros l e He.
  destruct l as [|[|[|l]]]; cbn in He;
    [injection He as <- ..|destruct l; discriminate];
    unfold dict_unique; cbn; repeat constructor; cbn; intuition discriminate.
Defined.

Lemma chain_heap_odicti : heap_odicti chain_heap.
Proof.
  intros l e He.
  destruct l as [|[|[|l]]]; cbn in He;
    [injection He as <- ..|destruct l; discriminate]; reflexivity.
Defined.

Lemma all_args_agrees_with_getitem_witness :
  getitem chain_heap 2%nat "D" = Ok (VStr "d1")
  /\ getitem chain_heap 2%nat "e" = Err KeyError.
Proof.
  pose proof (proj1 (@all_args_agrees_with_getitem chain_heap 2%nat _
                       chain_heap_odicti chain_heap_unique eq_refl)) as Hw.
  split; [exact (Hw "D")|exact (Hw "e")].
Defined.

(** ** The loop style *)

Lemma append_assoc_str (a b c : string) : ((a ++ b) ++ c = a ++ (b ++ c))%string.
Proof.
  induction a as [|x a IH]; cbn; [reflexivity|rewrite IH; reflexivity].
Qed.

(** The place of the slice of a loop: every operation has a symbolic
    operand and builds a [Composed]. *)
Lemma slice_at_loop `{PyArith} (offset refer slice_len : pyval) (fo fr fl : string) :
  format_safe offset = Ok fo -> format_safe refer = Ok fr ->
  format_safe slice_len = Ok fl ->
  slice_at offset (VIdentifier "i" "=") refer slice_len
  = Ok (VComposed (fo ++ " + ((i + " ++ fr ++ ") * " ++ fl ++ ")") "=").
Proof.
  intros Ho Hr Hl. unfold slice_at, py_binop. cbn [is_Symbolic orb].
  unfold Composed_create. rewrite !getattr_assign_default.
  cbn [format_safe format_value py_str rbind].
  rewrite Hr. cbn [rbind is_Symbolic orb format_safe].
  rewrite Hl. cbn [rbind]. rewrite Bool.orb_true_r. rewrite Ho. cbn [rbind format_safe].
  repeat first [ rewrite getattr_assign_default
               | progress (change (is_str (VStr "=") ":=") with false)
               | progress (cbn [orb]) ].
  cbn [join fold_left op_symbol].
  rewrite !append_assoc_str. cbn [append]. rewrite ?append_assoc_str.
  reflexivity.
Qed.

(** X7: [uniform_slice_loop] emits the counter, the head of the loop, one
    unnamed copy of the element and the end of the loop; the copy is placed
    by the expression [offset + ((i + refer) * slice_len)], written with
    the safe form of each operand and marked [=]. *)
Theorem loop_distribution `{PyArith} (g : generator) (h : heap) (src : Element)
        (fo fr fl : string)
        (Hstyle : g_style g = Loop)
        (Hsrc : nth_error h (g_elem g) = Some src)
        (Ho : format_safe (g_offset g) = Ok fo)
        (Hr : format_safe (g_refer g) = Ok fr)
        (Hl : format_safe (g_slice_len g) = Ok fl) :
  consume g h
  = Ret [NText "i = 0;";
         NText ("while (i < " ++ str_int (g_slice_num g) ++ ") {");
         NElement (List.length h);
         NText "i = i + 1;";
         NText "}"]
        (h ++ [Build_Element None (el_type src)
                 (dict_set (el_class src) (el_args src) "at"
                    (VComposed (fo ++ " + ((i + " ++ fr ++ ") * " ++ fl ++ ")") "="))
                 (el_base src) (el_class src)]).
Proof.
  unfold consume. rewrite Hstyle. unfold uniform_slice_loop.
  rewrite (slice_at_loop _ _ _ Ho Hr Hl).
  unfold bind at 1. unfold copy, new_Element.
  rewrite (bind_reading_Ok (fun h => deref h (g_elem g)) _ h (a:=src));
    [|unfold deref; rewrite Hsrc; reflexivity].
  unfold alloc.
  unfold bind at 1. unfold set_name, modify. rewrite nth_error_alloc_new.
  rewrite update_nth_app_last. cbn [el_name el_type el_args el_base].
  unfold bind at 1. cbn [lift ret].
  unfold bind at 1. unfold setitem, modify. rewrite nth_error_alloc_new.
  rewrite update_nth_app_last. cbn [el_name el_type el_args el_base ret].
  reflexivity.
Qed.

Lemma loop_distribution_witness :
  consume (mkGenerator Loop 1%nat (VInt 0) (VInt 0) 3 (dec_lit 5 (-1))) bare_heap
  = Ret [NText "i = 0;"; NText "while (i < 3) {"; NElement 3%nat;
         NText "i = i + 1;"; NText "}"]
        (bare_heap ++ [mkElement None (Some "DRIFT")
                         [("L", VInt 2);
                          ("at", VComposed "0 + ((i + 0) * 0.5)" "=")] None]).
Proof.
  exact (@loop_distribution python
           (mkGenerator Loop 1%nat (VInt 0) (VInt 0) 3 (dec_lit 5 (-1)))
           bare_heap _ "0" "0" "0.5" eq_refl eq_refl eq_refl eq_refl eq_refl).
Defined.

(** ** The output of [Sequence.detect] *)

Lemma is_type_same (h0 h : heap) (n : node) (lit : string) :
  same_types h0 h -> valid_node h0 n -> is_type h n lit = is_type h0 n lit.
Proof.
  intros Hs Hv. destruct (node_type_same n Hs Hv) as (ty & Hty & Hty0).
  unfold is_type. rewrite Hty, Hty0. reflexivity.
Qed.

Lemma is_type_kept (h h' : heap) (n : node) (lit : string) :
  same_types h h' -> is_type h n lit = true -> is_type h' n lit = true.
Proof.
  intros Hs. destruct n as [l|s|name elems]; try exact (fun H => H).
  unfold is_type. cbn. unfold deref.
  destruct (nth_error h l) as [e|] eqn:He; [|discriminate].
  destruct (Hs l e He) as (e' & He' & Hty). rewrite He'. cbn. rewrite Hty.
  exact (fun H => H).
Qed.

Lemma setdefault_same_types (h h1 : heap) (l : loc) (u : unit) :
  setdefault_refer l h = Ret u h1 -> same_types h h1.
Proof.
  intros Hset. unfold setdefault_refer in Hset. pose proof Hset as Hm.
  apply modify_Ret in Hm. destruct Hm as (e & He & _).
  destruct (@same_types_setdefault h l (nth_error_lt _ _ He)) as (h' & Hset' & Hs).
  unfold setdefault_refer in Hset'. rewrite Hset in Hset'. destruct u.
  injection Hset' as <-. exact Hs.
Qed.

(** A step of the scan, taken apart: what the members of a LINE leave. *)
Lemma members_same_types (inline : bool) (by_name : odicti ref)
      (elems : list string) (h h' : heap) (members : list node) :
  (if inline then lift (line_members_inline by_name elems)
   else line_members by_name elems) h = Ret members h' ->
  same_types h h'.
Proof.
  destruct inline; intros Hm.
  - apply lift_Ret in Hm. destruct Hm as [_ ->]. apply same_types_refl.
  - pose proof (line_members_outcome by_name elems h) as Ho.
    rewrite Hm in Ho. exact (proj2 Ho).
Qed.

(** The scan loses no node and keeps the order, where no LINE is
    expanded. *)
Lemma detect_scan_flatten (inline : bool) (by_name : odicti ref) (h0 : heap) :
  forall it seq h out h',
    same_types h0 h -> Forall (valid_node h0) it -> no_lines h0 it = true ->
    detect_scan inline by_name it seq h = Ret out h' ->
    flatten out = group_of seq ++ it.
Proof.
  induction it as [|elem rest IH]; intros seq h out h' Hs Hv Hno Hrun;
    cbn [detect_scan] in Hrun.
  - destruct seq; [discriminate|]. apply ret_Ret in Hrun. destruct Hrun as [-> _].
    reflexivity.
  - inversion Hv as [|? ? Hve Hvr]; subst.
    cbn [no_lines forallb] in Hno. apply andb_prop in Hno. destruct Hno as [Hnl Hno].
    destruct (node_type_same elem Hs Hve) as (ty & Hty & Hty0).
    rewrite (bind_reading_Ok (fun h => node_type h elem) _ h Hty) in Hrun.
    assert (Hline : stri_is ty "line" = false).
    { unfold is_type in Hnl. rewrite Hty0 in Hnl.
      destruct (stri_is ty "line"); [discriminate|reflexivity]. }
    destruct seq as [group|]; cbn [group_of].
    + destruct (stri_is ty "endsequence").
      * apply bind_Ret in Hrun. destruct Hrun as (out' & h1 & Hrest & Hret).
        apply ret_Ret in Hret. destruct Hret as [-> <-].
        cbn [flatten flat_map seq_elements].
        change (flat_map _ out') with (flatten out').
        rewrite (IH None h out' h' Hs Hvr Hno Hrest). cbn [group_of app].
        rewrite <- app_assoc. reflexivity.
      * rewrite (IH _ h out h' Hs Hvr Hno Hrun). cbn [group_of].
        rewrite <- app_assoc. reflexivity.
    + destruct (stri_is ty "sequence").
      * destruct elem as [l|s|name elems]; try discriminate.
        apply bind_Ret in Hrun. destruct Hrun as (u & h1 & Hset & Hrun).
        rewrite (IH _ h1 out h' (same_types_trans Hs (@setdefault_same_types h h1 l u Hset))
                    Hvr Hno Hrun).
        reflexivity.
      * rewrite Hline in Hrun.
        apply bind_Ret in Hrun. destruct Hrun as (out' & h1 & Hrest & Hret).
        apply ret_Ret in Hret. destruct Hret as [-> <-].
        cbn [flatten flat_map app].
        change (flat_map _ out') with (flatten out').
        rewrite (IH None h out' h' Hs Hvr Hno Hrest). reflexivity.
Qed.

(** X8: Round trip of [Sequence.detect]: over an input without a node of type
    [line], the nodes of the output, sequences opened up, are the nodes of
    the input in their order. *)
Theorem detect_keeps_nodes (inline : bool) (nodes : list node) (h h' : heap)
        (out : list docnode)
        (Hno : no_lines h nodes = true)
        (Hrun : detect inline nodes h = Ret out h') :
  flatten out = nodes.
Proof.
  unfold detect in Hrun. apply bind_Ret in Hrun.
  destruct Hrun as (by_name & hx & Hb & Hrun).
  apply reading_Ret in Hb. destruct Hb as [Hb ->].
  exact (@detect_scan_flatten inline by_name h nodes None h out h'
           (same_types_refl h) (@build_by_name_valid h nodes [] by_name Hb) Hno Hrun).
Qed.

Lemma detect_keeps_nodes_witness :
  flatten [DNode (NElement 1%nat);
           DSequence (mkSequence [NElement 0%nat; NElement 1%nat; NElement 2%nat] []);
           DNode (NText "x")]
  = [NElement 1%nat; NElement 0%nat; NElement 1%nat; NElement 2%nat; NText "x"].
Proof.
  exact (@detect_keeps_nodes false
           [NElement 1%nat; NElement 0%nat; NElement 1%nat; NElement 2%nat; NText "x"]
           bare_heap _ _ eq_refl eq_refl).
Defined.

(** Every sequence of the output begins with an element of type
    [sequence] and ends with one of type [endsequence]. *)
Lemma detect_scan_delimited (inline : bool) (by_name : odicti ref) :
  forall it seq h out h',
    (forall g, seq = Some g ->
       exists hd body, g = NElement hd :: body
                       /\ is_type h (NElement hd) "sequence" = true) ->
    detect_scan inline by_name it seq h = Ret out h' ->
    same_types h h'
    /\ forall s, In (DSequence s) out -> delimited h' (seq_elements s).
Proof.
  induction it as [|elem rest IH]; intros seq h out h' Hpre Hrun;
    cbn [detect_scan] in Hrun.
  - destruct seq; [discriminate|]. apply ret_Ret in Hrun. destruct Hrun as [-> ->].
    split; [apply same_types_refl|intros s []].
  - apply bind_Ret in Hrun. destruct Hrun as (ty & hx & Hty & Hrun).
    apply reading_Ret in Hty. destruct Hty as [Hty ->].
    destruct seq as [group|].
    + destruct (Hpre group eq_refl) as (hd & body & -> & Hhd).
      destruct (stri_is ty "endsequence") eqn:Hend.
      * apply bind_Ret in Hrun. destruct Hrun as (out' & h1 & Hrest & Hret).
        apply ret_Ret in Hret. destruct Hret as [-> <-].
        destruct (IH None h out' h' ltac:(discriminate) Hrest) as (Hs & Hall).
        split; [exact Hs|].
        intros s [Hin|Hin]; [|exact (Hall s Hin)].
        injection Hin as <-. cbn [seq_elements].
        destruct elem as [l|t|name elems]; cbn in Hty.
        -- exists hd, body, l. split; [reflexivity|].
           split; [exact (is_type_kept _ _ Hs Hhd)|].
           apply (is_type_kept _ _ Hs). unfold is_type. cbn. rewrite Hty. exact Hend.
        -- injection Hty as <-. discriminate.
        -- injection Hty as <-. discriminate.
      * apply (IH (Some ((NElement hd :: body) ++ [elem])) h out h'); [|exact Hrun].
        intros g [= <-]. exists hd, (body ++ [elem]). split; [reflexivity|exact Hhd].
    + destruct (stri_is ty "sequence") eqn:Hseq.
      * destruct elem as [l|t|name elems]; try discriminate.
        apply bind_Ret in Hrun. destruct Hrun as (u & h1 & Hset & Hrun).
        pose proof (@setdefault_same_types h h1 l u Hset) as Hs1.
        destruct (IH (Some [NElement l]) h1 out h') as (Hs & Hall); [|exact Hrun|].
        { intros g [= <-]. exists l, []. split; [reflexivity|].
          apply (is_type_kept _ _ Hs1). unfold is_type. rewrite Hty. exact Hseq. }
        split; [exact (same_types_trans Hs1 Hs)|exact Hall].
      * destruct (stri_is ty "line").
        -- apply bind_Ret in Hrun. destruct Hrun as (name & hx & Hname & Hrun).
           apply reading_Ret in Hname. destruct Hname as [Hname ->].
           apply bind_Ret in Hrun. destruct Hrun as (head & h1 & Hhead & Hrun).
           apply alloc_Ret in Hhead. destruct Hhead as [-> ->].
           apply bind_Ret in Hrun. destruct Hrun as (elems & hx & Helems & Hrun).
           destruct elem as [l|t|nm els]; try discriminate.
           apply ret_Ret in Helems. destruct Helems as [-> ->].
           apply bind_Ret in Hrun. destruct Hrun as (members & h2 & Hmem & Hrun).
           apply bind_Ret in Hrun. destruct Hrun as (tail & h3 & Htail & Hrun).
           apply alloc_Ret in Htail. destruct Htail as [-> ->].
           apply bind_Ret in Hrun. destruct Hrun as (out' & h4 & Hrest & Hret).
           apply ret_Ret in Hret. destruct Hret as [-> <-].
           destruct (IH None _ out' h' ltac:(discriminate) Hrest) as (Hs & Hall).
           pose proof (members_same_types _ _ _ _ Hmem) as Hs2.
           assert (Hs13 : same_types
                            (h ++ [Build_Element name (Some "sequence")
                                     [("refer", VStr "entry")] None Dict])
                            (h2 ++ [Build_Element None (Some "endsequence") [] None Dict])).
           { eapply same_types_trans; [exact Hs2|apply same_types_alloc]. }
           split.
           { eapply same_types_trans; [apply same_types_alloc|].
             eapply same_types_trans; [exact Hs13|exact Hs]. }
           intros s [Hin|Hin]; [|exact (Hall s Hin)].
           injection Hin as <-. cbn [seq_elements].
           exists (List.length h), members, (List.length h2).
           split; [reflexivity|]. split.
           ++ apply (is_type_kept _ _ Hs). apply (is_type_kept _ _ Hs13).
              unfold is_type. cbn. unfold deref. rewrite nth_error_alloc_new. reflexivity.
           ++ apply (is_type_kept _ _ Hs).
              unfold is_type. cbn. unfold deref. rewrite nth_error_alloc_new. reflexivity.
        -- apply bind_Ret in Hrun. destruct Hrun as (out' & h1 & Hrest & Hret).
           apply ret_Ret in Hret. destruct Hret as [-> <-].
           destruct (IH None h out' h' ltac:(discriminate) Hrest) as (Hs & Hall).
           split; [exact Hs|].
           intros s [Hin|Hin]; [discriminate|exact (Hall s Hin)].
Qed.

(** X9: every sequence that [Sequence.detect] returns, collected from the
    input or built from a LINE, begins with an element of type [sequence]
    and ends with an element of type [endsequence]. *)
Theorem detect_sequences_delimited (inline : bool) (nodes : list node)
        (h h' : heap) (out : list docnode) (s : Sequence)
        (Hrun : detect inline nodes h = Ret out h')
        (Hin : In (DSequence s) out) :
  delimited h' (seq_elements s).
Proof.
  unfold detect in Hrun. apply bind_Ret in Hrun.
  destruct Hrun as (by_name & hx & Hb & Hrun).
  apply reading_Ret in Hb. destruct Hb as [_ ->].
  exact (proj2 (@detect_scan_delimited inline by_name nodes None h out h'
                  ltac:(discriminate) Hrun) s Hin).
Qed.

Lemma detect_sequences_delimited_witness :
  delimited (line_heap ++ [Build_Element (Some "L") (Some "sequence")
                             [("refer", VStr "entry")] None Dict;
                           Build_Element None (Some "A") [] (Some (RElement 0%nat)) Dict;
                           Build_Element None (Some "B") [] (Some (RElement 1%nat)) Dict;
                           Build_Element None (Some "endsequence") [] None Dict])
            [NElement 2%nat; NElement 3%nat; NElement 4%nat; NElement 5%nat].
Proof.
  apply (@detect_sequences_delimited false line_nodes line_heap _
           [DNode (NElement 0%nat); DNode (NElement 1%nat);
            DSequence (mkSequence [NElement 2%nat; NElement 3%nat;
                                   NElement 4%nat; NElement 5%nat] [])]
           (mkSequence [NElement 2%nat; NElement 3%nat;
                        NElement 4%nat; NElement 5%nat] [])).
  - reflexivity.
  - right. right. left. reflexivity.
Defined.

(** ** Sequences and rules *)

(** X10: [Sequence([head] + elements + [tail])] has these three parts; a
    sequence of one element has it as head and as tail around an empty
    body, and an empty one has neither head nor tail. *)
Theorem sequence_parts (preface : list node) :
  (forall head body tail,
     let s := mkSequence (head :: body ++ [tail]) preface in
     seq_head s = Ok head /\ seq_body s = body /\ seq_tail s = Ok tail)
  /\ (forall x,
        let s := mkSequence [x] preface in
        seq_head s = Ok x /\ seq_body s = [] /\ seq_tail s = Ok x)
  /\ (let s := mkSequence [] preface in
      seq_head s = Err IndexError /\ seq_body s = [] /\ seq_tail s = Err IndexError).
Proof.
  split; [|split].
  - intros head body tail s. unfold seq_head, seq_body, seq_tail, s.
    cbn [seq_elements List.tl].
    split; [reflexivity|]. split.
    + apply removelast_last.
    + rewrite last_last. reflexivity.
  - intros x. repeat split.
  - repeat split.
Qed.

(** The rules of the selectors: all of them are built, or one selector is
    of unknown style. *)
Lemma sequence_res_init (slicing : list selector) :
  match sequence_res (map ElementTransform_init slicing) with
  | Ok rules => Forall2 (fun s t => ElementTransform_init s = Ok t) slicing rules
  | Err e => e = ValueError /\ exists s, In s slicing /\ unknown_style s
  end.
Proof.
  induction slicing as [|s rest IH]; cbn [map sequence_res].
  - constructor.
  - destruct (ElementTransform_init_total s) as [[t Ht]|(Ht & Hs & Hu & Hl)];
      rewrite Ht.
    + destruct (sequence_res (map ElementTransform_init rest)) as [rules|e].
      * constructor; assumption.
      * destruct IH as (-> & s' & Hin & Hbad). split; [reflexivity|].
        exists s'. split; [right; exact Hin|exact Hbad].
    + split; [reflexivity|]. exists s. split; [left; reflexivity|].
      destruct (sel_style s) as [st|] eqn:Est; [|congruence].
      exists st. split; [exact Est|]. split; congruence.
Qed.

(** X11: [SequenceTransform(slicing)] holds one rule per selector, in
    order, followed by the rule of the empty selector, which matches every
    element; it fails, with [ValueError], only over a selector of unknown
    style. *)
Theorem SequenceTransform_init_rules (slicing : list selector) :
  match SequenceTransform_init slicing with
  | Ok ts =>
      exists rules,
        ts = rules ++ [catch_all]
        /\ Forall2 (fun s t => ElementTransform_init s = Ok t) slicing rules
        /\ forall h elem, match_elem catch_all h elem = Ok true
  | Err e => e = ValueError /\ exists s, In s slicing /\ unknown_style s
  end.
Proof.
  unfold SequenceTransform_init.
  pose proof (sequence_res_init slicing) as Hr.
  destruct (sequence_res (map ElementTransform_init slicing)) as [rules|e];
    cbn [rbind]; [|exact Hr].
  exists rules. split; [reflexivity|]. split; [exact Hr|]. intros h elem. reflexivity.
Qed.

(** ** Equality of values *)

(** X12: [Value.__eq__] looks at the wrapped value only: a value equals the
    same value under another assignment symbol, and equals the value it
    wraps, in both orders. *)
Theorem value_eq_ignores_assign (v : pyval) (a : string) :
  py_eqb v (with_assign a v) = true
  /\ py_eqb (with_assign a v) v = true
  /\ py_eqb v (value_of v) = true
  /\ py_eqb (value_of v) v = true.
Proof.
  destruct v; cbn [with_assign value_of];
    repeat split; try apply py_eqb_refl.
  - exact (py_eqb_refl (VArray value _assign)).
  - exact (py_eqb_refl (VArray value a)).
  - exact (py_eqb_refl (VList value)).
  - exact (py_eqb_refl (VList value)).
  - exact (py_eqb_refl (VIdentifier value _assign)).
  - exact (py_eqb_refl (VIdentifier value a)).
  - exact (py_eqb_refl (VStr value)).
  - exact (py_eqb_refl (VStr value)).
  - exact (py_eqb_refl (VComposed value _assign)).
  - exact (py_eqb_refl (VComposed value a)).
  - exact (py_eqb_refl (VStr value)).
  - exact (py_eqb_refl (VStr value)).
Qed.

(** ** Positions *)

(** X13: A rule with [use_at] off places the element where its predecessor
    ends, whatever [at] the element has: the slices are spread from
    [offset] and the exit is [offset + L]. *)
Theorem slice_without_use_at `{PyArith} (t : ElementTransform) (elem : loc)
        (offset refer : pyval) (h h1 : heap) (templ : list loc) (g : generator)
        (exit_ : pyval)
        (Huse : t_use_at t = false)
        (Hslice : slice t elem offset refer h = Ret (templ, g, exit_) h1) :
  g_offset g = offset
  /\ exists L, get h elem "L" (VInt 0) = Ok L /\ py_binop Add offset L = Ok exit_.
Proof.
  apply slice_Ret in Hslice.
  destruct Hslice as (L & pos & n & d & slice_len & num_d & ratio & scaled & hs
                      & HL & Hpos & _ & _ & _ & _ & _ & _ & _ & _ & Hg & Hexit).
  unfold get_position in Hpos. rewrite Huse in Hpos. injection Hpos as <-.
  split; [rewrite Hg; reflexivity|].
  exists L. split; [exact HL|exact Hexit].
Qed.

Lemma slice_without_use_at_witness :
  exists L, get placed_heap 1%nat "L" (VInt 0) = Ok L
            /\ py_binop Add (VInt 5) L = Ok (VInt 7).
Proof.
  eapply (@slice_without_use_at python
            (mkElementTransform MatchAll false (FixedNum 1) false false Uniform)
            1%nat (VInt 5) (VInt 0) placed_heap).
  - reflexivity.
  - lazy. reflexivity.
Defined.

(** ** What a transformation leaves as it is *)

Lemma transforms_trans (h0 h1 h2 : heap) :
  transforms h0 0 h1 -> transforms h1 0 h2 -> transforms h0 0 h2.
Proof.
  intros [_ H1] [_ H2]. split; [reflexivity|].
  intros l e He. destruct (H1 l e He) as (e1 & He1 & Hn1 & Ht1 & Ha1 & Hc1).
  destruct (H2 l e1 He1) as (e2 & He2 & Hn2 & Ht2 & Ha2 & Hc2).
  exists e2. repeat split; congruence.
Qed.

Lemma transforms_update_new (h0 h : heap) (m : nat) (l : loc) (e : Element) :
  transforms h0 m h -> (List.length h0 <= l)%nat -> (m <= l)%nat ->
  transforms h0 m (update_nth h l e).
Proof.
  intros [Hf Hk] Hl Hm. split.
  - rewrite firstn_update_nth by exact Hm. exact Hf.
  - intros l' e0 He0. pose proof (nth_error_lt _ _ He0) as Hlt.
    rewrite nth_error_update_nth_neq by lia. exact (Hk l' e0 He0).
Qed.

Section Frames.
Context `{PyArith}.
Variable ts : list ElementTransform.

Lemma transform_keeps (defs : odicti loc) (refer : pyval) (h0 : heap)
      (l : loc) (position : pyval) (h h1 h2 : heap)
      (r : list loc * generator * pyval) (nodes : list node) :
  transforms h0 0 h ->
  transform ts defs refer l position h = Ret r h1 ->
  consume (snd (fst r)) h1 = Ret nodes h2 ->
  transforms h0 0 h2.
Proof.
  intros Ht Htr Hc. unfold transform in Htr.
  apply bind_Ret in Htr. destruct Htr as (e & hx & Hde & Htr).
  apply reading_Ret in Hde. destruct Hde as [Hde ->].
  apply bind_Ret in Htr. destruct Htr as (u & ha & Hset & Hfm).
  assert (Hta : transforms h0 0 ha).
  { destruct (truthy_str (el_type e)).
    - exact (proj1 (@transforms_set_base h0 h ha 0 l _ u Ht (Nat.le_0_l l) Hset)).
    - apply ret_Ret in Hset. destruct Hset as [_ ->]. exact Ht. }
  apply first_match_Ret in Hfm. destruct Hfm as (t & Hslice).
  destruct r as [[templ gen] position']. cbn [fst snd] in Hc.
  pose proof (@keeps_slice _ (List.length ha) t l position refer ha (le_n _)) as Hks.
  rewrite Hslice in Hks. rewrite firstn_all in Hks.
  destruct Hks as (Hf1 & Hlen1 & _).
  pose proof (@keeps_consume _ (List.length ha) gen h1 Hlen1) as Hkc.
  rewrite Hc in Hkc. rewrite Hf1 in Hkc. destruct Hkc as (Hf2 & _ & _).
  exact (@transforms_frame h0 ha h2 0 (Nat.le_0_l _) Hta Hf2).
Qed.

Lemma transform_body_keeps (defs : odicti loc) (refer : pyval) (h0 : heap) :
  forall body templates elements position h r h',
    transforms h0 0 h ->
    transform_body ts defs refer body templates elements position h = Ret r h' ->
    transforms h0 0 h'.
Proof.
  induction body as [|nd rest IH]; intros templates elements position h r h' Ht Hrun;
    cbn [transform_body] in Hrun.
  - apply ret_Ret in Hrun. destruct Hrun as [_ ->]. exact Ht.
  - destruct nd as [l|s|name elems]; [| |discriminate].
    + apply bind_Ret in Hrun. destruct Hrun as (e & hx & Hde & Hrun).
      apply reading_Ret in Hde. destruct Hde as [_ ->].
      destruct (truthy_str (el_type e)).
      * apply bind_Ret in Hrun. destruct Hrun as (r1 & h1 & Htr & Hrun).
        destruct r1 as [[templ gen] position1].
        apply bind_Ret in Hrun. destruct Hrun as (nodes & h2 & Hc & Hrun).
        exact (IH _ _ _ _ _ _
                  (@transform_keeps defs refer h0 l position h h1 h2
                     (templ, gen, position1) nodes Ht Htr Hc) Hrun).
      * exact (IH _ _ _ _ _ _ Ht Hrun).
    + exact (IH _ _ _ _ _ _ Ht Hrun).
Qed.

(** [SequenceTransform.__call__] on one node. *)
Lemma call_keeps (nd : docnode) (defs : odicti loc) (h h' : heap)
      (r : docnode * odicti loc) :
  SequenceTransform_call ts nd defs h = Ret r h' ->
  transforms h 0 h' /\ transformed nd (fst r).
Proof.
  intros Hrun. destruct nd as [[l|s|name elems]|s]; cbn [SequenceTransform_call] in Hrun.
  - apply bind_Ret in Hrun. destruct Hrun as (e & hx & Hde & Hrun).
    apply reading_Ret in Hde. destruct Hde as [_ ->].
    apply bind_Ret in Hrun. destruct Hrun as (u & h1 & Hset & Hret).
    apply ret_Ret in Hret. destruct Hret as [-> ->].
    split; [|reflexivity].
    exact (proj1 (@transforms_set_base h h h1 0 l _ u (transforms_refl h 0)
                    (Nat.le_0_l l) Hset)).
  - apply ret_Ret in Hrun. destruct Hrun as [-> ->].
    split; [apply transforms_refl|reflexivity].
  - apply ret_Ret in Hrun. destruct Hrun as [-> ->].
    split; [apply transforms_refl|reflexivity].
  - apply bind_Ret in Hrun. destruct Hrun as (hn & hx & Hh & Hrun).
    apply lift_Ret in Hh. destruct Hh as [Hh ->].
    destruct hn as [hd|?|? ?]; try discriminate.
    apply bind_Ret in Hrun. destruct Hrun as (head & h1 & Hcopy & Hrun).
    apply copy_Ret in Hcopy. destruct Hcopy as (ehd & Hehd & -> & ->).
    apply bind_Ret in Hrun. destruct Hrun as (tail & hx & Htail & Hrun).
    apply lift_Ret in Htail. destruct Htail as [Htail ->].
    apply bind_Ret in Hrun. destruct Hrun as (refer & hx & Hrefer & Hrun).
    apply reading_Ret in Hrefer. destruct Hrefer as [Hrefer ->].
    apply bind_Ret in Hrun.
    destruct Hrun as ([[templates elements] position] & h2 & Hbodyrun & Hrun).
    apply bind_Ret in Hrun. destruct Hrun as (u & h3 & Hset & Hrun).
    apply bind_Ret in Hrun. destruct Hrun as (e & hx & Hde & Hrun).
    apply reading_Ret in Hde. destruct Hde as [Hde ->].
    apply ret_Ret in Hrun. destruct Hrun as [-> <-].
    split; [|eexists; reflexivity].
    pose proof (@transform_body_keeps defs refer h (seq_body s) [] [] (VInt 0)
                  (h ++ [ehd]) _ h2
                  (@transforms_alloc h h 0 ehd (Nat.le_0_l _) (transforms_refl h 0))
                  Hbodyrun) as Ht2.
    unfold setitem in Hset. apply modify_Ret in Hset.
    destruct Hset as (e2 & He2 & ->).
    apply transforms_update_new; [exact Ht2|lia|lia].
Qed.

Lemma transform_nodes_keeps :
  forall nodes defs h out h',
    transform_nodes ts nodes defs h = Ret out h' ->
    Forall2 transformed nodes out /\ keeps_content h h'.
Proof.
  induction nodes as [|nd rest IH]; intros defs h out h' Hrun;
    cbn [transform_nodes] in Hrun.
  - apply ret_Ret in Hrun. destruct Hrun as [-> <-].
    split; [constructor|apply transforms_refl].
  - apply bind_Ret in Hrun. destruct Hrun as (r & h1 & Hcall & Hrun).
    apply bind_Ret in Hrun. destruct Hrun as (out' & h2 & Hrest & Hret).
    apply ret_Ret in Hret. destruct Hret as [-> <-].
    destruct (call_keeps _ _ _ Hcall) as (Ht1 & Hnd).
    destruct (IH _ _ _ _ Hrest) as (Hall & Ht2).
    split; [constructor; assumption|].
    exact (transforms_trans Ht1 Ht2).
Qed.

End Frames.

(** X14: [Document.transform] gives one node per node of the document, in
    order: a node that is no sequence is returned as it is and a sequence
    gives a sequence; and every element that existed before is still
    there with its name, type and own arguments (the transformation sets
    bases and constructs elements, nothing else). *)
Theorem Document_transform_keeps `{PyArith} (ts : list ElementTransform)
        (nodes out : list docnode) (h h' : heap)
        (Hrun : Document_transform ts nodes h = Ret out h') :
  Forall2 transformed nodes out /\ keeps_content h h'.
Proof.
  exact (@transform_nodes_keeps _ ts nodes [] h out h' Hrun).
Qed.

Lemma Document_transform_keeps_witness :
  Forall2 transformed
    [DNode (NElement 1%nat); DSequence bare_sequence]
    [DNode (NElement 1%nat);
     DSequence (mkSequence [NElement 3%nat; NElement 4%nat; NElement 2%nat] [])].
Proof.
  eapply (@Document_transform_keeps python [catch_all]
            [DNode (NElement 1%nat); DSequence bare_sequence] _ bare_heap).
  vm_compute. reflexivity.
Defined.

(** ** Names *)

(** X15: The name [none], in any case, is the text of [None]: an element of
    that name equals the unnamed element of the same type and
    arguments. *)
Theorem none_name_equals_unnamed (s : string) (type : option string)
        (c : dict_class) (args : list (string * pyval)) (b b' : option ref)
        (Hs : lower s = "none")
        (Hu : dict_unique c args) :
  Element_eq (Build_Element (Some s) type args b c)
             (Build_Element None type args b' c) = true
  /\ Element_eq (Build_Element None type args b' c)
                (Build_Element (Some s) type args b c) = true.
Proof.
  unfold Element_eq. cbn [el_name el_type el_args el_class].
  assert (Hc : eq_class c c = c) by (destruct c; reflexivity).
  rewrite Hc, !stri_eq_refl, (dict_eqb_refl Hu).
  unfold stri_eq. cbn [str_opt]. rewrite Hs. split; reflexivity.
Qed.

Lemma none_name_equals_unnamed_witness :
  Element_eq (mkElement (Some "NONE") (Some "marker") [] None)
             (mkElement None (Some "marker") [] None) = true.
Proof.
  exact (proj1 (@none_name_equals_unnamed "NONE" (Some "marker") Odicti [] None None
                  eq_refl ltac:(constructor))).
Defined.

(** ** Thick rescaling *)

(** X16: [rescale_thick] at a ratio other than 1 builds a new element whose
    length is the length of the input times the ratio; apart from [L] and
    [angle] it reads what the input reads. *)
Theorem rescale_thick_scales `{PyArith} (elem s : loc) (ratio : pyval)
        (h h' : heap)
        (Hwf : wf_heap h)
        (Hne : py_eqb ratio (VInt 1) = false)
        (Hrun : rescale_thick elem ratio h = Ret s h') :
  s = List.length h
  /\ exists L v,
       getitem h elem "L" = Ok L /\ py_binop Mul L ratio = Ok v
       /\ getitem h' s "L" = Ok v
       /\ forall key, same_key "L" key = false -> same_key "angle" key = false ->
            getitem h' s key = getitem h elem key.
Proof.
  exact (@rescale_thick_Ret _ elem s ratio h h' Hwf Hne Hrun).
Qed.

Lemma rescale_thick_scales_witness :
  exists L v,
    getitem bare_heap 1%nat "L" = Ok L
    /\ py_binop Mul L (dec_lit 5 (-1)) = Ok v
    /\ getitem (bare_heap ++ [mkElement (Some "D") (Some "DRIFT")
                                [("L", dec_lit 10 (-1))] None]) 3%nat "L" = Ok v.
Proof.
  destruct (@rescale_thick_scales python 1%nat 3%nat (dec_lit 5 (-1)) bare_heap
              (bare_heap ++ [mkElement (Some "D") (Some "DRIFT")
                               [("L", dec_lit 10 (-1))] None])
              bare_heap_wf eq_refl ltac:(vm_compute; reflexivity))
    as (_ & L & v & HL & Hv & Hs & _).
  exists L, v. split; [exact HL|]. split; [exact Hv|exact Hs].
Defined.

(** ** Bases set by the transformation *)

Section Links.
Context `{PyArith}.
Variable ts : list ElementTransform.
Variable defs : odicti loc.
Variable refer : pyval.
Variable h0 : heap.

Lemma linked_frame (done : list node) (h h' : heap) :
  linked h0 defs done h -> firstn (List.length h) h' = h ->
  linked h0 defs done h'.
Proof.
  intros Hl Hf l e0 Hin He0 Hty.
  destruct (Hl l e0 Hin He0 Hty) as (e & He & Hrest).
  exists e. split; [|exact Hrest].
  eapply firstn_keeps_elem; [exact Hf|exact He].
Qed.

Lemma transform_links (done : list node) (l : loc) (position : pyval)
      (h h1 h2 : heap) (r : list loc * generator * pyval) (nodes : list node) :
  transforms h0 0 h -> linked h0 defs done h ->
  transform ts defs refer l position h = Ret r h1 ->
  consume (snd (fst r)) h1 = Ret nodes h2 ->
  linked h0 defs (done ++ [NElement l]) h2.
Proof.
  intros Ht Hl Htr Hc. unfold transform in Htr.
  apply bind_Ret in Htr. destruct Htr as (e & hx & Hde & Htr).
  apply reading_Ret in Hde. destruct Hde as [Hde ->].
  apply bind_Ret in Htr. destruct Htr as (u & ha & Hset & Hfm).
  apply first_match_Ret in Hfm. destruct Hfm as (t & Hslice).
  destruct r as [[templ gen] position']. cbn [fst snd] in Hc.
  assert (Hla : linked h0 defs (done ++ [NElement l]) ha).
  { intros l' e0 Hin He0 Hty.
    destruct Ht as [_ Hk]. destruct (Hk l' e0 He0) as (e' & He' & Hn & Hty' & Ha & Hcl).
    destruct (Nat.eq_dec l' l) as [->|Hne].
    - unfold deref in Hde. rewrite He' in Hde. injection Hde as <-.
      rewrite Hty', Hty in Hset.
      unfold set_base in Hset. apply modify_Ret in Hset.
      destruct Hset as (e1 & He1 & ->). rewrite He' in He1. injection He1 as <-.
      eexists. split; [apply nth_error_update_nth_eq; eapply nth_error_lt; exact He'|].
      cbn. rewrite Hty'. repeat split; assumption.
    - apply in_app_or in Hin. destruct Hin as [Hin|[Hin|[]]]; [|congruence].
      destruct (Hl l' e0 Hin He0 Hty) as (e1 & He1 & Hrest).
      exists e1. split; [|exact Hrest].
      destruct (truthy_str (el_type e)).
      + unfold set_base in Hset. apply modify_Ret in Hset.
        destruct Hset as (e2 & He2 & ->).
        rewrite nth_error_update_nth_neq by exact Hne. exact He1.
      + apply ret_Ret in Hset. destruct Hset as [_ ->]. exact He1. }
  pose proof (@keeps_slice _ (List.length ha) t l position refer ha (le_n _)) as Hks.
  rewrite Hslice in Hks. rewrite firstn_all in Hks.
  destruct Hks as (Hf1 & Hlen1 & _).
  pose proof (@keeps_consume _ (List.length ha) gen h1 Hlen1) as Hkc.
  rewrite Hc in Hkc. rewrite Hf1 in Hkc. destruct Hkc as (Hf2 & _ & _).
  exact (@linked_frame (done ++ [NElement l]) ha h2 Hla Hf2).
Qed.

Lemma linked_more (done : list node) (nd : node) (h : heap) :
  linked h0 defs done h ->
  (forall l, nd = NElement l ->
     forall e0, nth_error h0 l = Some e0 -> truthy_str (el_type e0) = false) ->
  linked h0 defs (done ++ [nd]) h.
Proof.
  intros Hl Hnd l e0 Hin He0 Hty.
  apply in_app_or in Hin. destruct Hin as [Hin|[Hin|[]]].
  - exact (Hl l e0 Hin He0 Hty).
  - rewrite (Hnd l Hin e0 He0) in Hty. discriminate.
Qed.

Lemma transform_body_links :
  forall body done templates elements position h r h',
    transforms h0 0 h -> linked h0 defs done h ->
    transform_body ts defs refer body templates elements position h = Ret r h' ->
    linked h0 defs (done ++ body) h'.
Proof.
  induction body as [|nd rest IH];
    intros done templates elements position h r h' Ht Hl Hrun;
    cbn [transform_body] in Hrun.
  - apply ret_Ret in Hrun. destruct Hrun as [_ ->]. rewrite app_nil_r. exact Hl.
  - replace (done ++ nd :: rest) with ((done ++ [nd]) ++ rest)
      by (rewrite <- app_assoc; reflexivity).
    destruct nd as [l|s|name elems]; [| |discriminate].
    + apply bind_Ret in Hrun. destruct Hrun as (e & hx & Hde & Hrun).
      apply reading_Ret in Hde. destruct Hde as [Hde ->].
      destruct (truthy_str (el_type e)) eqn:Hty.
      * apply bind_Ret in Hrun. destruct Hrun as (r1 & h1 & Htr & Hrun).
        destruct r1 as [[templ gen] position1].
        apply bind_Ret in Hrun. destruct Hrun as (nodes & h2 & Hc & Hrun).
        refine (IH (done ++ [NElement l]) _ _ _ h2 r h' _ _ Hrun).
        -- exact (@transform_keeps _ ts defs refer h0 l position h h1 h2
                    (templ, gen, position1) nodes Ht Htr Hc).
        -- exact (@transform_links done l position h h1 h2
                    (templ, gen, position1) nodes Ht Hl Htr Hc).
      * refine (IH (done ++ [NElement l]) _ _ _ h r h' Ht _ Hrun).
        apply linked_more; [exact Hl|].
        intros l' [= <-] e0 He0.
        destruct Ht as [_ Hk]. destruct (Hk l e0 He0) as (e' & He' & _ & Hty' & _).
        unfold deref in Hde. rewrite He' in Hde. injection Hde as <-.
        rewrite <- Hty'. exact Hty.
    + refine (IH (done ++ [NText s]) _ _ _ h r h' Ht _ Hrun).
      apply linked_more; [exact Hl|]. intros l' Hl'. discriminate.
Qed.

End Links.

(** The call on a sequence, for the rules of any list. *)
Lemma sequence_call_links `{PyArith} (ts : list ElementTransform)
        (defs : odicti loc) (s : Sequence) (h h' : heap)
        (r : docnode * odicti loc)
        (Hrun : SequenceTransform_call ts (DSequence s) defs h = Ret r h') :
  linked h defs (seq_body s) h'.
Proof.
  cbn [SequenceTransform_call] in Hrun.
  apply bind_Ret in Hrun. destruct Hrun as (hn & hx & Hh & Hrun).
  apply lift_Ret in Hh. destruct Hh as [Hh ->].
  destruct hn as [hd|?|? ?]; try discriminate.
  apply bind_Ret in Hrun. destruct Hrun as (head & h1 & Hcopy & Hrun).
  apply copy_Ret in Hcopy. destruct Hcopy as (ehd & Hehd & -> & ->).
  apply bind_Ret in Hrun. destruct Hrun as (tail & hx & Htail & Hrun).
  apply lift_Ret in Htail. destruct Htail as [Htail ->].
  apply bind_Ret in Hrun. destruct Hrun as (refer & hx & Hrefer & Hrun).
  apply reading_Ret in Hrefer. destruct Hrefer as [Hrefer ->].
  apply bind_Ret in Hrun.
  destruct Hrun as ([[templates elements] position] & h2 & Hbodyrun & Hrun).
  apply bind_Ret in Hrun. destruct Hrun as (u & h3 & Hset & Hrun).
  apply bind_Ret in Hrun. destruct Hrun as (e & hx & Hde & Hrun).
  apply reading_Ret in Hde. destruct Hde as [Hde ->].
  apply ret_Ret in Hrun. destruct Hrun as [-> <-].
  pose proof (@transform_body_links _ ts defs refer h (seq_body s) [] [] []
                (VInt 0) (h ++ [ehd]) _ h2
                (@transforms_alloc h h 0 ehd (Nat.le_0_l _) (transforms_refl h 0))
                ltac:(intros l e0 []) Hbodyrun) as Hl.
  cbn [app] in Hl.
  unfold setitem in Hset. apply modify_Ret in Hset.
  destruct Hset as (e2 & He2 & ->).
  intros l e0 Hin He0 Hty. destruct (Hl l e0 Hin He0 Hty) as (e1 & He1 & Hrest).
  exists e1. split; [|exact Hrest].
  pose proof (nth_error_lt _ _ He0) as Hlt.
  rewrite nth_error_update_nth_neq by lia. exact He1.
Qed.

(** X17: [SequenceTransform.__call__] links the body to the definitions: when
    it returns, every body element that has a type has as its base the
    element [defs] holds under that type, or none where [defs] has none,
    and keeps its name, type and own arguments. *)
Theorem body_elements_linked `{PyArith} (ts : list ElementTransform)
        (defs : odicti loc) (s : Sequence) (h h' : heap)
        (r : docnode * odicti loc)
        (Hrun : SequenceTransform_call ts (DSequence s) defs h = Ret r h') :
  linked h defs (seq_body s) h'.
Proof.
  exact (@sequence_call_links _ ts defs s h h' r Hrun).
Qed.

Lemma body_elements_linked_witness :
  exists e, nth_error
              (update_nth defined_heap 2%nat
                 (mkElement (Some "Q1") (Some "QF") [] (Some (RElement 0%nat))) ++
               [mkElement (Some "S") (Some "SEQUENCE")
                          [("refer", VStr "entry"); ("L", VInt 2)] None;
                mkElement (Some "Q1") (Some "QF") [("at", dec_lit 0 0)]
                          (Some (RElement 0%nat))]) 2%nat = Some e
            /\ el_base e = Some (RElement 0%nat).
Proof.
  destruct (@body_elements_linked python [catch_all] [("QF", 0%nat)]
              defined_sequence defined_heap
              (update_nth defined_heap 2%nat
                 (mkElement (Some "Q1") (Some "QF") [] (Some (RElement 0%nat))) ++
               [mkElement (Some "S") (Some "SEQUENCE")
                          [("refer", VStr "entry"); ("L", VInt 2)] None;
                mkElement (Some "Q1") (Some "QF") [("at", dec_lit 0 0)]
                          (Some (RElement 0%nat))])
              (DSequence (mkSequence [NElement 4%nat; NElement 5%nat; NElement 3%nat] []),
               [("QF", 0%nat)])
              ltac:(vm_compute; reflexivity)
              2%nat _ ltac:(left; reflexivity) eq_refl eq_refl)
    as (e & He & Hb & _).
  exists e. split; [exact He|exact Hb].
Defined.

(** ** Thin rescaling *)

Lemma all_args_fuel_unique (h : heap) :
  forall n l args, all_args_fuel n h l = Ok args -> unique_keys args.
Proof.
  induction n as [|n IH]; intros l args Ha; cbn [all_args_fuel] in Ha; [discriminate|].
  destruct (nth_error h l) as [e|]; [|discriminate].
  destruct (el_base e) as [[b|ln le]|]; [|discriminate|].
  - destruct (all_args_fuel n h b) as [argsb|x] eqn:Hb; [|discriminate].
    injection Ha as <-. apply od_update_unique. exact (IH b argsb Hb).
  - injection Ha as <-. apply od_update_unique. constructor.
Qed.

Lemma thin_at_update (s : loc) (h : heap) (e : Element) (args : odicti pyval) :
  nth_error h s = Some e -> el_base e = None -> el_type e = Some "multipole" ->
  el_class e = Odicti ->
  unique_keys args ->
  thin_at s (update_nth h s (set_args e args)).
Proof.
  intros He Hb Hty Hcl Hu. eexists. split.
  - apply nth_error_update_nth_eq. eapply nth_error_lt. exact He.
  - cbn. repeat split; assumption.
Qed.

Lemma setitem_thin (s : loc) (key : string) (v : pyval) (h h' : heap) (u : unit) :
  thin_at s h -> setitem s key v h = Ret u h' -> thin_at s h'.
Proof.
  intros (e & He & Hb & Hty & Hcl & Hu) Hset. unfold setitem in Hset.
  apply modify_Ret in Hset. destruct Hset as (e' & He' & ->).
  rewrite He in He'. injection He' as <-.
  apply thin_at_update; try assumption. rewrite Hcl.
  exact (@dict_set_unique _ Odicti _ _ _ Hu).
Qed.

Lemma delitem_thin (s : loc) (key : string) (h h' : heap) (u : unit) :
  thin_at s h -> delitem s key h = Ret u h' -> thin_at s h'.
Proof.
  intros (e & He & Hb & Hty & Hcl & Hu) Hdel. unfold delitem in Hdel.
  apply bind_Ret in Hdel. destruct Hdel as (e' & hx & Hde & Hdel).
  apply reading_Ret in Hde. destruct Hde as [Hde ->].
  unfold deref in Hde. rewrite He in Hde. injection Hde as <-.
  destruct (dict_mem (el_class e) (el_args e) key); [|discriminate].
  apply modify_Ret in Hdel. destruct Hdel as (e' & He' & ->).
  rewrite He in He'. injection He' as <-.
  apply thin_at_update; try assumption. rewrite Hcl.
  exact (@dict_del_unique _ Odicti _ _ Hu).
Qed.

(** [pop] on an element without a base: the key is the element's own and
    leaves it, or the default comes back and nothing changes. *)
Lemma pop_thin (s : loc) (key : string) (default : option pyval)
      (h h' : heap) (v : pyval) :
  thin_at s h -> pop s key default h = Ret v h' ->
  thin_at s h'
  /\ exists e,
       nth_error h s = Some e
       /\ ((own e key = Some v
            /\ h' = update_nth h s (set_args e (dict_del (el_class e) (el_args e) key)))
           \/ (own e key = None /\ h' = h)).
Proof.
  intros (e & He & Hb & Hty & Hcl & Hu) Hpop. unfold pop in Hpop.
  apply bind_Ret in Hpop. destruct Hpop as (e' & hx & Hde & Hpop).
  apply reading_Ret in Hde. destruct Hde as [Hde ->].
  unfold deref in Hde. rewrite He in Hde. injection Hde as <-.
  destruct (own e key) as [w|] eqn:Hg.
  - apply bind_Ret in Hpop. destruct Hpop as (u & h1 & Hm & Hret).
    apply ret_Ret in Hret. destruct Hret as [-> ->].
    apply modify_Ret in Hm. destruct Hm as (e' & He' & ->).
    rewrite He in He'. injection He' as <-.
    split; [apply thin_at_update; try assumption; rewrite Hcl;
            exact (@dict_del_unique _ Odicti _ _ Hu)|].
    exists e. split; [exact He|]. left. split; [exact Hg|reflexivity].
  - rewrite Hb in Hpop. destruct default as [d|]; [|discriminate].
    injection Hpop as <- <-.
    split; [exists e; repeat split; assumption|].
    exists e. split; [exact He|]. right. split; [exact Hg|reflexivity].
Qed.

Section Thin.
Context `{PyArith}.

Lemma strength_Ret (elem : loc) (k1 k2 : string) (ratio v : pyval) (h h' : heap) :
  strength elem k1 k2 ratio h = Ret v h' -> h' = h.
Proof.
  unfold strength. intros Hs.
  apply bind_Ret in Hs. destruct Hs as (a & hx & Ha & Hs).
  apply reading_Ret in Ha. destruct Ha as [_ ->].
  apply bind_Ret in Hs. destruct Hs as (b & hx & Hb & Hs).
  apply reading_Ret in Hb. destruct Hb as [_ ->].
  apply bind_Ret in Hs. destruct Hs as (ab & hx & Hab & Hs).
  apply lift_Ret in Hab. destruct Hab as [_ ->].
  apply lift_Ret in Hs. destruct Hs as [_ ->]. reflexivity.
Qed.

(** The strength of a quadrupole moves from [k] to the list under [kl]. *)
Lemma quad_strength_thin (s : loc) (k kl : string) (ratio : pyval) (b : bool)
      (h h' : heap) (u : unit) :
  thin_at s h ->
  (if b then
     (v <- strength s k "L" ratio ;;
      setitem s kl (VList [VInt 0; v]) ;;;
      delitem s k)%py
   else ret tt) h = Ret u h' ->
  thin_at s h'.
Proof.
  intros Ht Hrun. destruct b.
  - apply bind_Ret in Hrun. destruct Hrun as (v & h1 & Hs & Hrun).
    apply strength_Ret in Hs. subst h1.
    apply bind_Ret in Hrun. destruct Hrun as (u1 & h2 & Hset & Hdel).
    eapply delitem_thin; [|exact Hdel]. eapply setitem_thin; [exact Ht|exact Hset].
  - apply ret_Ret in Hrun. destruct Hrun as [_ ->]. exact Ht.
Qed.

(** The end of [rescale_makethin]: the length leaves the multipole. *)
Lemma thin_length_leaves (s : loc) (ratio : pyval) (hasL : bool)
      (h h' : heap) (u : unit) :
  thin_at s h ->
  contains h s "L" = Ok hasL ->
  (if hasL then
     l <- pop s "L" None ;;
     v <- lift (py_binop Mul l ratio) ;;
     setitem s "lrad" v
   else ret tt)%py h = Ret u h' ->
  exists e, nth_error h' s = Some e
            /\ el_base e = None /\ el_type e = Some "multipole"
            /\ el_class e = Odicti
            /\ own e "L" = None.
Proof.
  intros Ht Hc Hrun. pose proof Ht as (e & He & Hb & Hty & Hcl & Hu).
  unfold contains in Hc. cbn [contains_fuel] in Hc. rewrite He, Hb in Hc.
  unfold dict_mem in Hc.
  destruct hasL.
  - apply bind_Ret in Hrun. destruct Hrun as (l & h1 & Hpop & Hrun).
    destruct (@pop_thin _ _ _ _ _ _ Ht Hpop) as (Ht1 & e0 & He0 & Hcase).
    rewrite He in He0. injection He0 as <-.
    destruct Hcase as [[Hg ->]|[Hg _]];
      [|rewrite Hg in Hc; discriminate].
    apply bind_Ret in Hrun. destruct Hrun as (v & hx & Hv & Hset).
    apply lift_Ret in Hv. destruct Hv as [_ ->].
    unfold setitem in Hset. apply modify_Ret in Hset.
    destruct Hset as (e1 & He1 & ->).
    pose proof (nth_error_lt _ _ He) as Hlt.
    rewrite nth_error_update_nth_eq in He1 by exact Hlt. injection He1 as <-.
    eexists. split.
    + apply nth_error_update_nth_eq. rewrite update_nth_length. exact Hlt.
    + cbn [el_name el_type el_args el_base el_class]. repeat split; try assumption.
      rewrite Hcl.
      rewrite (@dict_get_set_other _ Odicti _ "lrad" "L" v eq_refl).
      rewrite (@dict_get_del _ Odicti (el_args e) "L" "L" Hu). reflexivity.
  - apply ret_Ret in Hrun. destruct Hrun as [_ ->].
    exists e. repeat split; try assumption.
    destruct (own e "L"); [discriminate|reflexivity].
Qed.

End Thin.

(** X18: [rescale_makethin] on an element whose base type is [sbend] or
    [quadrupole] builds a new element of type [multipole] that has no
    base and no [L] of its own, so that its length reads 0; on a solenoid
    it builds a copy whose [L] is set to 0. *)
Theorem makethin_has_no_length `{PyArith} (elem s : loc) (ratio : pyval)
        (h h' : heap) (bt : option string)
        (Hbt : base_type h elem = Ok bt)
        (Hthin : orb (thinned bt) (stri_is bt "solenoid") = true)
        (Hrun : rescale_makethin elem ratio h = Ret s h') :
  s = List.length h
  /\ get h' s "L" (VInt 0) = Ok (VInt 0)
  /\ (stri_is bt "solenoid" = false ->
      exists e, nth_error h' s = Some e
                /\ el_base e = None /\ el_type e = Some "multipole"
                /\ el_class e = Odicti
                /\ own e "L" = None).
Proof.
  unfold rescale_makethin in Hrun.
  rewrite (bind_reading_Ok (fun h => base_type h elem) _ h Hbt) in Hrun.
  unfold thinned in Hthin.
  replace (negb (stri_is bt "sbend" || (stri_is bt "quadrupole" || stri_is bt "solenoid")))
    with false in Hrun
    by (rewrite Bool.orb_assoc, Hthin; reflexivity).
  destruct (stri_is bt "solenoid") eqn:Hsol.
  - apply bind_Ret in Hrun. destruct Hrun as (s0 & h1 & Hcopy & Hrun).
    apply copy_Ret in Hcopy. destruct Hcopy as (e & He & -> & ->).
    apply bind_Ret in Hrun. destruct Hrun as (v & hx & Hs & Hrun).
    apply strength_Ret in Hs. subst hx.
    apply bind_Ret in Hrun. destruct Hrun as (u1 & h2 & Hset1 & Hrun).
    apply bind_Ret in Hrun. destruct Hrun as (l & hx & Hl & Hrun).
    apply reading_Ret in Hl. destruct Hl as [_ ->].
    apply bind_Ret in Hrun. destruct Hrun as (v2 & hx & Hv2 & Hrun).
    apply lift_Ret in Hv2. destruct Hv2 as [_ ->].
    apply bind_Ret in Hrun. destruct Hrun as (u2 & h3 & Hset2 & Hrun).
    apply bind_Ret in Hrun. destruct Hrun as (u3 & h4 & Hset3 & Hret).
    apply ret_Ret in Hret. destruct Hret as [-> ->].
    split; [reflexivity|]. split; [|discriminate].
    unfold setitem in Hset3. apply modify_Ret in Hset3.
    destruct Hset3 as (e3 & He3 & ->).
    unfold get, getitem. cbn [getitem_fuel].
    rewrite nth_error_update_nth_eq by (eapply nth_error_lt; exact He3).
    cbn [el_args el_class]. rewrite dict_get_set. reflexivity.
  - apply bind_Ret in Hrun. destruct Hrun as (e & hx & Hde & Hrun).
    apply reading_Ret in Hde. destruct Hde as [_ ->].
    apply bind_Ret in Hrun. destruct Hrun as (args & hx & Ha & Hrun).
    apply reading_Ret in Ha. destruct Ha as [Ha ->].
    apply bind_Ret in Hrun. destruct Hrun as (s0 & h1 & Hnew & Hrun).
    apply alloc_Ret in Hnew. destruct Hnew as [-> ->].
    assert (Ht1 : thin_at (List.length h)
                    (h ++ [mkElement (el_name e) (Some "multipole") args None])).
    { eexists. split; [apply nth_error_alloc_new|]. cbn. repeat split.
      exact (@all_args_fuel_unique h _ elem args Ha). }
    apply bind_Ret in Hrun. destruct Hrun as (u1 & h2 & Hmid & Hrun).
    assert (Ht2 : thin_at (List.length h) h2).
    { destruct (stri_is bt "sbend").
      - apply bind_Ret in Hmid. destruct Hmid as (a & h3 & Hpop & Hmid).
        destruct (@pop_thin _ _ _ _ _ _ Ht1 Hpop) as (Ht3 & _).
        apply bind_Ret in Hmid. destruct Hmid as (v & hx & Hv & Hmid).
        apply lift_Ret in Hv. destruct Hv as [_ ->].
        apply bind_Ret in Hmid. destruct Hmid as (u2 & h4 & Hset & Hmid).
        apply bind_Ret in Hmid. destruct Hmid as (w & h5 & Hpop2 & Hret).
        apply ret_Ret in Hret. destruct Hret as [_ ->].
        refine (proj1 (@pop_thin _ _ _ _ _ _ _ Hpop2)).
        eapply setitem_thin; [exact Ht3|exact Hset].
      - destruct (stri_is bt "quadrupole").
        + apply bind_Ret in Hmid. destruct Hmid as (b1 & hx & Hc1 & Hmid).
          apply reading_Ret in Hc1. destruct Hc1 as [_ ->].
          apply bind_Ret in Hmid. destruct Hmid as (u2 & h3 & Hk1 & Hmid).
          apply bind_Ret in Hmid. destruct Hmid as (b2 & hx & Hc2 & Hk1s).
          apply reading_Ret in Hc2. destruct Hc2 as [_ ->].
          eapply quad_strength_thin; [|exact Hk1s].
          eapply quad_strength_thin; [exact Ht1|exact Hk1].
        + apply ret_Ret in Hmid. destruct Hmid as [_ ->]. exact Ht1. }
    apply bind_Ret in Hrun. destruct Hrun as (hasL & hx & Hc & Hrun).
    apply reading_Ret in Hc. destruct Hc as [Hc ->].
    apply bind_Ret in Hrun. destruct Hrun as (u3 & h3 & Hend & Hret).
    apply ret_Ret in Hret. destruct Hret as [-> ->].
    destruct (@thin_length_leaves _ _ _ _ _ _ _ Ht2 Hc Hend)
      as (e3 & He3 & Hb3 & Hty3 & Hcl3 & HL3).
    split; [reflexivity|]. split.
    + unfold get, getitem. cbn [getitem_fuel]. rewrite He3, HL3, Hb3. reflexivity.
    + intros _. exists e3. repeat split; assumption.
Qed.

Lemma makethin_has_no_length_witness :
  exists h',
    rescale_makethin 1%nat (dec_lit 5 (-1)) quad_def_heap = Ret 2%nat h'
    /\ get h' 2%nat "L" (VInt 0) = Ok (VInt 0).
Proof.
  eexists. split; [lazy; reflexivity|].
  refine (proj1 (proj2 (@makethin_has_no_length python 1%nat 2%nat (dec_lit 5 (-1))
                          quad_def_heap _ (Some "QUADRUPOLE") eq_refl eq_refl _))).
  lazy. reflexivity.
Defined.

(** ** Templates *)

(** X19: With a rule that emits templates, [slice] hands out one template, the
    rescaled element, which carries the name of the input element; every
    slice of the uniform distribution is an unnamed element whose type is
    that name, whose only argument is [at] and whose base is the
    template. *)
Theorem template_slices_refer `{PyArith}
        (t : ElementTransform) (elem : loc) (offset refer : pyval)
        (h h1 h2 : heap) (templ : list loc) (g : generator) (exit_ : pyval)
        (nodes : list node) (e : Element)
        (Htempl : t_template t = true)
        (Hstyle : t_style t = Uniform)
        (He : nth_error h elem = Some e)
        (Hslice : slice t elem offset refer h = Ret (templ, g, exit_) h1)
        (Hrun : consume g h1 = Ret nodes h2) :
  exists scaled sc,
    templ = [scaled]
    /\ nth_error h2 scaled = Some sc
    /\ el_name sc = el_name e
    /\ Forall (refers_to h2 scaled (el_name e)) nodes.
Proof.
  apply slice_Ret in Hslice.
  destruct Hslice as (L & pos & n & d & slice_len & num_d & ratio & scaled & hs
                      & HL & Hpos & Hn & Hd & Hlen & Hnd & Hratio & Hresc
                      & Hstrip & -> & Hg & Hexit).
  assert (Hnamed : named scaled (el_name e) hs).
  { eapply rescale_named; [|exact Hresc]. exists e. split; [exact He|reflexivity]. }
  destruct Hnamed as (sc & Hsc & Hname).
  unfold maketempl. unfold stripelem in Hstrip. rewrite Htempl in Hstrip |- *.
  apply bind_Ret in Hstrip. destruct Hstrip as (sc' & hx & Hde & Hnew).
  apply reading_Ret in Hde. destruct Hde as [Hde ->].
  unfold deref in Hde. rewrite Hsc in Hde. injection Hde as <-.
  apply alloc_Ret in Hnew. destruct Hnew as [Hge ->].
  set (src := Build_Element None (el_name sc) [] (Some (RElement scaled)) Dict) in *.
  assert (Hsrc : nth_error (hs ++ [src]) (g_elem g) = Some src)
    by (rewrite Hge; apply nth_error_alloc_new).
  assert (Hgs : g_style g = Uniform) by (rewrite Hg; exact Hstyle).
  unfold consume in Hrun. rewrite Hgs in Hrun.
  unfold uniform_slice_distribution in Hrun.
  eapply uniform_slices_Ret in Hrun; [|exact Hsrc].
  destruct Hrun as (cells & -> & Hcl & -> & Hcells).
  pose proof (nth_error_lt _ _ Hsc) as Hlt.
  exists scaled, sc. split; [reflexivity|]. split.
  { rewrite nth_error_app1 by (rewrite length_app; cbn; lia).
    rewrite nth_error_app1 by exact Hlt. exact Hsc. }
  split; [exact Hname|].
  apply Forall_forall. intros nd Hin.
  apply in_map_iff in Hin. destruct Hin as (l & <- & Hl).
  apply in_seq in Hl.
  destruct (Hcells (l - List.length (hs ++ [src]))%nat ltac:(lia)) as (at_ & _ & Hc).
  exists l, at_. split; [reflexivity|].
  rewrite nth_error_app2 by lia. rewrite Hc.
  unfold slice_cell, src. cbn [el_name el_type el_args el_base slice_name od_set].
  rewrite Hname. reflexivity.
Qed.

Lemma template_slices_refer_witness :
  exists h2 nodes,
    Forall (refers_to h2 1%nat (Some "Q")) nodes /\ List.length nodes = 3%nat.
Proof.
  edestruct (@template_slices_refer python template_rule3 0%nat (VInt 0) (VInt 0)
               named_heap)
    as (scaled & sc & Ht & _ & _ & Hall).
  - reflexivity.
  - reflexivity.
  - reflexivity.
  - lazy. reflexivity.
  - lazy. reflexivity.
  - injection Ht as <-. eexists. eexists. split; [exact Hall|reflexivity].
Defined.

(** ** Definitions *)

Section Definitions.
Context `{PyArith}.
Variable ts : list ElementTransform.

(** The table a call hands on. *)
Lemma call_defs (nd : docnode) (defs : odicti loc) (h h' : heap)
      (r : docnode * odicti loc) :
  SequenceTransform_call ts nd defs h = Ret r h' ->
  snd r = defs_after h [nd] defs.
Proof.
  intros Hrun. destruct nd as [[l|s|name elems]|s];
    cbn [SequenceTransform_call defs_after] in *.
  - apply bind_Ret in Hrun. destruct Hrun as (e & hx & Hde & Hrun).
    apply reading_Ret in Hde. destruct Hde as [Hde ->].
    apply bind_Ret in Hrun. destruct Hrun as (u & h1 & Hset & Hret).
    apply ret_Ret in Hret. destruct Hret as [Hr _]. subst r.
    unfold deref in Hde. destruct (nth_error h l) as [e0|]; [|discriminate].
    injection Hde as <-. reflexivity.
  - apply ret_Ret in Hrun. destruct Hrun as [Hr _]. subst r. reflexivity.
  - apply ret_Ret in Hrun. destruct Hrun as [Hr _]. subst r. reflexivity.
  - apply bind_Ret in Hrun. destruct Hrun as (hn & hx & Hh & Hrun).
    apply lift_Ret in Hh. destruct Hh as [Hh ->].
    destruct hn as [hd|?|? ?]; try discriminate.
    apply bind_Ret in Hrun. destruct Hrun as (head & h1 & Hcopy & Hrun).
    apply bind_Ret in Hrun. destruct Hrun as (tail & hx & Htail & Hrun).
    apply bind_Ret in Hrun. destruct Hrun as (refer & hy & Hrefer & Hrun).
    apply bind_Ret in Hrun.
    destruct Hrun as ([[templates elements] position] & h2 & Hbodyrun & Hrun).
    apply bind_Ret in Hrun. destruct Hrun as (u & h3 & Hset & Hrun).
    apply bind_Ret in Hrun. destruct Hrun as (e & hz & Hde & Hrun).
    apply ret_Ret in Hrun. destruct Hrun as [Hr _]. subst r. reflexivity.
Qed.

Lemma defs_after_app (h : heap) (a b : list docnode) :
  forall defs, defs_after h (a ++ b) defs = defs_after h b (defs_after h a defs).
Proof.
  induction a as [|nd a IH]; intros defs; [reflexivity|].
  cbn [app defs_after]. destruct nd as [[l|t|nm els]|s]; try apply IH.
  destruct (nth_error h l); apply IH.
Qed.

(** The table is that of the names the elements had at the start. *)
Lemma defs_after_keeps (h h1 : heap) (nodes : list docnode) :
  keeps_content h h1 ->
  (forall l, In (DNode (NElement l)) nodes -> (l < List.length h)%nat) ->
  forall defs, defs_after h1 nodes defs = defs_after h nodes defs.
Proof.
  intros [_ Hk]. induction nodes as [|nd nodes IH]; intros Hv defs; [reflexivity|].
  assert (Hv' : forall l, In (DNode (NElement l)) nodes -> (l < List.length h)%nat).
  { intros l Hl. apply Hv. right. exact Hl. }
  cbn [defs_after]. destruct nd as [[l|t|nm els]|s]; try exact (IH Hv' defs).
  pose proof (Hv l (or_introl eq_refl)) as Hl.
  destruct (nth_error h l) as [e|] eqn:He;
    [|apply nth_error_None in He; lia].
  destruct (Hk l e He) as (e1 & He1 & Hn & _). rewrite He1, Hn.
  exact (IH Hv' _).
Qed.

(** The nodes before a place in the document are transformed first, and
    leave the table of their definitions. *)
Lemma transform_nodes_app (rest : list docnode) :
  forall pre defs h out h',
    transform_nodes ts (pre ++ rest) defs h = Ret out h' ->
    (forall l, In (DNode (NElement l)) pre -> (l < List.length h)%nat) ->
    exists out1 h1 out2,
      transform_nodes ts pre defs h = Ret out1 h1
      /\ transform_nodes ts rest (defs_after h pre defs) h1 = Ret out2 h'
      /\ keeps_content h h1.
Proof.
  induction pre as [|nd pre IH]; intros defs h out h' Hrun Hv.
  - exists [], h, out. split; [reflexivity|]. split; [exact Hrun|apply transforms_refl].
  - cbn [app transform_nodes] in Hrun.
    apply bind_Ret in Hrun. destruct Hrun as (r & h0 & Hcall & Hrun).
    apply bind_Ret in Hrun. destruct Hrun as (out' & h2 & Hrest & Hret).
    apply ret_Ret in Hret. destruct Hret as [_ Hh2]. subst h2.
    destruct (@call_keeps _ ts nd defs h h0 r Hcall) as (Ht0 & _).
    pose proof (transforms_length Ht0) as Hlen.
    assert (Hv' : forall l, In (DNode (NElement l)) pre -> (l < List.length h)%nat).
    { intros l Hl. apply Hv. right. exact Hl. }
    destruct (IH (snd r) h0 out' h' Hrest) as (out1 & h1 & out2 & Hpre & Hpost & Ht1).
    { intros l Hl. pose proof (Hv' l Hl). lia. }
    exists (fst r :: out1), h1, out2. split; [|split].
    + cbn [transform_nodes]. unfold bind at 1. rewrite Hcall.
      unfold bind at 1. rewrite Hpre. reflexivity.
    + rewrite (@defs_after_keeps h h0 pre Ht0 Hv') in Hpost.
      rewrite (@call_defs nd defs h h0 r Hcall) in Hpost.
      rewrite <- (defs_after_app h [nd] pre) in Hpost. exact Hpost.
    + exact (transforms_trans Ht0 Ht1).
Qed.

(** Slicing an element leaves every other element of the store as it
    is. *)
Lemma transform_based (defs : odicti loc) (refer : pyval) (l l' : loc)
      (position : pyval) (h h1 h2 : heap) (r : list loc * generator * pyval)
      (nodes : list node) (e : Element) :
  transform ts defs refer l' position h = Ret r h1 ->
  consume (snd (fst r)) h1 = Ret nodes h2 ->
  l <> l' -> nth_error h l = Some e -> nth_error h2 l = Some e.
Proof.
  intros Htr Hc Hne He. unfold transform in Htr.
  apply bind_Ret in Htr. destruct Htr as (e' & hx & Hde & Htr).
  apply reading_Ret in Hde. destruct Hde as [Hde ->].
  apply bind_Ret in Htr. destruct Htr as (u & ha & Hset & Hfm).
  assert (Ha : nth_error ha l = Some e).
  { destruct (truthy_str (el_type e')).
    - unfold set_base in Hset. apply modify_Ret in Hset.
      destruct Hset as (e2 & He2 & ->).
      rewrite nth_error_update_nth_neq by exact Hne. exact He.
    - apply ret_Ret in Hset. destruct Hset as [_ ->]. exact He. }
  apply first_match_Ret in Hfm. destruct Hfm as (t & Hslice).
  destruct r as [[templ gen] position']. cbn [fst snd] in Hc.
  pose proof (@keeps_slice _ (List.length ha) t l' position refer ha (le_n _)) as Hks.
  rewrite Hslice in Hks. rewrite firstn_all in Hks.
  destruct Hks as (Hf1 & Hlen1 & _).
  pose proof (@keeps_consume _ (List.length ha) gen h1 Hlen1) as Hkc.
  rewrite Hc in Hkc. rewrite Hf1 in Hkc. destruct Hkc as (Hf2 & _ & _).
  eapply firstn_keeps_elem; [exact Hf2|exact Ha].
Qed.

Lemma transform_body_based (defs : odicti loc) (refer : pyval) (l : loc) (e : Element) :
  forall body templates elements position h r h',
    transform_body ts defs refer body templates elements position h = Ret r h' ->
    ~ In (NElement l) body -> nth_error h l = Some e -> nth_error h' l = Some e.
Proof.
  induction body as [|nd rest IH]; intros templates elements position h r h' Hrun Hn He;
    cbn [transform_body] in Hrun.
  - apply ret_Ret in Hrun. destruct Hrun as [_ ->]. exact He.
  - assert (Hn' : ~ In (NElement l) rest) by (intros Hin; apply Hn; right; exact Hin).
    destruct nd as [l'|s|name elems]; [| |discriminate].
    + assert (Hne : l <> l') by (intros ->; apply Hn; left; reflexivity).
      apply bind_Ret in Hrun. destruct Hrun as (e' & hx & Hde & Hrun).
      apply reading_Ret in Hde. destruct Hde as [_ ->].
      destruct (truthy_str (el_type e')).
      * apply bind_Ret in Hrun. destruct Hrun as (r1 & h1 & Htr & Hrun).
        destruct r1 as [[templ gen] position1].
        apply bind_Ret in Hrun. destruct Hrun as (nodes & h2 & Hc & Hrun).
        refine (IH _ _ _ h2 r h' Hrun Hn' _).
        exact (@transform_based defs refer l l' position h h1 h2
                 (templ, gen, position1) nodes e Htr Hc Hne He).
      * exact (IH _ _ _ h r h' Hrun Hn' He).
    + exact (IH _ _ _ h r h' Hrun Hn' He).
Qed.

(** A call leaves an element that is neither the node nor in the body of
    the sequence as it is. *)
Lemma call_based (nd : docnode) (defs : odicti loc) (h h' : heap)
      (r : docnode * odicti loc) (l : loc) (e : Element) :
  SequenceTransform_call ts nd defs h = Ret r h' ->
  ~ touched l [nd] -> nth_error h l = Some e -> nth_error h' l = Some e.
Proof.
  intros Hrun Hn He. destruct nd as [[l'|s|name elems]|s];
    cbn [SequenceTransform_call] in Hrun.
  - assert (Hne : l <> l').
    { intros ->. apply Hn. exists (DNode (NElement l')).
      split; [left; reflexivity|reflexivity]. }
    apply bind_Ret in Hrun. destruct Hrun as (e' & hx & Hde & Hrun).
    apply reading_Ret in Hde. destruct Hde as [_ ->].
    apply bind_Ret in Hrun. destruct Hrun as (u & h1 & Hset & Hret).
    apply ret_Ret in Hret. destruct Hret as [_ Hh]. subst h1.
    unfold set_base in Hset. apply modify_Ret in Hset.
    destruct Hset as (e2 & He2 & ->).
    rewrite nth_error_update_nth_neq by exact Hne. exact He.
  - apply ret_Ret in Hrun. destruct Hrun as [_ Hh]. subst h'. exact He.
  - apply ret_Ret in Hrun. destruct Hrun as [_ Hh]. subst h'. exact He.
  - assert (Hnb : ~ In (NElement l) (seq_body s)).
    { intros Hin. apply Hn. exists (DSequence s).
      split; [left; reflexivity|exact Hin]. }
    pose proof (nth_error_lt _ _ He) as Hlt.
    apply bind_Ret in Hrun. destruct Hrun as (hn & hx & Hh & Hrun).
    apply lift_Ret in Hh. destruct Hh as [Hh ->].
    destruct hn as [hd|?|? ?]; try discriminate.
    apply bind_Ret in Hrun. destruct Hrun as (head & h1 & Hcopy & Hrun).
    apply copy_Ret in Hcopy. destruct Hcopy as (ehd & Hehd & -> & ->).
    apply bind_Ret in Hrun. destruct Hrun as (tail & hx & Htail & Hrun).
    apply lift_Ret in Htail. destruct Htail as [Htail ->].
    apply bind_Ret in Hrun. destruct Hrun as (refer & hx & Hrefer & Hrun).
    apply reading_Ret in Hrefer. destruct Hrefer as [Hrefer ->].
    apply bind_Ret in Hrun.
    destruct Hrun as ([[templates elements] position] & h2 & Hbodyrun & Hrun).
    apply bind_Ret in Hrun. destruct Hrun as (u & h3 & Hset & Hrun).
    apply bind_Ret in Hrun. destruct Hrun as (e' & hx & Hde & Hrun).
    apply reading_Ret in Hde. destruct Hde as [Hde ->].
    apply ret_Ret in Hrun. destruct Hrun as [_ Hh3]. subst h3.
    assert (H2 : nth_error h2 l = Some e).
    { refine (@transform_body_based defs refer l e (seq_body s) [] [] (VInt 0)
                (h ++ [ehd]) _ h2 Hbodyrun Hnb _).
      rewrite nth_error_alloc_old by exact Hlt. exact He. }
    unfold setitem in Hset. apply modify_Ret in Hset.
    destruct Hset as (e2 & He2 & ->).
    rewrite nth_error_update_nth_neq by lia. exact H2.
Qed.

Lemma transform_nodes_based (l : loc) (e : Element) :
  forall nodes defs h out h',
    transform_nodes ts nodes defs h = Ret out h' ->
    ~ touched l nodes -> nth_error h l = Some e -> nth_error h' l = Some e.
Proof.
  induction nodes as [|nd rest IH]; intros defs h out h' Hrun Hn He;
    cbn [transform_nodes] in Hrun.
  - apply ret_Ret in Hrun. destruct Hrun as [_ ->]. exact He.
  - apply bind_Ret in Hrun. destruct Hrun as (r & h1 & Hcall & Hrun).
    apply bind_Ret in Hrun. destruct Hrun as (out' & h2 & Hrest & Hret).
    apply ret_Ret in Hret. destruct Hret as [_ Hh2]. subst h2.
    refine (IH _ h1 out' h' Hrest _ _).
    + intros (x & Hin & Hx). apply Hn. exists x. split; [right; exact Hin|exact Hx].
    + refine (@call_based nd defs h h1 r l e Hcall _ He).
      intros (x & [<-|[]] & Hx). apply Hn. exists nd.
      split; [left; reflexivity|exact Hx].
Qed.

End Definitions.

(** The element the table holds under [ty]: the last that was entered
    under that name. *)
Lemma defs_after_last (h : heap) (ty : string) (d : loc) :
  forall nodes defs,
    od_get defs ty = Some d ->
    (forall d' ed', In (DNode (NElement d')) nodes -> nth_error h d' = Some ed' ->
                    same_key (str_opt (el_name ed')) ty = false) ->
    od_get (defs_after h nodes defs) ty = Some d.
Proof.
  induction nodes as [|nd nodes IH]; intros defs Hd Hother; [exact Hd|].
  assert (Ho' : forall d' ed', In (DNode (NElement d')) nodes ->
                  nth_error h d' = Some ed' ->
                  same_key (str_opt (el_name ed')) ty = false).
  { intros d' ed' Hin. apply Hother. right. exact Hin. }
  cbn [defs_after]. destruct nd as [[l|t|nm els]|s]; try exact (IH defs Hd Ho').
  destruct (nth_error h l) as [e|] eqn:He; [|exact (IH defs Hd Ho')].
  apply IH; [|exact Ho'].
  rewrite (@od_get_set_other _ defs _ ty l (Hother l e (or_introl eq_refl) He)).
  exact Hd.
Qed.

(** X20: The base of a body element of a sequence, once [Document.transform]
    has returned: the element the table of definitions holds under the
    type of the body element when the sequence is reached.  That is the
    last element standing in the document before the sequence whose name
    is that type, whatever the case of the letters; an element of the
    same name that stands between it and the sequence takes its place.
    This holds for a body element that is no node and no body element of
    the document after the sequence, where the elements standing before
    the sequence are elements of the store. *)
Theorem definition_becomes_base `{PyArith} (ts : list ElementTransform)
        (pre post : list docnode) (s : Sequence) (h h' : heap) (out : list docnode)
        (Hvalid : forall l, In (DNode (NElement l)) pre -> (l < List.length h)%nat)
        (Hrun : Document_transform ts (pre ++ DSequence s :: post) h = Ret out h') :
  forall l e0,
    In (NElement l) (seq_body s) -> nth_error h l = Some e0 ->
    truthy_str (el_type e0) = true ->
    ~ touched l post ->
    exists e,
      nth_error h' l = Some e
      /\ el_base e = defs_get (defs_after h pre []) (el_type e0)
      /\ forall pre1 d pre2 ed,
           pre = pre1 ++ DNode (NElement d) :: pre2 ->
           nth_error h d = Some ed ->
           stri_eq (el_type e0) (el_name ed) = true ->
           (forall d' ed', In (DNode (NElement d')) pre2 -> nth_error h d' = Some ed' ->
                           stri_eq (el_type e0) (el_name ed') = false) ->
           el_base e = Some (RElement d).
Proof.
  intros l e0 Hin He0 Hty Hpost.
  unfold Document_transform in Hrun.
  destruct (@transform_nodes_app _ ts (DSequence s :: post) pre [] h out h' Hrun Hvalid)
    as (out1 & h1 & out2 & _ & Hrest & [_ Hk]).
  cbn [transform_nodes] in Hrest.
  apply bind_Ret in Hrest. destruct Hrest as (r2 & h2 & Hcall & Hrest).
  apply bind_Ret in Hrest. destruct Hrest as (out3 & h3 & Hnodes & Hret).
  apply ret_Ret in Hret. destruct Hret as [_ Hh3]. subst h3.
  destruct (Hk l e0 He0) as (e1 & He1 & _ & Hty1 & _).
  destruct (@sequence_call_links _ ts _ s h1 h2 r2 Hcall l e1 Hin He1)
    as (e & He & Hb & _).
  { rewrite Hty1. exact Hty. }
  rewrite Hty1 in Hb.
  exists e. split; [|split; [exact Hb|]].
  - exact (@transform_nodes_based _ ts l e post (snd r2) h2 out3 h' Hnodes Hpost He).
  - intros pre1 d pre2 ed Hpre Hd Heq Hother. rewrite Hb.
    destruct (el_type e0) as [ty|]; [|discriminate].
    assert (Hsame : forall nm, stri_eq (Some ty) nm = same_key (str_opt nm) ty).
    { intros nm. unfold stri_eq, same_key. cbn [str_opt].
      destruct nm; apply String.eqb_sym. }
    subst pre.
    change (pre1 ++ DNode (NElement d) :: pre2)
      with (pre1 ++ [DNode (NElement d)] ++ pre2).
    rewrite !defs_after_app. cbn [defs_after]. rewrite Hd.
    cbn [defs_get].
    rewrite (@defs_after_last h ty d pre2 _).
    + reflexivity.
    + apply od_get_set_ci. rewrite <- Hsame. exact Heq.
    + intros d' ed' Hin' Hd'. rewrite <- Hsame. exact (Hother d' ed' Hin' Hd').
Qed.

Lemma definition_becomes_base_witness :
  exists out h' e,
    Document_transform [catch_all] redefined_document redefined_heap = Ret out h'
    /\ nth_error h' 3%nat = Some e /\ el_base e = Some (RElement 1%nat).
Proof.
  assert (Hrun : exists out h',
             Document_transform [catch_all] redefined_document redefined_heap
             = Ret out h') by (do 2 eexists; lazy; reflexivity).
  destruct Hrun as (out & h' & Hrun). exists out, h'.
  assert (Hvalid : forall l,
             In (DNode (NElement l)) [DNode (NElement 0%nat); DNode (NElement 1%nat)] ->
             (l < List.length redefined_heap)%nat).
  { intros l [[= <-]|[[= <-]|[]]]; cbn; lia. }
  assert (Hpost : ~ touched 3%nat []) by (intros (x & [] & _)).
  destruct (@definition_becomes_base python [catch_all]
              [DNode (NElement 0%nat); DNode (NElement 1%nat)] []
              (mkSequence [NElement 2%nat; NElement 3%nat; NElement 4%nat] [])
              redefined_heap h' out Hvalid Hrun 3%nat
              (mkElement (Some "Q1") (Some "QF") [] None)
              (or_introl eq_refl) eq_refl eq_refl Hpost)
    as (e & He & _ & Hlast).
  exists e. split; [exact Hrun|]. split; [exact He|].
  refine (Hlast [DNode (NElement 0%nat)] 1%nat [] _ eq_refl eq_refl eq_refl _).
  intros d' ed' [].
Defined.

(** ** Expansion of a LINE *)

Lemma line_members_Ret (by_name : odicti ref) (elems : list string) :
  forall (h h' : heap) (nodes : list node)
         (Hrun : line_members by_name elems h = Ret nodes h'),
    h' = h ++ map (member_of by_name) elems
    /\ nodes = map NElement (seq (List.length h) (List.length elems))
    /\ forallb (od_mem by_name) elems = true.
Proof.
  induction elems as [|name rest IH]; intros h h' nodes Hrun;
    cbn [line_members] in Hrun.
  - apply ret_Ret in Hrun. destruct Hrun as [-> ->].
    cbn. rewrite app_nil_r. repeat split.
  - apply bind_Ret in Hrun. destruct Hrun as (b & hx & Hb & Hrun).
    apply lift_Ret in Hb. destruct Hb as [Hb ->].
    unfold by_name_getitem in Hb.
    destruct (od_get by_name name) as [b'|] eqn:Hg; [|discriminate].
    injection Hb as <-.
    apply bind_Ret in Hrun. destruct Hrun as (l & h1 & Hnew & Hrun).
    apply alloc_Ret in Hnew. destruct Hnew as [-> ->].
    apply bind_Ret in Hrun. destruct Hrun as (r & h2 & Hrest & Hret).
    apply ret_Ret in Hret. destruct Hret as [-> <-].
    destruct (IH _ _ _ Hrest) as (-> & -> & Hall).
    cbn [map seq List.length forallb]. unfold member_of at 2. rewrite Hg.
    unfold od_mem at 1. rewrite Hg. cbn [andb].
    rewrite <- app_assoc. rewrite length_app. cbn [List.length app].
    replace (List.length h + 1)%nat with (S (List.length h)) by lia.
    repeat split. exact Hall.
Qed.

(** X21: The members of a LINE that is not inlined: one new element per name,
    in order, each of the type of its name and with the named node as
    base; that is, provided every name is a name of the input. *)
Theorem line_members_refer (by_name : odicti ref) (elems : list string) :
  forall (h h' : heap) (nodes : list node)
         (Hrun : line_members by_name elems h = Ret nodes h'),
    h' = h ++ map (member_of by_name) elems
    /\ nodes = map NElement (seq (List.length h) (List.length elems))
    /\ forallb (od_mem by_name) elems = true.
Proof.
  intros h h' nodes Hrun. exact (@line_members_Ret by_name elems h h' nodes Hrun).
Qed.

Lemma line_members_refer_witness :
  line_heap ++ [Build_Element None (Some "A") [] (Some (RElement 0%nat)) Dict;
                Build_Element None (Some "b") [] (Some (RElement 1%nat)) Dict]
  = line_heap ++ map (member_of [("A", RElement 0%nat); ("B", RElement 1%nat)])
                     ["A"; "b"].
Proof.
  exact (proj1 (@line_members_refer [("A", RElement 0%nat); ("B", RElement 1%nat)]
                  ["A"; "b"] line_heap _ _ eq_refl)).
Defined.

(** ** What [Sequence.detect] leaves as it is *)

Lemma keeps_but_refer_refl (h : heap) : keeps_but_refer h h.
Proof.
  intros l e He. exists e. repeat split. exact He.
Qed.

Lemma keeps_but_refer_trans (h h1 h2 : heap) :
  keeps_but_refer h h1 -> keeps_but_refer h1 h2 -> keeps_but_refer h h2.
Proof.
  intros H1 H2 l e He.
  destruct (H1 l e He) as (e1 & He1 & Hn1 & Ht1 & Hb1 & Hc1 & Ha1).
  destruct (H2 l e1 He1) as (e2 & He2 & Hn2 & Ht2 & Hb2 & Hc2 & Ha2).
  exists e2. split; [exact He2|]. split; [congruence|]. split; [congruence|].
  split; [congruence|]. split; [congruence|].
  intros key Hk. rewrite <- (Ha1 key Hk). apply Ha2. rewrite Hc1. exact Hk.
Qed.

Lemma keeps_but_refer_app (h : heap) (t : list Element) : keeps_but_refer h (h ++ t).
Proof.
  intros l e He. exists e. repeat split.
  rewrite nth_error_app1 by (eapply nth_error_lt; exact He). exact He.
Qed.

Lemma keeps_but_refer_setdefault (h h1 : heap) (l : loc) (u : unit) :
  setdefault_refer l h = Ret u h1 -> keeps_but_refer h h1.
Proof.
  intros Hset. unfold setdefault_refer in Hset. apply modify_Ret in Hset.
  destruct Hset as (e & He & ->). pose proof (nth_error_lt _ _ He) as Hlt.
  intros l' x Hx. destruct (Nat.eq_dec l' l) as [->|Hne].
  - rewrite He in Hx. injection Hx as <-.
    eexists. split; [apply nth_error_update_nth_eq; exact Hlt|].
    cbn [el_name el_type el_base el_class el_args]. repeat split.
    intros key Hk. unfold dict_setdefault.
    destruct (dict_mem (el_class e) (el_args e) "refer"); [reflexivity|].
    apply dict_get_set_other. exact Hk.
  - exists x. rewrite nth_error_update_nth_neq by exact Hne. repeat split. exact Hx.
Qed.

Lemma detect_scan_keeps (inline : bool) (by_name : odicti ref) :
  forall it seq h out h',
    detect_scan inline by_name it seq h = Ret out h' -> keeps_but_refer h h'.
Proof.
  induction it as [|elem rest IH]; intros seq h out h' Hrun;
    cbn [detect_scan] in Hrun.
  - destruct seq; [discriminate|]. apply ret_Ret in Hrun. destruct Hrun as [_ ->].
    apply keeps_but_refer_refl.
  - apply bind_Ret in Hrun. destruct Hrun as (ty & hx & Hty & Hrun).
    apply reading_Ret in Hty. destruct Hty as [_ ->].
    destruct seq as [group|].
    + destruct (stri_is ty "endsequence").
      * apply bind_Ret in Hrun. destruct Hrun as (out' & h1 & Hrest & Hret).
        apply ret_Ret in Hret. destruct Hret as [_ <-].
        exact (IH _ _ _ _ Hrest).
      * exact (IH _ _ _ _ Hrun).
    + destruct (stri_is ty "sequence").
      * destruct elem as [l|t|name elems]; try discriminate.
        apply bind_Ret in Hrun. destruct Hrun as (u & h1 & Hset & Hrun).
        eapply keeps_but_refer_trans;
          [exact (@keeps_but_refer_setdefault h h1 l u Hset)|exact (IH _ _ _ _ Hrun)].
      * destruct (stri_is ty "line").
        -- apply bind_Ret in Hrun. destruct Hrun as (name & hx & Hname & Hrun).
           apply reading_Ret in Hname. destruct Hname as [_ ->].
           apply bind_Ret in Hrun. destruct Hrun as (head & h1 & Hhead & Hrun).
           apply alloc_Ret in Hhead. destruct Hhead as [-> ->].
           apply bind_Ret in Hrun. destruct Hrun as (elems & hx & Helems & Hrun).
           destruct elem as [l|t|nm els]; try discriminate.
           apply ret_Ret in Helems. destruct Helems as [-> ->].
           apply bind_Ret in Hrun. destruct Hrun as (members & h2 & Hmem & Hrun).
           apply bind_Ret in Hrun. destruct Hrun as (tail & h3 & Htail & Hrun).
           apply alloc_Ret in Htail. destruct Htail as [-> ->].
           apply bind_Ret in Hrun. destruct Hrun as (out' & h4 & Hrest & Hret).
           apply ret_Ret in Hret. destruct Hret as [_ <-].
           assert (Hm : keeps_but_refer
                          (h ++ [Build_Element name (Some "sequence")
                                   [("refer", VStr "entry")] None Dict]) h2).
           { destruct inline.
             - apply lift_Ret in Hmem. destruct Hmem as [_ ->].
               apply keeps_but_refer_refl.
             - destruct (@line_members_Ret _ _ _ _ _ Hmem) as (-> & _).
               apply keeps_but_refer_app. }
           eapply keeps_but_refer_trans; [apply keeps_but_refer_app|].
           eapply keeps_but_refer_trans; [exact Hm|].
           eapply keeps_but_refer_trans; [|exact (IH _ _ _ _ Hrest)].
           apply keeps_but_refer_app.
        -- apply bind_Ret in Hrun. destruct Hrun as (out' & h1 & Hrest & Hret).
           apply ret_Ret in Hret. destruct Hret as [_ <-].
           exact (IH _ _ _ _ Hrest).
Qed.

(** X22: [Sequence.detect] touches the input in one way only: it may give an
    element a [refer].  Every element keeps its name, type and base and
    every other argument. *)
Theorem detect_keeps_elements (inline : bool) (nodes : list node) (h h' : heap)
        (out : list docnode)
        (Hrun : detect inline nodes h = Ret out h') :
  keeps_but_refer h h'.
Proof.
  unfold detect in Hrun. apply bind_Ret in Hrun.
  destruct Hrun as (by_name & hx & Hb & Hrun).
  apply reading_Ret in Hb. destruct Hb as [_ ->].
  exact (@detect_scan_keeps inline by_name nodes None h out h' Hrun).
Qed.

Lemma detect_keeps_elements_witness :
  keeps_but_refer bare_heap
    (update_nth bare_heap 0%nat
       (mkElement (Some "S") (Some "SEQUENCE") [("refer", VStr "entry")] None)).
Proof.
  refine (@detect_keeps_elements false bare_nodes bare_heap _
            [DSequence (mkSequence bare_nodes [])] _).
  vm_compute. reflexivity.
Defined.

(** ** Base types *)

Lemma base_type_fuel_enough (h : heap) :
  wf_heap h ->
  forall n m l, (l < n)%nat -> (l < m)%nat ->
    base_type_fuel n h l = base_type_fuel m h l.
Proof.
  intros Hwf. induction n as [|n IH]; intros m l Hn Hm; [lia|].
  destruct m as [|m]; [lia|]. cbn [base_type_fuel].
  destruct (nth_error h l) as [e|] eqn:He; [|reflexivity].
  destruct (el_base e) as [[b|ln le]|] eqn:Hb; try reflexivity.
  pose proof (Hwf l e b He Hb). apply IH; lia.
Qed.

(** X23: The base type of an element is that of its base, and its own type
    where it has none; a rule that selects by type therefore matches an
    element exactly when it matches its base. *)
Theorem base_type_of_base (h : heap) (l : loc) (e : Element)
        (Hwf : wf_heap h)
        (He : nth_error h l = Some e) :
  match el_base e with
  | Some (RElement b) =>
      base_type h l = base_type h b
      /\ forall t type, t_match t = MatchType type ->
           match_elem t h l = match_elem t h b
  | Some (RLine _ _) => base_type h l = Err AttributeError
  | None => base_type h l = Ok (el_type e)
  end.
Proof.
  assert (Hstep : base_type h l =
                  match el_base e with
                  | Some (RElement b) => base_type_fuel (List.length h) h b
                  | Some (RLine _ _) => Err AttributeError
                  | None => Ok (el_type e)
                  end).
  { unfold base_type. cbn [base_type_fuel]. rewrite He. reflexivity. }
  destruct (el_base e) as [[b|ln le]|] eqn:Hb; try exact Hstep.
  pose proof (Hwf l e b He Hb) as Hlt. pose proof (nth_error_lt _ _ He) as Hl.
  assert (Hbt : base_type_fuel (List.length h) h b = base_type h b).
  { unfold base_type. apply base_type_fuel_enough; [exact Hwf|lia|lia]. }
  rewrite Hbt in Hstep. split; [exact Hstep|].
  intros t type Ht. unfold match_elem. rewrite Ht, Hstep. reflexivity.
Qed.

Lemma base_type_of_base_witness :
  base_type quad_def_heap 1%nat = base_type quad_def_heap 0%nat.
Proof.
  refine (proj1 (@base_type_of_base quad_def_heap 1%nat _ _ eq_refl)).
  intros l e b He Hb.
  destruct l as [|[|l]]; cbn in He;
    [injection He as <-; discriminate
    |injection He as <-; injection Hb as <-; lia
    |destruct l; discriminate].
Defined.
